(** * newcarfront: the real-time view-synchronisation core, embedded in Rocq

    A shallow embedding of the client code that keeps the ad, biography and
    message collections of the marketplace front-end in sync with the backend:
    the SignalR connection manager ([lib/signalr]), the push-event handlers of
    the public profile page, the dashboard and the home page, the bulk loaders,
    the price formatters and [errorToText]; and, around that core, the rows
    of the biography manager, the date menus, code conversions and view total
    of the dashboard, the combined list and owner lookups of the home page,
    and the labels the three pages give to type and gearbox codes.

    Conventions.
    - A JavaScript number that carries an amount of money is a binary64 float
      ([PrimFloat.float]); ids, counters and years are integers and are kept in
      [Z].
    - A JavaScript string is a [string] holding its UTF-8 bytes.
    - A React state cell [const [x, setX] = useState(..)] is a record field;
      [setX(v)] writes the field and [setX(prev => f prev)] applies [f] to it.
    - An [async] function is cut at each [await] into segments; what happens
      between two segments is a separate transition of the model. *)

From stdpp Require Import base option list strings gmap pretty.
From Stdlib Require Import ZArith Floats String Ascii List Bool Lia.
From Stdlib Require Import Sorting.Sorted Sorting.Permutation.
From Stdlib Require Import Structures.OrdersEx.

Set Warnings "-inexact-float,-register-all".

Open Scope string_scope.

#[local] Arguments String.append : simpl nomatch.

(** ** JavaScript built-ins used by the sources *)

Module JS.

(** [Array.prototype.join] on an array of strings. *)
Definition join (sep : string) (parts : list string) : string :=
  String.concat sep parts.

(** [Array.prototype.push]: the array with [x] appended. *)
Definition push {A : Type} (xs : list A) (x : A) : list A := (xs ++ [x])%list.

(** [String.prototype.includes]: [sub] occurs somewhere in [s]. *)
Fixpoint includes (s sub : string) : bool :=
  String.prefix sub s ||
  match s with
  | EmptyString => false
  | String _ s' => includes s' sub
  end.

(** The bytes of a string: used to state which characters a text holds. *)
Fixpoint has_byte (c : ascii) (s : string) : bool :=
  match s with
  | EmptyString => false
  | String a s' => Ascii.eqb a c || has_byte c s'
  end.

(** *** Numbers *)

Definition Number_isFinite (x : float) : bool := is_finite x.

Definition Math_abs (x : float) : float := PrimFloat.abs x.

(** The integer [(-1)^s * m] of a finite float [m * 2^e]. *)
Definition signed_mantissa (s : bool) (m : positive) : Z :=
  if s then Z.neg m else Z.pos m.

(** An integer of magnitude below 2^53 as a float; [neg0] selects the sign
    of a zero result. *)
Definition float_of_Z (neg0 : bool) (z : Z) : float :=
  match z with
  | Z0 => if neg0 then PrimFloat.neg_zero else PrimFloat.zero
  | Zpos _ => PrimFloat.of_uint63 (Uint63.of_Z z)
  | Zneg p => (- PrimFloat.of_uint63 (Uint63.of_Z (Zpos p)))%float
  end.

(** [Math.floor]: a float with a non-negative exponent is already integral;
    otherwise the mantissa is shifted right, which rounds towards minus
    infinity. NaN, the infinities and the zeros are returned unchanged. *)
Definition Math_floor (x : float) : float :=
  match Prim2SF x with
  | S754_finite s m e =>
      if (0 <=? e)%Z then x
      else float_of_Z false (Z.shiftr (signed_mantissa s m) (- e))
  | _ => x
  end.

(** [Math.round]: the nearest integer, a tie going towards plus infinity,
    that is [floor (x + 1/2)] computed exactly. A negative [x] that rounds
    to zero gives [-0]. *)
Definition Math_round (x : float) : float :=
  match Prim2SF x with
  | S754_finite s m e =>
      if (0 <=? e)%Z then x
      else float_of_Z s (Z.shiftr (signed_mantissa s m + 2 ^ (- e - 1)) (- e))
  | _ => x
  end.

(** The integer part of a float, towards zero (0 for NaN and infinities). *)
Definition trunc_Z (x : float) : Z :=
  match Prim2SF x with
  | S754_finite s m e =>
      if (0 <=? e)%Z then signed_mantissa s m * 2 ^ e
      else Z.quot (signed_mantissa s m) (2 ^ (- e))
  | _ => 0
  end.

(** *** [Number.prototype.toLocaleString("fa-IR")] on integers

    Extended Arabic-Indic digits U+06F0..U+06F9, grouped by three with the
    Arabic thousands separator U+066C. Every caller below passes the result
    of [Math.floor] or [Math.round], guarded by [> 0], so only positive
    integers are rendered; fraction digits are not modelled. The digits
    are those of the integer itself, as the engine prints every integer
    below 2^53; from there on the engine prints the shortest digits that
    read back as the same number and fills up with zeros, which is not
    followed here. *)

Definition fa_digit (d : Z) : string :=
  String (ascii_of_nat 219) (String (ascii_of_nat (176 + Z.to_nat d)) EmptyString).

Definition fa_sep : string :=
  String (ascii_of_nat 217) (String (ascii_of_nat 172) EmptyString).

(** Decimal digits of [n >= 0], least significant first. *)
Fixpoint decimal_digits (fuel : nat) (n : Z) : list Z :=
  match fuel with
  | O => []
  | S f => if (n <? 10)%Z then [n] else (n mod 10)%Z :: decimal_digits f (n / 10)%Z
  end.

(** Writes the digits [ds] (least significant first, the first one at
    position [i]) in front of [acc]. *)
Fixpoint fa_group (ds : list Z) (i : nat) (acc : string) : string :=
  match ds with
  | [] => acc
  | d :: ds' =>
      let sep := if (0 <? i)%nat && (i mod 3 =? 0)%nat then fa_sep else "" in
      fa_group ds' (S i) (fa_digit d ++ sep ++ acc)
  end.

Definition fa_integer (n : Z) : string :=
  fa_group (decimal_digits (S (Z.to_nat (Z.log2 n))) n) 0 "".

Definition toLocaleString_fa (x : float) : string :=
  fa_integer (Z.abs (trunc_Z x)).

End JS.

(** ** [String.prototype.trim] *)

Module JSString.

(** The white space and line terminators of ECMAScript, which [trim]
    strips: U+0009 to U+000D, U+0020, U+00A0, U+1680, U+2000 to U+200A,
    U+2028, U+2029, U+202F, U+205F, U+3000 and U+FEFF, each recognised by
    the bytes of its UTF-8 encoding. *)

Definition is_ws1 (a : nat) : bool :=
  ((9 <=? a) && (a <=? 13) || (a =? 32))%nat.

Definition is_ws2 (a b : nat) : bool :=
  ((a =? 194) && (b =? 160))%nat.

Definition is_ws3 (a b c : nat) : bool :=
  ((a =? 225) && (b =? 154) && (c =? 128)
   || (a =? 226) && (b =? 128)
      && ((128 <=? c) && (c <=? 138) || (c =? 168) || (c =? 169) || (c =? 175))
   || (a =? 226) && (b =? 129) && (c =? 159)
   || (a =? 227) && (b =? 128) && (c =? 128)
   || (a =? 239) && (b =? 187) && (c =? 191))%nat.

(** [String.prototype.trimStart] *)
Fixpoint trimStart (s : string) : string :=
  match s with
  | EmptyString => EmptyString
  | String a rest =>
      if is_ws1 (nat_of_ascii a) then trimStart rest
      else
        match rest with
        | EmptyString => s
        | String b rest2 =>
            if is_ws2 (nat_of_ascii a) (nat_of_ascii b) then trimStart rest2
            else
              match rest2 with
              | EmptyString => s
              | String c rest3 =>
                  if is_ws3 (nat_of_ascii a) (nat_of_ascii b) (nat_of_ascii c)
                  then trimStart rest3
                  else s
              end
        end
  end.

(** The bytes of [s] in reverse order, in front of [acc]. *)
Fixpoint reverse_onto (s acc : string) : string :=
  match s with
  | EmptyString => acc
  | String a rest => reverse_onto rest (String a acc)
  end.

Definition reverse (s : string) : string := reverse_onto s EmptyString.

(** [trimStart] on the reversed bytes: the last byte of a character comes
    first. *)
Fixpoint trimStart_reversed (r : string) : string :=
  match r with
  | EmptyString => EmptyString
  | String a rest =>
      if is_ws1 (nat_of_ascii a) then trimStart_reversed rest
      else
        match rest with
        | EmptyString => r
        | String b rest2 =>
            if is_ws2 (nat_of_ascii b) (nat_of_ascii a) then trimStart_reversed rest2
            else
              match rest2 with
              | EmptyString => r
              | String c rest3 =>
                  if is_ws3 (nat_of_ascii c) (nat_of_ascii b) (nat_of_ascii a)
                  then trimStart_reversed rest3
                  else r
              end
        end
  end.

(** [String.prototype.trimEnd] *)
Definition trimEnd (s : string) : string :=
  reverse (trimStart_reversed (reverse s)).

(** [String.prototype.trim] *)
Definition trim (s : string) : string := trimEnd (trimStart s).

End JSString.

(** ** JavaScript values as they come out of [JSON.parse] or a [catch] *)

Module Value.
Import JS.

(** A value without functions: what an axios error carries in
    [response.data], and what [catch (e)] can bind when [e] was built from
    such data. The properties of an object are listed in the engine's
    own-property order, each key once. *)
Inductive value : Type :=
| VUndefined
| VNull
| VBool (b : bool)
| VNum (n : float)
| VStr (s : string)
| VArr (xs : list value)
| VObj (props : list (string * value)).

(** The outcome of evaluating an expression: a result, or a thrown
    [TypeError]. *)
Inductive completion (A : Type) : Type :=
| Normal (a : A)
| Throw (e : string).
Arguments Normal {A} a.
Arguments Throw {A} e.

#[export] Instance completion_ret : MRet completion := fun A a => Normal a.

#[export] Instance completion_bind : MBind completion := fun A B k c =>
  match c with
  | Normal a => k a
  | Throw e => Throw e
  end.

(** [typeof v] *)
Definition typeof (v : value) : string :=
  match v with
  | VUndefined => "undefined"
  | VBool _ => "boolean"
  | VNum _ => "number"
  | VStr _ => "string"
  | VNull | VArr _ | VObj _ => "object"
  end.

Definition Array_isArray (v : value) : bool :=
  match v with VArr _ => true | _ => false end.

(** [ToBoolean]: what [Boolean(v)], [v && ..], [v || ..] and [if (v)] test. *)
Definition truthy (v : value) : bool :=
  match v with
  | VUndefined | VNull => false
  | VBool b => b
  | VNum n => negb (PrimFloat.is_nan n || PrimFloat.is_zero n)
  | VStr s => negb (String.eqb s "")
  | VArr _ | VObj _ => true
  end.

(** [a || b] *)
Definition or_else (a b : value) : value := if truthy a then a else b.

Fixpoint lookup_prop (k : string) (props : list (string * value)) : value :=
  match props with
  | [] => VUndefined
  | (k', v) :: rest => if String.eqb k' k then v else lookup_prop k rest
  end.

Fixpoint has_own (k : string) (props : list (string * value)) : bool :=
  match props with
  | [] => false
  | (k', _) :: rest => String.eqb k' k || has_own k rest
  end.

(** The index properties of an array: ["0"], ["1"], ... *)
Definition array_entries (xs : list value) : list (string * value) :=
  imap (fun i x => (pretty i, x)) xs.

(** [v[k]] for a [v] that is neither [undefined] nor [null]. Inherited
    properties ([length], the prototype methods) are not modelled: the code
    below reads none of them by name. *)
Definition get (v : value) (k : string) : value :=
  match v with
  | VObj props => lookup_prop k props
  | VArr xs => lookup_prop k (array_entries xs)
  | _ => VUndefined
  end.

(** [v?.k] *)
Definition opt_get (v : value) (k : string) : value :=
  match v with
  | VUndefined | VNull => VUndefined
  | _ => get v k
  end.

(** [Object.keys(v)] *)
Definition Object_keys (v : value) : list string :=
  match v with
  | VObj props => map fst props
  | VArr xs => map fst (array_entries xs)
  | _ => []
  end.

Section NumberToString.

(** [Number.prototype.toString], the shortest decimal text that reads back
    as the same float: a built-in of the engine, taken as a parameter. *)
Variable Number_toString : float -> string.

(** [ToString(v)], the conversion behind [String(v)], template literals
    and the elements of [join]. An object converts through its [toString]
    method: the inherited one answers "[object Object]", an own property of
    that name is not callable here, and then the conversion throws. *)
Fixpoint ToString (v : value) : completion string :=
  match v with
  | VUndefined => Normal "undefined"
  | VNull => Normal "null"
  | VBool b => Normal (if b then "true" else "false")
  | VNum n => Normal (Number_toString n)
  | VStr s => Normal s
  | VArr xs =>
      parts ← (fix elements (xs : list value) : completion (list string) :=
                  match xs with
                  | [] => Normal []
                  | x :: rest =>
                      s ← match x with
                           | VUndefined | VNull => Normal ""
                           | _ => ToString x
                           end;
                      l ← elements rest;
                      Normal (s :: l)
                  end) xs;
      Normal (join "," parts)
  | VObj props =>
      if has_own "toString" props
      then Throw "TypeError: Cannot convert object to primitive value"
      else Normal "[object Object]"
  end.

(** The text of one element inside [Array.prototype.join]. *)
Definition join_element (x : value) : completion string :=
  match x with
  | VUndefined | VNull => Normal ""
  | _ => ToString x
  end.

Fixpoint join_elements (xs : list value) : completion (list string) :=
  match xs with
  | [] => Normal []
  | x :: rest =>
      s ← join_element x;
      l ← join_elements rest;
      Normal (s :: l)
  end.

(** [xs.join(sep)] on an array of values. *)
Definition Array_join (sep : string) (xs : list value) : completion string :=
  parts ← join_elements xs;
  Normal (join sep parts).

(** *** [JSON.stringify] *)

Definition dquote : string := String (ascii_of_nat 34) EmptyString.

Definition hex_digit (n : nat) : ascii :=
  ascii_of_nat (if (n <? 10)%nat then 48 + n else 87 + n).

(** [QuoteJSONString], one character at a time. *)
Definition json_escape (c : ascii) : string :=
  let n := nat_of_ascii c in
  if (n =? 34)%nat then String "\" dquote
  else if (n =? 92)%nat then "\\"
  else if (n =? 8)%nat then "\b"
  else if (n =? 12)%nat then "\f"
  else if (n =? 10)%nat then "\n"
  else if (n =? 13)%nat then "\r"
  else if (n =? 9)%nat then "\t"
  else if (n <? 32)%nat
       then "\u00" ++ String (hex_digit (n / 16)) (String (hex_digit (n mod 16)) EmptyString)
  else String c EmptyString.

Fixpoint json_escape_all (s : string) : string :=
  match s with
  | EmptyString => EmptyString
  | String c s' => json_escape c ++ json_escape_all s'
  end.

Definition json_quote (s : string) : string :=
  dquote ++ json_escape_all s ++ dquote.

(** [JSON.stringify(v)]: [None] stands for the result [undefined]. A
    property whose value serialises to [undefined] is left out of an object
    and written [null] inside an array. *)
Fixpoint JSON_stringify (v : value) : option string :=
  match v with
  | VUndefined => None
  | VNull => Some "null"
  | VBool b => Some (if b then "true" else "false")
  | VNum n => Some (if Number_isFinite n then Number_toString n else "null")
  | VStr s => Some (json_quote s)
  | VArr xs =>
      Some ("[" ++
            join "," ((fix elements (xs : list value) : list string :=
                         match xs with
                         | [] => []
                         | x :: rest =>
                             match JSON_stringify x with
                             | Some s => s
                             | None => "null"
                             end :: elements rest
                         end) xs) ++
            "]")
  | VObj props =>
      Some ("{" ++
            join "," ((fix members (ps : list (string * value)) : list string :=
                         match ps with
                         | [] => []
                         | (k, x) :: rest =>
                             match JSON_stringify x with
                             | Some s => (json_quote k ++ ":" ++ s) :: members rest
                             | None => members rest
                             end
                         end) props) ++
            "}")
  end.

End NumberToString.

(** A rendering of integral floats, enough to run the model on examples
    whose numbers are integers of magnitude below 1e21. *)
Definition integral_toString (x : float) : string := pretty (trunc_Z x).

End Value.

(** ** [errorToText] ([lib/errorText.ts]) *)

Module ErrorText.
Import JS Value.

Definition unknown_error : string := "خطای نامشخص. لطفاً دوباره تلاش کنید.".

Definition newline : string := String (ascii_of_nat 10) EmptyString.

(** [err?.response?.data] *)
Definition response_data (err : value) : value :=
  opt_get (opt_get err "response") "data".

(** What [errorToText] is handed. A [catch] binds whatever was thrown: a
    value as above (a primitive, an array, an object literal or parsed
    JSON, whose prototype is [Object.prototype]), or an instance of [Error]
    or of one of its subclasses, as axios and the engine throw them. An
    instance has its own properties, and inherits [message] (the empty
    string), [name] (here [proto_name]: "Error", "TypeError", ...) and
    [toString] from its prototype chain. *)
Inductive thrown : Type :=
| Plain (v : value)
| ErrorInstance (proto_name : string) (own : list (string * value)).

(** [err?.k] for a data property [k]: an own property first, then the ones
    [Error.prototype] and its subclasses carry. The inherited methods are
    functions and are not read through this. *)
Definition thrown_get (err : thrown) (k : string) : value :=
  match err with
  | Plain v => opt_get v k
  | ErrorInstance proto_name own =>
      if has_own k own then lookup_prop k own
      else if String.eqb k "message" then VStr ""
      else if String.eqb k "name" then VStr proto_name
      else VUndefined
  end.

(** [err?.response?.data] on what was thrown. *)
Definition thrown_response_data (err : thrown) : value :=
  opt_get (thrown_get err "response") "data".

Section WithNumberToString.

Variable Number_toString : float -> string.

(** [data.map((x) => (typeof x === "string" ? x : JSON.stringify(x)))]:
    an element that serialises to [undefined] stays [undefined]. *)
Definition stringify_unless_string (x : value) : value :=
  match x with
  | VStr s => VStr s
  | _ => match JSON_stringify Number_toString x with
         | Some s => VStr s
         | None => VUndefined
         end
  end.

(** The text of a template literal hole holding [JSON.stringify(v)]. *)
Definition stringify_hole (v : value) : string :=
  match JSON_stringify Number_toString v with
  | Some s => s
  | None => "undefined"
  end.

(** One turn of the loop over [Object.keys(errors)]. *)
Definition error_part (errors : value) (k : string) : completion string :=
  let v := get errors k in
  match v with
  | VArr xs =>
      joined ← Array_join Number_toString " | " xs;
      Normal (k ++ ": " ++ joined)
  | VStr s => Normal (k ++ ": " ++ s)
  | _ => Normal (k ++ ": " ++ stringify_hole v)
  end.

Fixpoint error_parts (errors : value) (keys : list string) : completion (list string) :=
  match keys with
  | [] => Normal []
  | k :: rest =>
      p ← error_part errors k;
      ps ← error_parts errors rest;
      Normal (p :: ps)
  end.

(** [err?.toString?.()]: the method of the value's prototype, unless an
    object carries an own property of that name; the call is skipped when
    that property is [undefined] or [null] and throws when it is anything
    else, since it is not a function. *)
Definition call_toString (err : value) : completion value :=
  match err with
  | VUndefined | VNull => Normal VUndefined
  | VObj props =>
      if has_own "toString" props
      then match lookup_prop "toString" props with
           | VUndefined | VNull => Normal VUndefined
           | _ => Throw "TypeError: err.toString is not a function"
           end
      else Normal (VStr "[object Object]")
  | _ => s ← ToString Number_toString err; Normal (VStr s)
  end.

(** [Error.prototype.toString] called on an instance: the name, defaulting
    to "Error", and the message, defaulting to the empty text, each
    converted to a string; the one that is not empty, or both joined by a
    colon and a space. *)
Definition Error_prototype_toString (err : thrown) : completion string :=
  name ← match thrown_get err "name" with
          | VUndefined => Normal "Error"
          | v => ToString Number_toString v
          end;
  msg ← match thrown_get err "message" with
         | VUndefined => Normal ""
         | v => ToString Number_toString v
         end;
  Normal (if String.eqb name "" then msg
          else if String.eqb msg "" then name
          else name ++ ": " ++ msg).

(** [err?.toString?.()] on what was thrown: an instance of [Error] answers
    with [Error.prototype.toString] unless it carries an own property of
    that name. *)
Definition thrown_toString (err : thrown) : completion value :=
  match err with
  | Plain v => call_toString v
  | ErrorInstance _ own =>
      if has_own "toString" own
      then match lookup_prop "toString" own with
           | VUndefined | VNull => Normal VUndefined
           | _ => Throw "TypeError: err.toString is not a function"
           end
      else s ← Error_prototype_toString err; Normal (VStr s)
  end.

(** The body of the [try] block. [Normal None] stands for returning
    [undefined]. *)
Definition errorToText_try (err : thrown) : completion (option string) :=
  let data := thrown_response_data err in
  match data with
  | VStr s => Normal (Some s)
  | VArr xs =>
      joined ← Array_join Number_toString newline (map stringify_unless_string xs);
      Normal (Some joined)
  | _ =>
      if truthy data && String.eqb (typeof data) "object" then
        let title := or_else (get data "title") (get data "Title") in
        let detail := or_else (get data "detail") (get data "Detail") in
        let errors := or_else (get data "errors") (get data "Errors") in
        if truthy errors && String.eqb (typeof errors) "object" then
          parts ← error_parts errors (Object_keys errors);
          let errText := join newline parts in
          joined ← Array_join Number_toString newline
                     (List.filter truthy [title; detail; VStr errText]);
          Normal (Some joined)
        else
          msg ← Array_join Number_toString newline (List.filter truthy [title; detail]);
          if negb (String.eqb msg "") then Normal (Some msg)
          else Normal (JSON_stringify Number_toString data)
      else
        let message := thrown_get err "message" in
        msg ← (if truthy message then Normal message
               else
                 s ← thrown_toString err;
                 Normal (or_else s (VStr unknown_error)));
        text ← ToString Number_toString msg;
        Normal (Some text)
  end.

(** [errorToText]: the [try] block, and the fixed message of the [catch]. *)
Definition errorToText (err : thrown) : option string :=
  match errorToText_try err with
  | Normal r => r
  | Throw _ => Some unknown_error
  end.

End WithNumberToString.

(** An axios error whose response carries [data]: an instance of
    [AxiosError], whose constructor sets its own [message], [name] and
    [code] beside [response]. *)
Definition axios_error (data : value) : thrown :=
  ErrorInstance "Error"
    [("message", VStr "Request failed with status code 400");
     ("name", VStr "AxiosError");
     ("code", VStr "ERR_BAD_REQUEST");
     ("response", VObj [("data", data); ("status", VNum 400)])].

(** The [errors] member of a validation problem: field name to messages. *)
Definition problem_errors (errs : list (string * list string)) : value :=
  VObj (map (fun e => (fst e, VArr (map VStr (snd e)))) errs).

(** The member [k] of an object is the text [t], or the object has no
    member [k]. *)
Definition text_member (props : list (string * value)) (k : string) (t : option string) : Prop :=
  match t with
  | Some s => lookup_prop k props = VStr s
  | None => has_own k props = false
  end.

(** The line [errorToText] prints for one field. *)
Definition field_line (e : string * list string) : string :=
  fst e ++ ": " ++ join " | " (snd e).

Definition nonempty (s : string) : bool := negb (String.eqb s "").

End ErrorText.
(** ** The price formatters *)

Module Price.
Import JS.

(** [priceToText] of the public profile page ([app/u/[id]/page.tsx]). *)
Definition priceToText (millionVal : float) : string :=
  if negb (Number_isFinite millionVal) || (millionVal <=? 0)%float then "—"
  else
    let billion := Math_floor (millionVal / 1000)%float in
    let rem := (millionVal - billion * 1000)%float in
    let million := Math_floor rem in
    let thousand := Math_round ((rem - million) * 1000)%float in
    let toFa := toLocaleString_fa in
    let parts : list string := [] in
    let parts := if (0 <? billion)%float then push parts (toFa billion ++ " میلیارد") else parts in
    let parts := if (0 <? million)%float then push parts (toFa million ++ " میلیون") else parts in
    let parts := if (0 <? thousand)%float then push parts (toFa thousand ++ " هزار") else parts in
    if (length parts =? 0)%nat then "—"
    else join " و " parts ++ " تومان".

(** [priceToText] of the home page ([app/page.tsx]); [Number(v)] is the
    identity on a number. *)
Definition priceToText_home (v : float) : string :=
  let n := v in
  if negb (Number_isFinite n) || (n <=? 0)%float then "—"
  else
    let billion := Math_floor (n / 1000)%float in
    let rem := (n - billion * 1000)%float in
    let million := Math_floor rem in
    let thousand := Math_round ((rem - million) * 1000)%float in
    let toFa := toLocaleString_fa in
    let parts : list string := [] in
    let parts := if (0 <? billion)%float then push parts (toFa billion ++ " میلیارد") else parts in
    let parts := if (0 <? million)%float then push parts (toFa million ++ " میلیون") else parts in
    let parts := if (0 <? thousand)%float then push parts (toFa thousand ++ " هزار") else parts in
    if (0 <? length parts)%nat then join " و " parts ++ " تومان" else "—".

(** [formatFromMillionInput] of the add-ad dialog ([AddAdModal]). *)
Definition formatFromMillionInput (v : float) : string :=
  if negb (Number_isFinite v) then ""
  else
    let sign := if (v <? 0)%float then "-" else "" in
    let abs := Math_abs v in
    let billion := Math_floor (abs / 1000)%float in
    let remAfterBillion := (abs - billion * 1000)%float in
    let million := Math_floor remAfterBillion in
    let frac := (remAfterBillion - million)%float in
    let thousand := Math_round (frac * 1000)%float in
    let millionAdj := million in
    let billionAdj := billion in
    let '(thousand, millionAdj) :=
      if (1000 <=? thousand)%float
      then ((thousand - 1000)%float, (millionAdj + 1)%float)
      else (thousand, millionAdj) in
    let '(billionAdj, millionAdj) :=
      if (1000 <=? millionAdj)%float
      then
        let extraB := Math_floor (millionAdj / 1000)%float in
        ((billionAdj + extraB)%float, (millionAdj - extraB * 1000)%float)
      else (billionAdj, millionAdj) in
    let parts : list string := [] in
    let parts :=
      if (0 <? billionAdj)%float
      then push parts (toLocaleString_fa billionAdj ++ " میلیارد") else parts in
    let parts :=
      if (0 <? millionAdj)%float
      then push parts (toLocaleString_fa millionAdj ++ " میلیون") else parts in
    let parts :=
      if (0 <? thousand)%float
      then push parts (toLocaleString_fa thousand ++ " هزار تومان") else parts in
    if (length parts =? 0)%nat then "۰ تومان"
    else
      let last := List.last parts "" in
      let hasToman := includes last "تومان" in
      let joined := join " و " parts in
      sign ++ (if hasToman then joined else joined ++ " تومان").

(** The three amounts both formatters compute before any carry. *)
Definition price_parts (v : float) : float * float * float :=
  let billion := Math_floor (v / 1000)%float in
  let rem := (v - billion * 1000)%float in
  let million := Math_floor rem in
  let thousand := Math_round ((rem - million) * 1000)%float in
  (billion, million, thousand).

End Price.

(** ** Arrays and the entities of the data model *)

Module Arrays.

(** [Array.prototype.some] *)
Definition some {A : Type} (f : A -> bool) (xs : list A) : bool := existsb f xs.

(** [Array.prototype.findIndex]: the first index whose element satisfies
    [f], or -1. *)
Fixpoint findIndex_from {A : Type} (f : A -> bool) (xs : list A) (i : Z) : Z :=
  match xs with
  | [] => (-1)%Z
  | x :: rest => if f x then i else findIndex_from f rest (i + 1)%Z
  end.

Definition findIndex {A : Type} (f : A -> bool) (xs : list A) : Z :=
  findIndex_from f xs 0%Z.

(** [const [item] = xs.splice(idx, 1); xs.unshift(item)]: the element at
    [idx] is taken out and put first. Both call sites guard it by
    [idx > 0] with [idx] a result of [findIndex], so the index is in range;
    out of range [splice] removes nothing and [unshift(undefined)] is not
    modelled. *)
Definition splice_unshift {A : Type} (idx : nat) (xs : list A) : list A :=
  match xs !! idx with
  | Some item => item :: delete idx xs
  | None => xs
  end.

(** [Array.prototype.sort(cmp)], as an insertion sort that reads only the
    sign of [cmp]: each element in turn goes in front of the first element
    of the sorted prefix it compares below. With a comparator that never
    returns 0, the engine's order between equal keys is its own; every
    statement below holds for any such order. *)
Fixpoint sort_insert {A : Type} (cmp : A -> A -> Z) (x : A) (sorted : list A) : list A :=
  match sorted with
  | [] => [x]
  | y :: rest => if (cmp x y <? 0)%Z then x :: y :: rest else y :: sort_insert cmp x rest
  end.

Definition sort {A : Type} (cmp : A -> A -> Z) (xs : list A) : list A :=
  fold_left (fun sorted x => sort_insert cmp x sorted) xs [].

End Arrays.

(** [Ad]: a listing, as the three pages declare it. *)
Module Ad.
Record t : Type := mk {
  id : Z;
  userId : Z;
  type : Z;
  title : string;
  year : Z;
  color : string;
  mileageKm : Z;
  price : float;
  gearbox : Z;
  createdAt : string;
  viewCount : Z;
  insuranceMonths : option Z;
  chassisNumber : option string;
  contactPhone : option string;
  description : option string
}.

(** [{ ...x, viewCount: v }] *)
Definition with_viewCount (x : t) (v : Z) : t :=
  mk (id x) (userId x) (type x) (title x) (year x) (color x) (mileageKm x) (price x)
     (gearbox x) (createdAt x) v (insuranceMonths x) (chassisNumber x) (contactPhone x)
     (description x).

(** The payload of an update event: the fields it carries. *)
Record patch : Type := mk_patch {
  p_id : option Z;
  p_userId : option Z;
  p_type : option Z;
  p_title : option string;
  p_year : option Z;
  p_color : option string;
  p_mileageKm : option Z;
  p_price : option float;
  p_gearbox : option Z;
  p_createdAt : option string;
  p_viewCount : option Z;
  p_insuranceMonths : option (option Z);
  p_chassisNumber : option (option string);
  p_contactPhone : option (option string);
  p_description : option (option string)
}.

(** [{ ...x, ...p }] *)
Definition merge (x : t) (p : patch) : t :=
  mk (default (id x) (p_id p))
     (default (userId x) (p_userId p))
     (default (type x) (p_type p))
     (default (title x) (p_title p))
     (default (year x) (p_year p))
     (default (color x) (p_color p))
     (default (mileageKm x) (p_mileageKm p))
     (default (price x) (p_price p))
     (default (gearbox x) (p_gearbox p))
     (default (createdAt x) (p_createdAt p))
     (default (viewCount x) (p_viewCount p))
     (default (insuranceMonths x) (p_insuranceMonths p))
     (default (chassisNumber x) (p_chassisNumber p))
     (default (contactPhone x) (p_contactPhone p))
     (default (description x) (p_description p)).
End Ad.

(** [BioItem] of the public profile page. *)
Module BioItem.
Record t : Type := mk {
  id : Z;
  userId : Z;
  isAdvanced : bool;
  title : string;
  description : string;
  contactInfo : option string;
  createdAt : string;
  updatedAt : string
}.

Record patch : Type := mk_patch {
  p_id : option Z;
  p_userId : option Z;
  p_isAdvanced : option bool;
  p_title : option string;
  p_description : option string;
  p_contactInfo : option (option string);
  p_createdAt : option string;
  p_updatedAt : option string
}.

(** [{ ...x, ...p }] *)
Definition merge (x : t) (p : patch) : t :=
  mk (default (id x) (p_id p))
     (default (userId x) (p_userId p))
     (default (isAdvanced x) (p_isAdvanced p))
     (default (title x) (p_title p))
     (default (description x) (p_description p))
     (default (contactInfo x) (p_contactInfo p))
     (default (createdAt x) (p_createdAt p))
     (default (updatedAt x) (p_updatedAt p)).
End BioItem.

(** [TelegramMsg] of the home page. *)
Module TelegramMsg.
Record t : Type := mk {
  id : Z;
  messageId : Z;
  text : string;
  fromUsername : option string;
  fromFirstName : option string;
  receivedAt : string;
  telegramLink : string
}.
End TelegramMsg.

(** [a === b] between a number that is there and one that may be missing. *)
Definition strict_eq (a : Z) (b : option Z) : bool :=
  match b with
  | Some b => (a =? b)%Z
  | None => false
  end.

(** The outcome of a request: the response body, or the error the promise
    rejects with. *)
Inductive response (A : Type) : Type :=
| Fulfilled (data : A)
| Rejected (e : Value.value).
Arguments Fulfilled {A} data.
Arguments Rejected {A} e.

(** ** The connection manager ([lib/signalr.ts]) *)

Module SignalR.
Import JS.

(** [signalR.HubConnectionState] *)
Inductive HubConnectionState : Type :=
| Disconnected
| Connecting
| Connected
| Disconnecting
| Reconnecting.

(** [a === b] on connection states. *)
Definition state_eqb (a b : HubConnectionState) : bool :=
  match a, b with
  | Disconnected, Disconnected | Connecting, Connecting | Connected, Connected
  | Disconnecting, Disconnecting | Reconnecting, Reconnecting => true
  | _, _ => false
  end.

(** A [HubConnection] built by [startSignalR]. [invocations] are the
    [invoke] calls sent over it, oldest first, as a spy on the connection
    would record them. [groups] is the hub's side of the push channel, as
    the specification describes it: the profile rooms the current transport
    connection belongs to. Subscriptions do not survive a transport-level
    reconnect: the fresh transport connection belongs to no room. *)
Record HubConnection : Type := mkConn {
  state : HubConnectionState;
  accessToken : string;
  invocations : list (string * string);
  groups : list string
}.

(** The module: [let connection: HubConnection | null], the connections
    built so far (the handle is an index into them), and the console. *)
Record World : Type := mkWorld {
  connection : option nat;
  conns : list HubConnection;
  console : list string
}.

Definition initial : World := mkWorld None [] [].

Definition getConnection (w : World) : option nat := connection w.

Definition log (line : string) (w : World) : World :=
  mkWorld (connection w) (conns w) (push (console w) line).

(** Applies [f] to the connection [c]. *)
Definition update (c : nat) (f : HubConnection -> HubConnection) (w : World) : World :=
  mkWorld (connection w) (alter f c (conns w)) (console w).

Definition set_state (st : HubConnectionState) (h : HubConnection) : HubConnection :=
  mkConn st (accessToken h) (invocations h) (groups h).

Definition state_of (w : World) (c : nat) : option HubConnectionState :=
  state <$> conns w !! c.

(** [conn.state === st] for the connection [c]. *)
Definition in_state (w : World) (c : nat) (st : HubConnectionState) : bool :=
  match state_of w c with
  | Some st' => state_eqb st' st
  | None => false
  end.

(** How a call of [startSignalR] leaves its first segment: it returned
    [connection], or it is suspended in [await connection.start()]. *)
Inductive started : Type :=
| Returned (c : nat)
| AwaitingStart (c : nat).

(** [startSignalR] from its entry to the first [await]. [token] is
    [useAuthStore.getState().token]. The guard returns the existing
    connection only in state [Connected]; otherwise a new [HubConnection]
    is built, stored in [connection], given its three log-only callbacks,
    and started. *)
Definition startSignalR_begin (token : option string) (w : World) : started * World :=
  let existing :=
    match connection w with
    | Some c => if in_state w c Connected then Some c else None
    | None => None
    end in
  match existing with
  | Some c => (Returned c, w)
  | None =>
      let w := log "HUB URL =>" w in
      let c := length (conns w) in
      let built := mkConn Disconnected (default "" token) [] [] in
      let w := mkWorld (Some c) (push (conns w) built) (console w) in
      (AwaitingStart c, update c (set_state Connecting) w)
  end.

(** [startSignalR] after [await connection.start()]: it logs and returns
    the module variable as it is then. When [stopSignalR] has set the
    variable to [null] in between, reading [connection.state] throws before
    anything is logged and the call rejects: that is the result [None]. *)
Definition startSignalR_resume (w : World) : option nat * World :=
  match connection w with
  | Some c => (Some c, log "SignalR connected. state =" w)
  | None => (None, w)
  end.

(** *** What the transport does to a connection *)

(** The handshake of [start()] succeeded. *)
Definition start_succeeded (c : nat) (w : World) : World :=
  update c (set_state Connected) w.

(** The handshake of [start()] failed: the promise rejects, and
    [connection] keeps pointing at the dead connection. *)
Definition start_failed (c : nat) (w : World) : World :=
  update c (set_state Disconnected) w.

(** The transport was lost and automatic reconnect begins: the
    [onreconnecting] callback runs. *)
Definition on_reconnecting (c : nat) (w : World) : World :=
  log "SignalR reconnecting:" (update c (set_state Reconnecting) w).

(** The transport is back under a new connection id, so the hub has the
    connection in no group; the [onreconnected] callback runs. *)
Definition on_reconnected (c : nat) (w : World) : World :=
  log "SignalR reconnected:"
    (update c (fun h => mkConn Connected (accessToken h) (invocations h) []) w).

(** Reconnecting was given up: the [onclose] callback runs. *)
Definition on_close (c : nat) (w : World) : World :=
  log "SignalR closed:" (update c (set_state Disconnected) w).

(** What the hub does with an invocation it receives. *)
Definition hub_receive (method arg : string) (gs : list string) : list string :=
  if String.eqb method "JoinProfile" then
    if existsb (String.eqb arg) gs then gs else push gs arg
  else if String.eqb method "LeaveProfile" then
    List.filter (fun g => negb (String.eqb g arg)) gs
  else gs.

(** [conn.invoke(method, arg)]: sent when the connection is [Connected],
    rejected otherwise. *)
Definition invoke (c : nat) (method arg : string) (w : World) : option World :=
  if in_state w c Connected
  then Some (update c (fun h =>
               mkConn (state h) (accessToken h)
                      (push (invocations h) (method, arg))
                      (hub_receive method arg (groups h))) w)
  else None.

(** [stopSignalR], with the transport closing at once. [stop()] leaves
    the connection [Disconnected] and the hub drops it from every group; a
    connection that had started ([Connected], or [Reconnecting]) runs its
    [onclose] callback, one that never started or is closed already does
    not. Then [connection] is set to [null]. *)
Definition stopSignalR (w : World) : World :=
  match connection w with
  | None => w
  | Some c =>
      let closed := update c (fun h => mkConn Disconnected (accessToken h) (invocations h) []) w in
      mkWorld None (conns closed)
              (if in_state w c Connected || in_state w c Reconnecting
               then push (console w) "SignalR closed:"
               else console w)
  end.

(** *** Calls that run to their end

    The run of [startSignalR] in which the handshake succeeds and no other
    task is scheduled in between. *)
Definition startSignalR (token : option string) (w : World) : option nat * World :=
  match startSignalR_begin token w with
  | (Returned c, w) => (Some c, w)
  | (AwaitingStart c, w) => startSignalR_resume (start_succeeded c w)
  end.

(** [joinProfile(userId)] / [leaveProfile(userId)] in such a run; when the
    [invoke] is rejected the call rejects and the world stays as
    [startSignalR] left it. *)
Definition invoke_after_start (token : option string) (method : string) (userId : Z)
    (w : World) : World :=
  match startSignalR token w with
  | (Some conn, w) => default w (invoke conn method (pretty userId) w)
  | (None, w) => w
  end.

Definition joinProfile (token : option string) (userId : Z) (w : World) : World :=
  invoke_after_start token "JoinProfile" userId w.

Definition leaveProfile (token : option string) (userId : Z) (w : World) : World :=
  invoke_after_start token "LeaveProfile" userId w.

(** The steps of the manager: calls made by the pages, and transitions of
    the transport of the current connection. *)
Inductive action : Type :=
| CallStartSignalR
| CallJoinProfile (userId : Z)
| CallLeaveProfile (userId : Z)
| TransportLost
| TransportReconnected.

Section Steps.

Variable token : option string.

Definition step (w : World) (a : action) : World :=
  match a with
  | CallStartSignalR => snd (startSignalR token w)
  | CallJoinProfile u => joinProfile token u w
  | CallLeaveProfile u => leaveProfile token u w
  | TransportLost =>
      match connection w with
      | Some c => if in_state w c Connected
                  then on_reconnecting c w else w
      | None => w
      end
  | TransportReconnected =>
      match connection w with
      | Some c => if in_state w c Reconnecting
                  then on_reconnected c w else w
      | None => w
      end
  end.

Definition run (actions : list action) (w : World) : World :=
  fold_left step actions w.

(** A world the manager can be in. *)
Definition reachable (w : World) : Prop :=
  exists actions, run actions initial = w.

End Steps.

(** *** Topics *)

(** The last of the join and leave invocations for [topic] is a join: the
    page has subscribed to [topic] and has not left it. *)
Fixpoint active_after (topic : string) (sent : list (string * string)) (active : bool) : bool :=
  match sent with
  | [] => active
  | (method, arg) :: rest =>
      if String.eqb arg topic then
        if String.eqb method "JoinProfile" then active_after topic rest true
        else if String.eqb method "LeaveProfile" then active_after topic rest false
        else active_after topic rest active
      else active_after topic rest active
  end.

Definition active_topic (topic : string) (h : HubConnection) : bool :=
  active_after topic (invocations h) false.

(** How many times [JoinProfile] was invoked for [topic]. *)
Definition join_count (topic : string) (h : HubConnection) : nat :=
  length (List.filter (fun i => String.eqb (fst i) "JoinProfile" && String.eqb (snd i) topic)
                      (invocations h)).

(** The state the reconnect invariant rules out: the current connection is
    [Connected], [topic] is active, and the hub does not have the
    connection in the group of [topic]. *)
Definition subscription_lost (topic : string) (w : World) : Prop :=
  exists c h,
    connection w = Some c /\ conns w !! c = Some h /\
    state h = Connected /\ active_topic topic h = true /\
    existsb (String.eqb topic) (groups h) = false.

End SignalR.

(** ** The public profile page ([app/u/[id]/page.tsx]) *)

Module Profile.
Import JS Value Arrays.

Inductive Role : Type := User | Admin | SuperAdmin.

Record PublicUser : Type := mkPublicUser {
  pu_id : Z;
  firstName : string;
  lastName : string;
  username : string;
  role : Role;
  pu_createdAt : string
}.

(** The state cells of [PublicUserPage] that the loader and the push
    handlers write. *)
Record State : Type := mkState {
  user : option PublicUser;
  bio : list BioItem.t;
  allAds : list Ad.t;
  err : value;
  loading : bool
}.

Definition initial : State := mkState None [] [] VNull true.

Definition setUser (u : option PublicUser) (s : State) : State :=
  mkState u (bio s) (allAds s) (err s) (loading s).
Definition setBio (f : list BioItem.t -> list BioItem.t) (s : State) : State :=
  mkState (user s) (f (bio s)) (allAds s) (err s) (loading s).
Definition setAllAds (f : list Ad.t -> list Ad.t) (s : State) : State :=
  mkState (user s) (bio s) (f (allAds s)) (err s) (loading s).
Definition setErr (e : value) (s : State) : State :=
  mkState (user s) (bio s) (allAds s) e (loading s).
Definition setLoading (b : bool) (s : State) : State :=
  mkState (user s) (bio s) (allAds s) (err s) b.

(** The comparator of the three [sort] calls on biography items: advanced
    items first, then the newer [createdAt] first. *)
Definition bio_cmp (a b : BioItem.t) : Z :=
  if negb (Bool.eqb (BioItem.isAdvanced a) (BioItem.isAdvanced b))
  then (if BioItem.isAdvanced a then -1 else 1)%Z
  else if String.ltb (BioItem.createdAt a) (BioItem.createdAt b) then 1%Z else (-1)%Z.

(** [(a, b) => (a.createdAt > b.createdAt ? -1 : 1)]; the strings are ISO
    timestamps, compared character by character. *)
Definition newest_first (a b : Ad.t) : Z :=
  if String.ltb (Ad.createdAt b) (Ad.createdAt a) then (-1)%Z else 1%Z.

Definition load_failed : string := "خطا در دریافت اطلاعات کاربر".

(** [x ?? fallback] *)
Definition nullish_else (x fallback : value) : value :=
  match x with
  | VUndefined | VNull => fallback
  | _ => x
  end.

Section Page.

(** [profileId = Number(params.id)], a finite number on every path below. *)
Variable profileId : Z.

(** [highlightAdId = Number(searchParams.get("ad") ?? "0") || null] *)
Variable highlightAdId : option Z.

(** [if (highlightAdId)] *)
Definition highlight_given : bool :=
  match highlightAdId with
  | Some h => negb (h =? 0)%Z
  | None => false
  end.

(** The highlight / sort block of [loadAll]. *)
Definition arrange (onlyThis : list Ad.t) : list Ad.t :=
  if highlight_given then
    let idx := findIndex (fun a => strict_eq (Ad.id a) highlightAdId) onlyThis in
    if (0 <? idx)%Z then splice_unshift (Z.to_nat idx) onlyThis else onlyThis
  else sort newest_first onlyThis.

(** [loadAll] up to its [await]. *)
Definition loadAll_begin (s : State) : State :=
  setLoading true (setErr VNull s).

(** [loadAll] from the moment [Promise.all] settles. A response of
    [/api/ads] without a body makes [adsRes.data.filter] throw after the
    user and the biography were stored; that error has no [response]. *)
Definition loadAll_settle
    (r : response (PublicUser * option (list BioItem.t) * option (list Ad.t)))
    (s : State) : State :=
  match r with
  | Fulfilled (uRes, bioRes, adsRes) =>
      let s := setUser (Some uRes) s in
      let bioList := default [] bioRes in
      let s := setBio (fun _ => sort bio_cmp bioList) s in
      match adsRes with
      | Some ads =>
          let onlyThis := List.filter (fun x => (Ad.userId x =? profileId)%Z) ads in
          setLoading false (setAllAds (fun _ => arrange onlyThis) s)
      | None => setLoading false (setErr (VStr load_failed) s)
      end
  | Rejected e =>
      setLoading false (setErr (nullish_else (ErrorText.response_data e) (VStr load_failed)) s)
  end.

(** *** The push handlers registered by the SignalR effect *)

Definition onBioAdded (p : BioItem.t) (s : State) : State :=
  if negb (BioItem.userId p =? profileId)%Z then s
  else setBio (fun prev => sort bio_cmp (p :: prev)) s.

Definition onBioUpdated (p : BioItem.patch) (s : State) : State :=
  if negb (strict_eq profileId (BioItem.p_userId p)) then s
  else setBio (fun prev =>
         sort bio_cmp
           (map (fun x => if strict_eq (BioItem.id x) (BioItem.p_id p)
                          then BioItem.merge x p else x) prev)) s.

(** The payload of [BioItemDeleted] is [{ userId, id }]. *)
Definition onBioDeleted (p_userId p_id : option Z) (s : State) : State :=
  if negb (strict_eq profileId p_userId) then s
  else setBio (fun prev => List.filter (fun x => negb (strict_eq (BioItem.id x) p_id)) prev) s.

Definition onAdCreated (p : Ad.t) (s : State) : State :=
  if negb (Ad.userId p =? profileId)%Z then s
  else setAllAds (fun prev =>
         if some (fun x => (Ad.id x =? Ad.id p)%Z) prev then prev
         else p :: prev) s.

Definition onAdUpdated (p : Ad.patch) (s : State) : State :=
  if negb (strict_eq profileId (Ad.p_userId p)) then s
  else setAllAds (fun prev =>
         map (fun x => if strict_eq (Ad.id x) (Ad.p_id p) then Ad.merge x p else x) prev) s.

(** The payload of [CarAdDeleted] is [{ userId, adId }]. *)
Definition onAdDeleted (p_userId p_adId : option Z) (s : State) : State :=
  if negb (strict_eq profileId p_userId) then s
  else setAllAds (fun prev => List.filter (fun x => negb (strict_eq (Ad.id x) p_adId)) prev) s.

(** The payload of [AdViewUpdated] is [{ adId, viewCount }]. *)
Definition onAdView (adId viewCount : Z) (s : State) : State :=
  setAllAds (fun prev =>
    map (fun x => if (Ad.id x =? adId)%Z then Ad.with_viewCount x viewCount else x) prev) s.

(** What can happen to the page once it is mounted: a push event reaches
    its handler, or the bulk fetch of [loadAll] settles. *)
Inductive event : Type :=
| BioItemAdded (p : BioItem.t)
| BioItemUpdated (p : BioItem.patch)
| BioItemDeleted (userId id : option Z)
| CarAdCreated (p : Ad.t)
| CarAdUpdated (p : Ad.patch)
| CarAdDeleted (userId adId : option Z)
| AdViewUpdated (adId viewCount : Z)
| LoadSettled (r : response (PublicUser * option (list BioItem.t) * option (list Ad.t))).

Definition handle (s : State) (e : event) : State :=
  match e with
  | BioItemAdded p => onBioAdded p s
  | BioItemUpdated p => onBioUpdated p s
  | BioItemDeleted u i => onBioDeleted u i s
  | CarAdCreated p => onAdCreated p s
  | CarAdUpdated p => onAdUpdated p s
  | CarAdDeleted u a => onAdDeleted u a s
  | AdViewUpdated a v => onAdView a v s
  | LoadSettled r => loadAll_settle r s
  end.

(** The events of a run, in arrival order. *)
Definition run (events : list event) (s : State) : State :=
  fold_left handle events s.

End Page.

End Profile.

(** ** The dashboard ([app/dashboard/page.tsx]) *)

Module Dashboard.
Import JS Value Arrays.

(** The state cells the loader and the push handlers write; [toasts] are
    the messages handed to [toast.success]. *)
Record State : Type := mkState {
  ads : list Ad.t;
  adsLoading : bool;
  err : value;
  flashCounts : gmap Z Z;
  toasts : list string
}.

Definition initial : State := mkState [] true VNull ∅ [].

Definition setAds (f : list Ad.t -> list Ad.t) (s : State) : State :=
  mkState (f (ads s)) (adsLoading s) (err s) (flashCounts s) (toasts s).
Definition setAdsLoading (b : bool) (s : State) : State :=
  mkState (ads s) b (err s) (flashCounts s) (toasts s).
Definition setErr (e : value) (s : State) : State :=
  mkState (ads s) (adsLoading s) e (flashCounts s) (toasts s).
Definition setFlashCounts (f : gmap Z Z -> gmap Z Z) (s : State) : State :=
  mkState (ads s) (adsLoading s) (err s) (f (flashCounts s)) (toasts s).
Definition toast_success (msg : string) (s : State) : State :=
  mkState (ads s) (adsLoading s) (err s) (flashCounts s) (push (toasts s) msg).

(** [{ ...prev, [k]: (prev[k] ?? 0) + 1 }] *)
Definition bump (k : Z) (prev : gmap Z Z) : gmap Z Z :=
  <[k := (default 0 (prev !! k) + 1)%Z]> prev.

(** [conn.on("CarAdCreatedForUser", ...)] *)
Definition onCarAdCreatedForUser (ad : Ad.t) (s : State) : State :=
  toast_success "آگهی جدید ثبت شد ✅" (setAds (fun prev => ad :: prev) s).

(** [conn.on("MyCarAdUpdated", ...)] *)
Definition onMyCarAdUpdated (payload : Ad.patch) (s : State) : State :=
  toast_success "آگهی ویرایش شد ✅"
    (setAds (fun prev =>
       map (fun x => if strict_eq (Ad.id x) (Ad.p_id payload) then Ad.merge x payload else x)
           prev) s).

(** [conn.on("MyCarAdDeleted", ...)], payload [{ adId }]. *)
Definition onMyCarAdDeleted (p_adId : option Z) (s : State) : State :=
  toast_success "آگهی حذف شد ✅"
    (setAds (fun prev => List.filter (fun x => negb (strict_eq (Ad.id x) p_adId)) prev) s).

(** The updater of [conn.on("AdViewUpdated", ...)]: the count is stored and
    the ad moves to the front. The listener of the window event
    [carads_view_updated] runs the same code. *)
Definition view_updated (adId viewCount : Z) (prev : list Ad.t) : list Ad.t :=
  let updated :=
    map (fun x => if (Ad.id x =? adId)%Z then Ad.with_viewCount x viewCount else x) prev in
  let idx := findIndex (fun x => (Ad.id x =? adId)%Z) updated in
  if (0 <? idx)%Z then splice_unshift (Z.to_nat idx) updated else updated.

Definition onAdViewUpdated (adId viewCount : Z) (s : State) : State :=
  setFlashCounts (bump adId) (setAds (view_updated adId viewCount) s).

Definition load_failed : string := "خطا در دریافت آگهی‌های شما".

(** [(a, b) => (a.createdAt < b.createdAt ? 1 : -1)] *)
Definition newest_first (a b : Ad.t) : Z :=
  if String.ltb (Ad.createdAt a) (Ad.createdAt b) then 1%Z else (-1)%Z.

(** [loadAds] up to its [await]. *)
Definition loadAds_begin (s : State) : State :=
  setAdsLoading true (setErr VNull s).

(** [loadAds] once [/api/ads/mine] has settled; [None] is a body that is
    [null] or missing. *)
Definition loadAds_settle (r : response (option (list Ad.t))) (s : State) : State :=
  match r with
  | Fulfilled data =>
      let list := default [] data in
      setAdsLoading false (setAds (fun _ => sort newest_first list) s)
  | Rejected e =>
      setAdsLoading false
        (setErr (Profile.nullish_else (ErrorText.response_data e) (VStr load_failed)) s)
  end.

End Dashboard.

(** ** The home page ([app/page.tsx]) *)

Module Home.
Import JS Value Arrays.

(** The state cells written by the loaders, the Telegram handler and the
    view click; [route] is the last argument of [router.push] and
    [console] the lines logged through [logError] and [logWarn]. *)
Record State : Type := mkState {
  ads : list Ad.t;
  telegramMsgs : list TelegramMsg.t;
  newTelegramIds : gset Z;
  flashCounts : gmap Z Z;
  fetchedUserIds : gset Z;
  route : option string;
  console : list string
}.

Definition initial : State := mkState [] [] ∅ ∅ ∅ None [].

Definition setAds (f : list Ad.t -> list Ad.t) (s : State) : State :=
  mkState (f (ads s)) (telegramMsgs s) (newTelegramIds s) (flashCounts s)
          (fetchedUserIds s) (route s) (console s).
Definition setTelegramMsgs (f : list TelegramMsg.t -> list TelegramMsg.t) (s : State) : State :=
  mkState (ads s) (f (telegramMsgs s)) (newTelegramIds s) (flashCounts s)
          (fetchedUserIds s) (route s) (console s).
Definition setNewTelegramIds (f : gset Z -> gset Z) (s : State) : State :=
  mkState (ads s) (telegramMsgs s) (f (newTelegramIds s)) (flashCounts s)
          (fetchedUserIds s) (route s) (console s).
Definition setFlashCounts (f : gmap Z Z -> gmap Z Z) (s : State) : State :=
  mkState (ads s) (telegramMsgs s) (newTelegramIds s) (f (flashCounts s))
          (fetchedUserIds s) (route s) (console s).
Definition fetchUsers (ids : list Z) (s : State) : State :=
  mkState (ads s) (telegramMsgs s) (newTelegramIds s) (flashCounts s)
          (fetchedUserIds s ∪ list_to_set ids) (route s) (console s).
Definition router_push (url : string) (s : State) : State :=
  mkState (ads s) (telegramMsgs s) (newTelegramIds s) (flashCounts s)
          (fetchedUserIds s) (Some url) (console s).
Definition log (line : string) (s : State) : State :=
  mkState (ads s) (telegramMsgs s) (newTelegramIds s) (flashCounts s)
          (fetchedUserIds s) (route s) (push (console s) line).

(** [loadAds] once [/api/ads] has settled. The function has no [catch]: a
    rejection leaves it before [setAds], and the caller logs it (on mount)
    or drops it ([Promise.allSettled] in [refreshAll]). *)
Definition loadAds_settle (r : response (option (list Ad.t))) (s : State) : State :=
  match r with
  | Fulfilled data =>
      let list := default [] data in
      fetchUsers (map Ad.userId list) (setAds (fun _ => list) s)
  | Rejected e => s
  end.

(** The call on mount: [loadAds().catch((e) => logError(...))]. *)
Definition loadAds_on_mount (r : response (option (list Ad.t))) (s : State) : State :=
  match r with
  | Fulfilled _ => loadAds_settle r s
  | Rejected e => log "Failed to load ads →" (loadAds_settle r s)
  end.

(** [loadTelegramToday] once [/api/telegram/today] has settled. *)
Definition loadTelegramToday_settle (r : response (option (list TelegramMsg.t))) (s : State) : State :=
  match r with
  | Fulfilled data => setTelegramMsgs (fun _ => default [] data) s
  | Rejected e => log "Failed to load telegram messages →" s
  end.

(** [onTelegramMsg], the handler of [TelegramMessageReceived]. The timer
    that takes the id out of [newTelegramIds] three seconds later is
    [telegram_flash_over]. *)
Definition onTelegramMsg (msg : TelegramMsg.t) (s : State) : State :=
  let s := setTelegramMsgs (fun prev =>
             let exists_ := some (fun m => (TelegramMsg.id m =? TelegramMsg.id msg)%Z) prev in
             if exists_ then prev else msg :: prev) s in
  setNewTelegramIds (fun prev => prev ∪ {[TelegramMsg.id msg]}) s.

Definition telegram_flash_over (msg : TelegramMsg.t) (s : State) : State :=
  setNewTelegramIds (fun prev => prev ∖ {[TelegramMsg.id msg]}) s.

(** *** [handleViewClick]

    The handler is cut at its two [await]s: the POST of the view, and the
    700 ms pause before the navigation. *)

(** From the click to [await api.post(...)]. *)
Definition handleViewClick_begin (ad : Ad.t) (s : State) : State :=
  setFlashCounts (Dashboard.bump (Ad.id ad)) s.

(** From the settled POST to the pause. [res.data?.viewCount] is [None]
    when the body or the field is missing. *)
Definition handleViewClick_posted (ad : Ad.t) (r : response (option Z)) (s : State) : State :=
  match r with
  | Fulfilled viewCount =>
      let newCount := default (Ad.viewCount ad + 1)%Z viewCount in
      setAds (fun prev =>
        map (fun x => if (Ad.id x =? Ad.id ad)%Z then Ad.with_viewCount x newCount else x) prev) s
  | Rejected e => log "View API error →" s
  end.

(** After the pause: [router.push(`/u/${ad.userId}?ad=${ad.id}`)]. *)
Definition handleViewClick_navigate (ad : Ad.t) (s : State) : State :=
  router_push ("/u/" ++ pretty (Ad.userId ad) ++ "?ad=" ++ pretty (Ad.id ad)) s.

(** Where a running [handleViewClick] stands. *)
Inductive click_phase : Type :=
| AwaitingPost
| Pausing
| Finished.

Inductive click_event : Type :=
| PostSettled (r : response (option Z))
| PauseOver.

(** One resumption of the handler; an event that does not belong to the
    phase does not occur. *)
Definition click_step (ad : Ad.t) (ph : click_phase) (e : click_event) (s : State)
  : option (click_phase * State) :=
  match ph, e with
  | AwaitingPost, PostSettled r => Some (Pausing, handleViewClick_posted ad r s)
  | Pausing, PauseOver => Some (Finished, handleViewClick_navigate ad s)
  | _, _ => None
  end.

(** The view count the row of [ad] displays. *)
Definition displayed_viewCount (i : Z) (s : State) : option Z :=
  Ad.viewCount <$> List.find (fun x => (Ad.id x =? i)%Z) (ads s).

End Home.

(** ** The biography manager ([components/bio/BioManager.tsx]) *)

Module BioManager.
Import JS Value.

Record BioItem : Type := mkBioItem {
  id : Z;
  userId : Z;
  groupKey : string;
  isAdvanced : bool;
  title : string;
  description : string;
  contactInfo : option string;
  createdAt : option string;
  updatedAt : option string
}.

(** A [toast.error(title, { description })]. *)
Record Toast : Type := mkToast {
  toast_title : string;
  toast_description : value
}.

Record State : Type := mkState {
  items : list BioItem;
  loading : bool;
  toasts : list Toast
}.

Definition initial : State := mkState [] false [].

Definition setItems (l : list BioItem) (s : State) : State :=
  mkState l (loading s) (toasts s).
Definition setLoading (b : bool) (s : State) : State :=
  mkState (items s) b (toasts s).
Definition toast_error (t : Toast) (s : State) : State :=
  mkState (items s) (loading s) (push (toasts s) t).

Section Load.

(** [normalizeBioItem], the field-by-field reading of one raw record; the
    failure path of [load] does not call it. *)
Variable normalizeBioItem : value -> BioItem.

(** [load] up to its [await]. *)
Definition load_begin (s : State) : State := setLoading true s.

(** [load] once [/api/bio/mine] has settled. *)
Definition load_settle (r : response (option (list value))) (s : State) : State :=
  match r with
  | Fulfilled data =>
      let rawList := default [] data in
      setLoading false (setItems (map normalizeBioItem rawList) s)
  | Rejected e =>
      setLoading false
        (toast_error
           (mkToast "خطا در دریافت بیوگرافی"
              (Profile.nullish_else (ErrorText.response_data e) (VStr "لطفاً دوباره تلاش کنید.")))
           (setItems [] s))
  end.

End Load.

End BioManager.

(** ** What reaches the dashboard once it is mounted *)

Module DashboardEvents.
Import Dashboard.

(** The four push events the dashboard registers a handler for, and the
    settling of a [loadAds] (on mount, after a save, after a delete). *)
Inductive event : Type :=
| CarAdCreatedForUser (ad : Ad.t)
| MyCarAdUpdated (payload : Ad.patch)
| MyCarAdDeleted (adId : option Z)
| AdViewUpdated (adId viewCount : Z)
| LoadSettled (r : response (option (list Ad.t))).

Definition handle (s : State) (e : event) : State :=
  match e with
  | CarAdCreatedForUser ad => onCarAdCreatedForUser ad s
  | MyCarAdUpdated payload => onMyCarAdUpdated payload s
  | MyCarAdDeleted adId => onMyCarAdDeleted adId s
  | AdViewUpdated adId viewCount => onAdViewUpdated adId viewCount s
  | LoadSettled r => loadAds_settle r s
  end.

Definition run (events : list event) (s : State) : State := fold_left handle events s.

End DashboardEvents.

(** ** The dashboard's edit form and totals ([app/dashboard/page.tsx]) *)

Module DashboardForm.
Import JS.

(** [CarAdType] and [GearboxType] of [AddAdModal]. *)
Inductive CarAdType : Type := UsedSale | CoopSale | BuyRequest | ZeroSale.
Inductive GearboxType : Type := Automatic | Manual.

(** [AddAdPayload]: a field of type [number | ""] or [GearboxType | ""] is
    an [option], [None] standing for the empty string. *)
Record AddAdPayload : Type := mkPayload {
  type : CarAdType;
  title : string;
  year : option Z;
  color : string;
  mileageKm : option Z;
  insuranceMonths : option Z;
  gearbox : option GearboxType;
  chassisNumber : string;
  contactPhone : string;
  price : option float;
  description : string
}.

Definition typeNumToKey (n : Z) : CarAdType :=
  if (n =? 2)%Z then CoopSale
  else if (n =? 3)%Z then BuyRequest
  else if (n =? 4)%Z then ZeroSale
  else UsedSale.

Definition gearboxNumToKey (n : Z) : option GearboxType :=
  if (n =? 1)%Z then Some Automatic
  else if (n =? 2)%Z then Some Manual
  else None.

Definition typeKeyToNum (k : CarAdType) : Z :=
  match k with
  | UsedSale => 1
  | CoopSale => 2
  | BuyRequest => 3
  | ZeroSale => 4
  end.

(** [map[k] ?? 0] *)
Definition gearboxKeyToNum (k : option GearboxType) : Z :=
  match k with
  | None => 0
  | Some Automatic => 1
  | Some Manual => 2
  end.

(** The request body [handleAddOrUpdate] sends; [insuranceMonths] is
    [null] when the field is empty. *)
Record Body : Type := mkBody {
  b_type : Z;
  b_title : string;
  b_year : Z;
  b_color : string;
  b_mileageKm : Z;
  b_insuranceMonths : option Z;
  b_gearbox : Z;
  b_chassisNumber : string;
  b_contactPhone : string;
  b_price : float;
  b_description : string
}.

(** The [body] of [handleAddOrUpdate]. *)
Definition request_body (payload : AddAdPayload) : Body :=
  mkBody (typeKeyToNum (type payload))
         (title payload)
         (default 0%Z (year payload))
         (color payload)
         (default 0%Z (mileageKm payload))
         (insuranceMonths payload)
         (gearboxKeyToNum (gearbox payload))
         (chassisNumber payload)
         (contactPhone payload)
         (default PrimFloat.zero (price payload))
         (description payload).

(** The value [openEdit] hands to the dialog through [setEditInitial]. *)
Definition openEdit (ad : Ad.t) : AddAdPayload :=
  mkPayload (typeNumToKey (Ad.type ad))
            (Ad.title ad)
            (Some (Ad.year ad))
            (Ad.color ad)
            (Some (Ad.mileageKm ad))
            (Ad.insuranceMonths ad)
            (gearboxNumToKey (Ad.gearbox ad))
            (default "" (Ad.chassisNumber ad))
            (default "" (Ad.contactPhone ad))
            (Some (Ad.price ad))
            (default "" (Ad.description ad)).

(** [totalViews]: [ads.reduce((s, a) => s + (a.viewCount ?? 0), 0)]. *)
Definition totalViews (ads : list Ad.t) : Z :=
  fold_left (fun s a => (s + Ad.viewCount a)%Z) ads 0%Z.

End DashboardForm.

(** ** The rows of the biography manager ([components/bio/BioManager.tsx]) *)

Module BioGroups.
Import JS JSString Arrays BioManager.

(** [clean(v)]: [String(v ?? "").trim()] *)
Definition clean (v : option string) : string := trim (default "" v).

(** [BioGroup] *)
Record BioGroup : Type := mkGroup {
  key : string;
  advanced : option BioItem;
  simple : option BioItem;
  sortTime : Z
}.

Inductive BioMode : Type := ModeAdvanced | ModeSimple.

(** An element of [rows]. *)
Record Row : Type := mkRow {
  row_key : string;
  row_group : BioGroup;
  row_item : BioItem;
  row_mode : BioMode;
  row_sortTime : Z
}.

(** [clean(it.groupKey) || `fallback:${it.id}`] *)
Definition group_key (it : BioItem) : string :=
  let k := clean (Some (groupKey it)) in
  if String.eqb k "" then "fallback:" ++ pretty (id it) else k.

(** [Map.prototype.get] on a [Map] kept as the list of its values in
    insertion order; every value carries its key. *)
Fixpoint Map_get (k : string) (m : list BioGroup) : option BioGroup :=
  match m with
  | [] => None
  | g :: rest => if String.eqb (key g) k then Some g else Map_get k rest
  end.

(** The map after the group stored under [k] was mutated into [g']. *)
Fixpoint Map_mutate (k : string) (g' : BioGroup) (m : list BioGroup) : list BioGroup :=
  match m with
  | [] => []
  | g :: rest => if String.eqb (key g) k then g' :: rest else g :: Map_mutate k g' rest
  end.

Section Dates.

(** [new Date(iso).getTime()]: the milliseconds since the epoch, [None]
    for [NaN], the time of an invalid date. A built-in of the engine. *)
Variable Date_getTime : string -> option Z.

(** [dateVal(iso)]; [!iso] holds for [undefined] and for the empty string. *)
Definition dateVal (iso : option string) : Z :=
  match iso with
  | None => 0
  | Some s => if String.eqb s "" then 0 else default 0%Z (Date_getTime s)
  end.

(** [Math.max(dateVal(it.createdAt), dateVal(it.updatedAt))] *)
Definition item_time (it : BioItem) : Z :=
  Z.max (dateVal (createdAt it)) (dateVal (updatedAt it)).

(** The body of the loop of [groups] below the lookup: the item takes the
    slot of its kind and the group's time rises to the item's. *)
Definition absorb (it : BioItem) (g : BioGroup) : BioGroup :=
  mkGroup (key g)
          (if isAdvanced it then Some it else advanced g)
          (if isAdvanced it then simple g else Some it)
          (Z.max (sortTime g) (item_time it)).

(** One turn of the loop of [groups]. *)
Definition add_item (m : list BioGroup) (it : BioItem) : list BioGroup :=
  let k := group_key it in
  match Map_get k m with
  | Some g => Map_mutate k (absorb it g) m
  | None => push m (absorb it (mkGroup k None None 0))
  end.

(** [(a, b) => b.sortTime - a.sortTime] *)
Definition by_sortTime (a b : BioGroup) : Z := (sortTime b - sortTime a)%Z.

(** The memo [groups]. *)
Definition groups (items : list BioItem) : list BioGroup :=
  sort by_sortTime (fold_left add_item items []).

(** The rows one group contributes to [out], the advanced one first. *)
Definition rows_of_group (g : BioGroup) : list Row :=
  (match advanced g with
   | Some a => [mkRow (key g ++ "-adv-" ++ pretty (id a)) g a ModeAdvanced (item_time a)]
   | None => []
   end ++
   match simple g with
   | Some s => [mkRow (key g ++ "-sim-" ++ pretty (id s)) g s ModeSimple (item_time s)]
   | None => []
   end)%list.

Definition by_row_sortTime (a b : Row) : Z := (row_sortTime b - row_sortTime a)%Z.

(** The memo [rows]. *)
Definition rows (items : list BioItem) : list Row :=
  sort by_row_sortTime (flat_map rows_of_group (groups items)).

End Dates.

End BioGroups.

(** ** Reading raw biography records ([components/bio/BioManager.tsx]) *)

Module BioNormalize.
Import JS JSString Value.

(** [v === b], [v === n] and [v === s] against a literal. *)
Definition is_bool (v : value) (b : bool) : bool :=
  match v with VBool c => Bool.eqb c b | _ => false end.
Definition is_number (v : value) (n : float) : bool :=
  match v with VNum m => (m =? n)%float | _ => false end.
Definition is_string (v : value) (s : string) : bool :=
  match v with VStr t => String.eqb t s | _ => false end.

Section Builtins.

Variable Number_toString : float -> string.

(** [String.prototype.toLowerCase], a built-in of the engine. *)
Variable String_toLowerCase : string -> string.

(** [toBool] *)
Definition toBool (v : value) : completion bool :=
  if is_bool v true then Normal true
  else if is_bool v false then Normal false
  else if is_number v 11 || is_string v "1" then Normal true
  else if is_number v 0 || is_string v "0" then Normal false
  else
    text ← ToString Number_toString (Profile.nullish_else v (VStr ""));
    let s := String_toLowerCase (trim text) in
    Normal (String.eqb s "true" || String.eqb s "yes").

End Builtins.

End BioNormalize.

(** ** The owners of the ads on the home page ([app/page.tsx]) *)

Module HomeUsers.
Import JS.

Record UserInfo : Type := mkUserInfo {
  id : Z;
  username : string;
  firstName : string;
  lastName : string
}.

(** [fetchedUserIds.current], the [GET /api/users/{id}] requests issued so
    far, oldest first, and the [users] state. *)
Record State : Type := mkState {
  fetchedUserIds : gset Z;
  requests : list Z;
  users : gmap Z UserInfo
}.

Definition initial : State := mkState ∅ [] ∅.

(** [fetchUser] up to the request. *)
Definition fetchUser (userId : Z) (s : State) : State :=
  if bool_decide (userId ∈ fetchedUserIds s) then s
  else mkState (fetchedUserIds s ∪ {[userId]}) (push (requests s) userId) (users s).

(** The [then] callback of [fetchUser]. *)
Definition fetchUser_fulfilled (userId : Z) (data : UserInfo) (s : State) : State :=
  mkState (fetchedUserIds s) (requests s) (<[userId := data]> (users s)).

(** The [catch] callback of [fetchUser]. *)
Definition fetchUser_rejected (userId : Z) (s : State) : State :=
  mkState (fetchedUserIds s ∖ {[userId]}) (requests s) (users s).

(** [[...new Set(xs)]]: the elements of [xs], each once, in the order of
    their first occurrence. *)
Fixpoint Set_from (xs : list Z) (seen : list Z) : list Z :=
  match xs with
  | [] => []
  | x :: rest =>
      if existsb (Z.eqb x) seen then Set_from rest seen
      else x :: Set_from rest (x :: seen)
  end.

(** The last statement of [loadAds]:
    [[...new Set(list.map((a) => a.userId))].forEach(fetchUser)]. *)
Definition loadAds_fetchUsers (list : list Ad.t) (s : State) : State :=
  fold_left (fun s u => fetchUser u s) (Set_from (map Ad.userId list) []) s.

Inductive event : Type :=
| AdsLoaded (list : list Ad.t)
| UserFulfilled (userId : Z) (data : UserInfo)
| UserRejected (userId : Z).

Definition handle (s : State) (e : event) : State :=
  match e with
  | AdsLoaded list => loadAds_fetchUsers list s
  | UserFulfilled u data => fetchUser_fulfilled u data s
  | UserRejected u => fetchUser_rejected u s
  end.

Definition run (events : list event) (s : State) : State := fold_left handle events s.

End HomeUsers.

(** ** The SignalR effect of the public profile page ([app/u/[id]/page.tsx]) *)

Module ProfileEffect.

(** Where the [async] function of the effect stands. *)
Inductive phase : Type :=
| AwaitingStart
| AwaitingJoin
| Over.

(** One run of the effect: the flag [alive], whether [unsub] is set,
    whether the seven handlers are registered on the connection, the calls
    of [joinProfile] and [leaveProfile] made, and whether the cleanup has
    run. *)
Record State : Type := mkState {
  at_phase : phase;
  alive : bool;
  unsub : bool;
  registered : bool;
  joins : nat;
  leaves : nat;
  cleaned : bool
}.

(** The effect body up to [await startSignalR()]. *)
Definition mounted : State := mkState AwaitingStart true false false 0 0 false.

Inductive event : Type :=
| StartSettled (ok : bool)
| JoinSettled (ok : bool)
| Cleanup.

(** One resumption of the [async] function, or the cleanup React runs once
    when the page is left or a dependency changes. A rejection ends the
    function in its empty [catch]. *)
Definition step (s : State) (e : event) : State :=
  match e, at_phase s with
  | StartSettled true, AwaitingStart =>
      if alive s
      then mkState AwaitingJoin (alive s) (unsub s) (registered s) (S (joins s)) (leaves s)
                   (cleaned s)
      else mkState Over (alive s) (unsub s) (registered s) (joins s) (leaves s) (cleaned s)
  | StartSettled false, AwaitingStart =>
      mkState Over (alive s) (unsub s) (registered s) (joins s) (leaves s) (cleaned s)
  | JoinSettled true, AwaitingJoin =>
      mkState Over (alive s) true true (joins s) (leaves s) (cleaned s)
  | JoinSettled false, AwaitingJoin =>
      mkState Over (alive s) (unsub s) (registered s) (joins s) (leaves s) (cleaned s)
  | Cleanup, _ =>
      if cleaned s then s
      else mkState (at_phase s) false (unsub s)
                   (if unsub s then false else registered s)
                   (joins s) (S (leaves s)) true
  | _, _ => s
  end.

Definition run (events : list event) (s : State) : State := fold_left step events s.

End ProfileEffect.

(** ** The labels of type and gearbox codes on the three pages *)

Module Labels.
Import JS JSString.

(** [text.replace(/\s/g, "")]: [\s] matches the characters [trim] strips. *)
Fixpoint remove_whitespace (s : string) : string :=
  match s with
  | EmptyString => EmptyString
  | String a rest =>
      if is_ws1 (nat_of_ascii a) then remove_whitespace rest
      else
        match rest with
        | EmptyString => String a (remove_whitespace rest)
        | String b rest2 =>
            if is_ws2 (nat_of_ascii a) (nat_of_ascii b) then remove_whitespace rest2
            else
              match rest2 with
              | EmptyString => String a (remove_whitespace rest)
              | String c rest3 =>
                  if is_ws3 (nat_of_ascii a) (nat_of_ascii b) (nat_of_ascii c)
                  then remove_whitespace rest3
                  else String a (remove_whitespace rest)
              end
        end
  end.

(** [table[k]] on an object literal whose values are strings; [None] is
    [undefined]. The keys looked up below are the texts of numbers, which
    name no inherited property. *)
Fixpoint table_get (k : string) (table : list (string * string)) : option string :=
  match table with
  | [] => None
  | (k', v) :: rest => if String.eqb k' k then Some v else table_get k rest
  end.

(** *** The public profile page *)

Definition TYPE_LABELS : list (string * string) :=
  [("1", "فروش کارکرده"); ("2", "فروش همکاری"); ("3", "درخواست خرید"); ("4", "فروش صفر")].

Definition GEARBOX_LABELS : list (string * string) :=
  [("0", "—"); ("1", "اتومات"); ("2", "دنده‌ای")].

(** [typeLabel] and [gearboxLabel] of the profile page on a number;
    [Number(t)] is the identity on it, and the property key of a number
    is its text. *)
Definition typeLabel_profile (t : Z) : string :=
  default "نامشخص" (table_get (pretty t) TYPE_LABELS).

Definition gearboxLabel_profile (g : Z) : string :=
  default "—" (table_get (pretty g) GEARBOX_LABELS).

(** *** The home page *)

Definition TYPE_NUM : list (string * string) :=
  [("1", "فروش کارکرده"); ("2", "فروش همکاری"); ("3", "درخواست خرید"); ("4", "فروش صفر")].

Definition TYPE_STR : list (string * string) :=
  [("usedsale", "فروش کارکرده"); ("coopsale", "فروش همکاری");
   ("buyrequest", "درخواست خرید"); ("zerosale", "فروش صفر")].

Definition GEAR_NUM : list (string * string) :=
  [("0", "—"); ("1", "اتومات"); ("2", "دنده‌ای")].

Definition GEAR_STR : list (string * string) :=
  [("none", "—"); ("automatic", "اتومات"); ("manual", "دنده‌ای")].

Section Builtins.

(** [String.prototype.toLowerCase], a built-in of the engine. *)
Variable String_toLowerCase : string -> string.

(** [typeLabel] and [gearboxLabel] of the home page on a number. *)
Definition typeLabel_home (t : Z) : string :=
  let s := remove_whitespace (String_toLowerCase (pretty t)) in
  match table_get s TYPE_NUM with
  | Some label => label
  | None => default "نامشخص" (table_get s TYPE_STR)
  end.

Definition gearboxLabel_home (g : Z) : string :=
  let s := remove_whitespace (String_toLowerCase (pretty g)) in
  match table_get s GEAR_NUM with
  | Some label => label
  | None => default "—" (table_get s GEAR_STR)
  end.

End Builtins.

(** *** The dashboard *)

Definition gearboxLabel_dashboard (n : Z) : string :=
  if (n =? 1)%Z then "اتومات"
  else if (n =? 2)%Z then "دنده‌ای"
  else "".

End Labels.

(** ** The combined list of the home page ([app/page.tsx]) *)

Module HomeTimeline.
Import JS JSString Arrays Labels.

(** [ListItem] *)
Inductive ListItem : Type :=
| AdItem (data : Ad.t)
| TelegramItem (data : TelegramMsg.t).

Section Builtins.

Variable String_toLowerCase : string -> string.

(** [new Date(iso).getTime()]; [None] is [NaN], the time of a date that
    cannot be read. *)
Variable Date_getTime : string -> option Z.

(** The predicate of [ads.filter] in [combinedItems]. *)
Definition matches (q : string) (a : Ad.t) : bool :=
  includes (String_toLowerCase (Ad.title a)) q
  || includes (String_toLowerCase (Ad.color a)) q
  || includes (pretty (Ad.year a)) q
  || includes (typeLabel_home String_toLowerCase (Ad.type a)) q
  || includes (Price.priceToText_home (Ad.price a)) q.

Definition filteredAds (search : string) (ads : list Ad.t) : list Ad.t :=
  if negb (String.eqb (trim search) "")
  then List.filter (matches (String_toLowerCase (trim search))) ads
  else ads.

Definition getTime (item : ListItem) : option Z :=
  match item with
  | AdItem data => Date_getTime (Ad.createdAt data)
  | TelegramItem data => Date_getTime (TelegramMsg.receivedAt data)
  end.

(** [(a, b) => getTime(b) - getTime(a)]; a [NaN] result counts as 0 in
    [sort]. When a date cannot be read the comparator is no longer an
    order and the engine's arrangement is its own. *)
Definition by_time (a b : ListItem) : Z :=
  match getTime b, getTime a with
  | Some tb, Some ta => (tb - ta)%Z
  | _, _ => 0%Z
  end.

(** The memo [combinedItems]. *)
Definition combinedItems (search : string) (ads : list Ad.t) (telegramMsgs : list TelegramMsg.t)
  : list ListItem :=
  let adItems := map AdItem (filteredAds search ads) in
  let tgItems := map TelegramItem telegramMsgs in
  sort by_time (adItems ++ tgItems)%list.

End Builtins.

End HomeTimeline.

(** ** The date menus of the dashboard ([app/dashboard/page.tsx]) *)

Module DashboardDates.
Import JS Arrays.

(** [s.split(sep)] for a separator of one ASCII character. *)
Fixpoint split (sep : ascii) (s : string) : list string :=
  match s with
  | EmptyString => [EmptyString]
  | String c rest =>
      match split sep rest with
      | [] => [String c EmptyString]
      | part :: parts =>
          if Ascii.eqb c sep then EmptyString :: part :: parts
          else String c part :: parts
      end
  end.

(** A string that is there and not empty: what [if (x)] tests. *)
Definition given (x : option string) : bool :=
  match x with
  | Some s => negb (String.eqb s "")
  | None => false
  end.

(** [x !== sel] between a part that may be missing and a string. *)
Definition differs (x : option string) (sel : string) : bool :=
  match x with
  | Some s => negb (String.eqb s sel)
  | None => true
  end.

(** *** [Map] and [Set] with string keys, in insertion order *)

Section Maps.

Context {V : Type}.

Fixpoint Map_get (k : string) (m : list (string * V)) : option V :=
  match m with
  | [] => None
  | (k', v) :: rest => if String.eqb k' k then Some v else Map_get k rest
  end.

Definition Map_has (k : string) (m : list (string * V)) : bool :=
  match Map_get k m with Some _ => true | None => false end.

(** The map after the value stored under [k] was mutated by [f]. *)
Fixpoint Map_mutate (k : string) (f : V -> V) (m : list (string * V)) : list (string * V) :=
  match m with
  | [] => []
  | (k', v) :: rest =>
      if String.eqb k' k then (k', f v) :: rest else (k', v) :: Map_mutate k f rest
  end.

(** [if (!m.has(k)) m.set(k, init)] *)
Definition Map_ensure (k : string) (init : V) (m : list (string * V)) : list (string * V) :=
  if Map_has k m then m else push m (k, init).

Definition Map_keys (m : list (string * V)) : list string := map fst m.

End Maps.

(** [set.add(x)] *)
Definition Set_add (x : string) (set : list string) : list string :=
  if existsb (String.eqb x) set then set else push set x.

Definition Days : Type := list string.
Definition Months : Type := list (string * Days).
Definition Years : Type := list (string * Months).

(** [(a, b) => (a < b ? 1 : -1)] *)
Definition greatest_first (a b : string) : Z := if String.ltb a b then 1%Z else (-1)%Z.

Section Calendar.

(** [toJalaliDay], the Jalali date of a timestamp as dayjs formats it. *)
Variable toJalaliDay : string -> string.

(** [const [y, m, da] = toJalaliDay(ad.createdAt).split("/")] *)
Definition day_parts (ad : Ad.t) : option string * option string * option string :=
  let parts := split "/" (toJalaliDay (Ad.createdAt ad)) in
  (parts !! 0%nat, parts !! 1%nat, parts !! 2%nat).

(** One turn of the loop of [dateIndex]. *)
Definition index_ad (map : Years) (ad : Ad.t) : Years :=
  let '(y, m, da) := day_parts ad in
  if negb (given y) || negb (given m) || negb (given da) then map
  else
    let y := default "" y in
    let m := default "" m in
    let da := default "" da in
    let map := Map_ensure y [] map in
    Map_mutate y (fun mm => Map_mutate m (Set_add da) (Map_ensure m [] mm)) map.

(** [dateIndex.map] *)
Definition dateIndex_map (ads : list Ad.t) : Years := fold_left index_ad ads [].

(** [dateIndex.years], the values of [yearOptions]. *)
Definition years (ads : list Ad.t) : list string :=
  sort greatest_first (Map_keys (dateIndex_map ads)).

(** The values of [monthOptions]. *)
Definition monthOptions (ads : list Ad.t) (selYear : string) : list string :=
  if String.eqb selYear "" then []
  else match Map_get selYear (dateIndex_map ads) with
       | None => []
       | Some mm => sort greatest_first (Map_keys mm)
       end.

(** The values of [dayOptions]. *)
Definition dayOptions (ads : list Ad.t) (selYear selMonth : string) : list string :=
  if String.eqb selYear "" || String.eqb selMonth "" then []
  else match Map_get selYear (dateIndex_map ads) ≫= Map_get selMonth with
       | None => []
       | Some set => sort greatest_first set
       end.

(** [filteredAds] *)
Definition filteredAds (ads : list Ad.t) (selYear selMonth selDay : string) : list Ad.t :=
  if String.eqb selYear "" && String.eqb selMonth "" && String.eqb selDay "" then ads
  else
    List.filter
      (fun ad =>
         let '(y, m, da) := day_parts ad in
         if negb (String.eqb selYear "") && differs y selYear then false
         else if negb (String.eqb selMonth "") && differs m selMonth then false
         else if negb (String.eqb selDay "") && differs da selDay then false
         else true)
      ads.

End Calendar.

End DashboardDates.

(** ** Facts about the built-ins *)

Module JSFacts.
Import JS.

Lemma float_pos_not_le v : (0 <? v)%float = true -> (v <=? 0)%float = false.
Proof.
  rewrite ltb_spec, leb_spec.
  change (Prim2SF 0) with (S754_zero false).
  destruct (Prim2SF v) as [s| s | |s m e]; try destruct s;
    unfold SFltb, SFleb, SFcompare; congruence.
Qed.

Lemma float_pos_not_lt v : (0 <? v)%float = true -> (v <? 0)%float = false.
Proof.
  rewrite !ltb_spec.
  change (Prim2SF 0) with (S754_zero false).
  destruct (Prim2SF v) as [s| s | |s m e]; try destruct s;
    unfold SFltb, SFleb, SFcompare; congruence.
Qed.

Lemma float_pos_abs v : (0 <? v)%float = true -> Math_abs v = v.
Proof.
  intros H. apply Prim2SF_inj. unfold Math_abs. rewrite abs_spec.
  rewrite ltb_spec in H. change (Prim2SF 0) with (S754_zero false) in H.
  destruct (Prim2SF v) as [s| s | |s m e]; try destruct s;
    unfold SFltb, SFcompare, SFabs in *; congruence.
Qed.

Lemma append_assoc (a b c : string) : (a ++ b) ++ c = a ++ (b ++ c).
Proof. induction a as [|x a IH]; simpl; [reflexivity | now rewrite IH]. Qed.

Lemma has_byte_app c a b : has_byte c (a ++ b) = has_byte c a || has_byte c b.
Proof.
  induction a as [|x a IH]; simpl; [reflexivity|].
  rewrite IH. now rewrite orb_assoc.
Qed.

Lemma prefix_has_byte c sub : forall s,
  String.prefix sub s = true -> has_byte c sub = true -> has_byte c s = true.
Proof.
  induction sub as [|x sub IH]; intros s Hp Hc; simpl in *; [discriminate|].
  destruct s as [|y s]; simpl in Hp; [discriminate|].
  destruct (ascii_dec x y) as [->|]; [|discriminate].
  simpl. destruct (Ascii.eqb y c); simpl in *; [reflexivity|].
  now apply IH.
Qed.

Lemma includes_has_byte c sub s :
  includes s sub = true -> has_byte c sub = true -> has_byte c s = true.
Proof.
  induction s as [|y s IH]; simpl; intros Hi Hc.
  - rewrite orb_false_r in Hi. destruct sub; simpl in *; congruence.
  - apply orb_true_iff in Hi as [Hp|Hi].
    + apply (prefix_has_byte c sub (String y s) Hp Hc).
    + rewrite (IH Hi Hc). apply orb_true_r.
Qed.

Lemma includes_app_r a b sub : includes b sub = true -> includes (a ++ b) sub = true.
Proof.
  intros H. induction a as [|x a IH]; simpl; [exact H|].
  rewrite IH. apply orb_true_r.
Qed.

(** The number a list of decimal digits, least significant first, writes. *)
Fixpoint digits_value (ds : list Z) : Z :=
  match ds with
  | [] => 0%Z
  | d :: rest => (d + 10 * digits_value rest)%Z
  end.

(** With enough fuel the digits are those of [n]. *)
Lemma decimal_digits_value fuel : forall n,
  (0 <= n < 10 ^ Z.of_nat fuel)%Z -> digits_value (decimal_digits fuel n) = n.
Proof.
  induction fuel as [|f IH]; intros n Hn.
  - simpl in *. lia.
  - cbn [decimal_digits]. destruct (Z.ltb_spec n 10); simpl; [lia|].
    rewrite IH.
    + pose proof (Z.div_mod n 10). lia.
    + rewrite Nat2Z.inj_succ, Z.pow_succ_r in Hn by lia.
      split; [apply Z.div_pos; lia|]. apply Z.div_lt_upper_bound; lia.
Qed.

(** The fuel [fa_integer] gives is enough. *)
Lemma fa_integer_fuel n : (0 <= n)%Z -> (n < 10 ^ Z.of_nat (S (Z.to_nat (Z.log2 n))))%Z.
Proof.
  intros Hn. destruct (Z.eq_dec n 0) as [->|Hne]; [reflexivity|].
  assert (Hpos : (0 < n)%Z) by lia.
  pose proof (Z.log2_nonneg n) as Hl.
  destruct (Z.log2_spec n Hpos) as [_ Hup].
  rewrite Nat2Z.inj_succ, Z2Nat.id by lia.
  eapply Z.lt_le_trans; [exact Hup|].
  apply Z.pow_le_mono_l. lia.
Qed.

Lemma fa_integer_digits n :
  (0 <= n)%Z -> digits_value (decimal_digits (S (Z.to_nat (Z.log2 n))) n) = n.
Proof. intros Hn. apply decimal_digits_value. split; [exact Hn | now apply fa_integer_fuel]. Qed.

Lemma decimal_digits_lt10 fuel : forall n, Forall (fun d => (d < 10)%Z) (decimal_digits fuel n).
Proof.
  induction fuel as [|f IH]; intros n; simpl; [constructor|].
  destruct (Z.ltb_spec n 10).
  - repeat constructor. assumption.
  - constructor; [|apply IH]. apply Z.mod_pos_bound. lia.
Qed.

Lemma fa_digit_no_byte170 d : (d < 10)%Z -> has_byte (ascii_of_nat 170) (fa_digit d) = false.
Proof.
  intros H. unfold fa_digit.
  assert (Hn : (Z.to_nat d < 10)%nat) by lia.
  revert Hn. generalize (Z.to_nat d). intros n Hn.
  do 10 (destruct n as [|n]; [reflexivity|]). lia.
Qed.

Lemma fa_group_no_byte170 ds : forall i acc,
  Forall (fun d => (d < 10)%Z) ds ->
  has_byte (ascii_of_nat 170) acc = false ->
  has_byte (ascii_of_nat 170) (fa_group ds i acc) = false.
Proof.
  induction ds as [|d ds IH]; intros i acc Hds Hacc; cbn [fa_group]; [exact Hacc|].
  inversion Hds as [|? ? Hd Hds']; subst.
  apply IH; [assumption|].
  rewrite !has_byte_app, (fa_digit_no_byte170 d Hd), Hacc.
  destruct ((0 <? i)%nat && (i mod 3 =? 0)%nat); reflexivity.
Qed.

(** A localized integer never holds the byte 0xAA, the second byte of the
    letter teh with which the word toman starts. *)
Lemma toLocaleString_fa_no_byte170 x :
  has_byte (ascii_of_nat 170) (toLocaleString_fa x) = false.
Proof.
  unfold toLocaleString_fa, fa_integer.
  apply fa_group_no_byte170; [apply decimal_digits_lt10 | reflexivity].
Qed.

Lemma no_byte170_not_toman s :
  has_byte (ascii_of_nat 170) s = false -> includes s "تومان" = false.
Proof.
  intros H. destruct (includes s "تومان") eqn:E; [|reflexivity].
  rewrite (includes_has_byte (ascii_of_nat 170) _ _ E) in H; [discriminate|reflexivity].
Qed.

End JSFacts.

(** ** [errorToText] flattens every error shape *)

Module ErrorTextFacts.
Import JS Value ErrorText.

Section WithNumberToString.

Variable Number_toString : float -> string.

#[local] Abbreviation errorToText := (errorToText Number_toString).
#[local] Abbreviation errorToText_try := (errorToText_try Number_toString).
#[local] Abbreviation Array_join := (Array_join Number_toString).
#[local] Abbreviation join_elements := (join_elements Number_toString).
#[local] Abbreviation error_parts := (error_parts Number_toString).
#[local] Abbreviation error_part := (error_part Number_toString).


Lemma join_elements_strings (ss : list string) :
  join_elements (map VStr ss) = Normal ss.
Proof.
  induction ss as [|s ss IH]; simpl; [reflexivity|].
  rewrite IH. reflexivity.
Qed.

Lemma Array_join_strings sep (ss : list string) :
  Array_join sep (map VStr ss) = Normal (join sep ss).
Proof. unfold Value.Array_join. rewrite join_elements_strings. reflexivity. Qed.


Lemma filter_truthy_strings (ss : list string) :
  List.filter truthy (map VStr ss) = map VStr (List.filter nonempty ss).
Proof.
  induction ss as [|s ss IH]; simpl; [reflexivity|].
  unfold nonempty at 1. destruct (negb (String.eqb s "")); simpl; now rewrite IH.
Qed.

Lemma lookup_problem_errors (errs : list (string * list string)) k msgs :
  NoDup (map fst errs) -> In (k, msgs) errs ->
  lookup_prop k (map (fun e => (fst e, VArr (map VStr (snd e)))) errs) = VArr (map VStr msgs).
Proof.
  induction errs as [|[k' m'] errs IH]; simpl; intros Hnd Hin; [contradiction|].
  inversion Hnd as [|? ? Hk' Hnd']; subst.
  destruct Hin as [Heq|Hin].
  - injection Heq as -> ->. now rewrite String.eqb_refl.
  - destruct (String.eqb_spec k' k) as [->|_]; [|now apply IH].
    exfalso. apply Hk'. apply in_map_iff. now exists (k, msgs).
Qed.

Lemma error_part_problem (all : list (string * list string)) k msgs :
  NoDup (map fst all) -> In (k, msgs) all ->
  error_part (problem_errors all) k = Normal (field_line (k, msgs)).
Proof.
  intros Hnd Hin. unfold ErrorText.error_part, problem_errors, Value.get.
  rewrite (lookup_problem_errors all k msgs Hnd Hin).
  rewrite Array_join_strings. reflexivity.
Qed.

Lemma error_parts_problem (all errs : list (string * list string)) :
  NoDup (map fst all) -> (forall e, In e errs -> In e all) ->
  error_parts (problem_errors all) (map fst errs) = Normal (map field_line errs).
Proof.
  intros Hnd. induction errs as [|[k msgs] errs IH]; intros Hsub; simpl; [reflexivity|].
  rewrite (error_part_problem all k msgs Hnd) by (apply Hsub; now left). simpl.
  rewrite IH by (intros e He; apply Hsub; now right). reflexivity.
Qed.

#[local] Arguments problem_errors : simpl never.

Lemma lookup_prop_absent k props : has_own k props = false -> lookup_prop k props = VUndefined.
Proof.
  induction props as [|[k' v] props IH]; simpl; [reflexivity|].
  destruct (String.eqb k' k); simpl; [discriminate | exact IH].
Qed.

(** [v] shows as the text [t]: it is that string, or it is [undefined]
    and [t] is empty. *)
Definition shows (v : value) (t : string) : Prop :=
  v = VStr t \/ (v = VUndefined /\ t = "").

Lemma filter_truthy_shows tv dv t d e :
  shows tv t -> shows dv d ->
  List.filter truthy [tv; dv; VStr e] = map VStr (List.filter nonempty [t; d; e]).
Proof.
  intros [->|[-> ->]] [->|[-> ->]]; try exact (filter_truthy_strings [t; d; e]).
  - exact (filter_truthy_strings [t; ""; e]).
  - exact (filter_truthy_strings [""; d; e]).
  - exact (filter_truthy_strings [""; ""; e]).
Qed.

(** The branch of an object body that has an [errors] object, whatever
    else the body carries. *)
Lemma errorToText_members err props t d errs :
  thrown_response_data err = VObj props ->
  NoDup (map fst errs) ->
  shows (or_else (lookup_prop "title" props) (lookup_prop "Title" props)) t ->
  shows (or_else (lookup_prop "detail" props) (lookup_prop "Detail" props)) d ->
  or_else (lookup_prop "errors" props) (lookup_prop "Errors" props) = problem_errors errs ->
  errorToText err =
    Some (join newline (List.filter nonempty [t; d; join newline (map field_line errs)])).
Proof.
  intros Hdata Hnd Ht Hd He. unfold ErrorText.errorToText, ErrorText.errorToText_try.
  rewrite Hdata. cbn [truthy typeof get andb].
  change (String.eqb "object" "object") with true. cbv iota.
  rewrite He.
  change (truthy (problem_errors errs) && String.eqb (typeof (problem_errors errs)) "object")
    with true. cbv iota.
  replace (Object_keys (problem_errors errs)) with (map fst errs)
    by (unfold problem_errors; simpl; rewrite map_map; reflexivity).
  rewrite (error_parts_problem errs errs Hnd) by auto. simpl.
  match goal with
  | |- context [Value.Array_join _ newline ?l] =>
      change l with (List.filter truthy
                       [or_else (lookup_prop "title" props) (lookup_prop "Title" props);
                        or_else (lookup_prop "detail" props) (lookup_prop "Detail" props);
                        VStr (join newline (map field_line errs))])
  end.
  rewrite (filter_truthy_shows _ _ t d _ Ht Hd).
  rewrite Array_join_strings. reflexivity.
Qed.


Lemma shows_second_member props k k' t :
  has_own k props = false -> text_member props k' t ->
  shows (or_else (lookup_prop k props) (lookup_prop k' props)) (default "" t).
Proof.
  intros Hk Hk'. rewrite (lookup_prop_absent k props Hk).
  change (or_else VUndefined (lookup_prop k' props)) with (lookup_prop k' props).
  destruct t as [s|]; simpl in *.
  - left. exact Hk'.
  - right. split; [now apply lookup_prop_absent | reflexivity].
Qed.

Lemma JSON_stringify_object props :
  exists s, JSON_stringify Number_toString (VObj props) = Some s.
Proof. simpl. eauto. Qed.





End WithNumberToString.



(** A body that is a bare string, and one that is a list of strings. *)
Example errorToText_string_and_array :
  ErrorText.errorToText integral_toString (axios_error (VStr "Username is taken"))
  = Some "Username is taken" /\
  ErrorText.errorToText integral_toString
    (axios_error (VArr [VStr "Password too short"; VStr "Password needs a digit"]))
  = Some ("Password too short" ++ newline ++ "Password needs a digit").
Proof. split; reflexivity. Qed.

(** An own [toString] property that is not a function makes the conversion
    throw; the [catch] answers with the fixed message. *)
Example errorToText_absorbs_TypeError :
  ErrorText.errorToText integral_toString (Plain (VObj [("toString", VStr "x")]))
  = Some unknown_error.
Proof. reflexivity. Qed.

End ErrorTextFacts.
(** ** The connection manager: reconnects and concurrent starts *)

Module SignalRFacts.
Import JS SignalR.

Lemma map_alter_same {A B : Type} (g : A -> B) (f : A -> A) (l : list A) :
  (forall x, g (f x) = g x) -> forall c, map g (alter f c l) = map g l.
Proof.
  intros Hg. induction l as [|x l IH]; intros [|c]; simpl; try reflexivity.
  - now rewrite Hg.
  - f_equal. apply IH.
Qed.

Lemma lookup_push_new {A : Type} (l : list A) (x : A) : push l x !! length l = Some x.
Proof. unfold push. induction l as [|y l IH]; simpl; [reflexivity | exact IH]. Qed.

Lemma alter_push_new {A : Type} (f : A -> A) (l : list A) (x : A) :
  alter f (length l) (push l x) = push l (f x).
Proof.
  unfold push. induction l as [|y l IH]; simpl; [reflexivity|].
  f_equal. exact IH.
Qed.

(** The invocations sent so far, connection by connection. *)
Definition sent (w : World) : list (list (string * string)) :=
  map invocations (conns w).

Lemma on_reconnected_sent c w : sent (on_reconnected c w) = sent w.
Proof. unfold sent, on_reconnected, update. simpl. now apply map_alter_same. Qed.

Lemma on_reconnecting_sent c w : sent (on_reconnecting c w) = sent w.
Proof. unfold sent, on_reconnecting, update. simpl. now apply map_alter_same. Qed.

Lemma on_reconnected_groups c w :
  groups <$> conns (on_reconnected c w) !! c = (fun _ => []) <$> conns w !! c.
Proof.
  unfold on_reconnected, update. simpl.
  rewrite list_lookup_alter_eq. now destruct (conns w !! c).
Qed.

Definition token : option string := Some "jwt".

(** The profile page of user 7 connects and joins, then the transport
    drops and comes back. *)
Definition reconnect_trace : list action :=
  [CallStartSignalR; CallJoinProfile 7; TransportLost; TransportReconnected].

(** C1, the claim as stated fails: after [startSignalR], [joinProfile(7)]
    and one transport reconnect the manager is connected, topic 7 is still
    active, the hub no longer has the connection in its group, and
    [JoinProfile] was invoked once, not twice. *)
Lemma reconnect_loses_subscription :
  reachable token (run token reconnect_trace initial) /\
  subscription_lost "7" (run token reconnect_trace initial) /\
  (join_count "7" <$> conns (run token reconnect_trace initial) !! 0%nat) = Some 1%nat.
Proof.
  split; [now exists reconnect_trace|]. split; [|reflexivity].
  exists 0%nat, (mkConn Connected "jwt" [("JoinProfile", "7")] []).
  repeat split; reflexivity.
Qed.

(** C1, amended: a transport-level reconnect re-issues nothing. The
    [onreconnecting] and [onreconnected] transitions leave the invocations
    sent over every connection as they were (they only log), and after
    [onreconnected] the connection belongs to no hub group; this holds for
    the two transport steps of any run. A topic joined before the
    reconnect is joined again only by a later call of [joinProfile]. *)
Theorem reconnect_reissues_no_join (tok : option string) (w : World) (c : nat) :
  sent (on_reconnecting c w) = sent w /\
  sent (on_reconnected c w) = sent w /\
  groups <$> conns (on_reconnected c w) !! c = (fun _ => []) <$> conns w !! c /\
  sent (step tok w TransportLost) = sent w /\
  sent (step tok w TransportReconnected) = sent w.
Proof.
  split; [apply on_reconnecting_sent|]. split; [apply on_reconnected_sent|].
  split; [apply on_reconnected_groups|]. split; simpl.
  - destruct (connection w) as [c'|]; [|reflexivity].
    destruct (in_state w c' Connected); [apply on_reconnecting_sent | reflexivity].
  - destruct (connection w) as [c'|]; [|reflexivity].
    destruct (in_state w c' Reconnecting); [apply on_reconnected_sent | reflexivity].
Qed.

(** After the reconnect of [reconnect_trace], a second [joinProfile(7)]
    is what puts the connection back into the group. *)
Example rejoin_after_reconnect :
  groups <$> conns (run token (reconnect_trace ++ [CallJoinProfile 7]) initial) !! 0%nat
  = Some ["7"].
Proof. reflexivity. Qed.

(** The world after the first segment of a first call: connection 0 is
    built and its handshake is in flight. *)
Definition first_call_in_flight : World := snd (startSignalR_begin token initial).

(** C5, the claim as stated fails: a second call made while the first
    attempt is still [Connecting] does not wait for it. It builds a second
    [HubConnection], starts it and stores it in [connection]; when the
    first handshake completes, the first caller is handed the second
    connection, which is still [Connecting]. *)
Lemma second_start_builds_second_connection :
  in_state first_call_in_flight 0 Connecting = true /\
  fst (startSignalR_begin token first_call_in_flight) = AwaitingStart 1 /\
  length (conns (snd (startSignalR_begin token first_call_in_flight))) = 2%nat /\
  fst (startSignalR_resume
         (start_succeeded 0 (snd (startSignalR_begin token first_call_in_flight)))) = Some 1%nat /\
  in_state (start_succeeded 0 (snd (startSignalR_begin token first_call_in_flight)))
           1 Connecting = true.
Proof. repeat split; reflexivity. Qed.

(** C5, amended: [startSignalR] returns the existing connection, and
    changes nothing, exactly when [connection] is set and in state
    [Connected]. In every other case, with [connection] unset or in any
    other state, [Connecting] included, it builds a new [HubConnection] in
    state [Connecting], stores it in [connection] and suspends on its
    [start()]; the connections built before stay as they are. *)
Theorem startSignalR_reuses_connected_only (tok : option string) (w : World) :
  (forall c, connection w = Some c -> in_state w c Connected = true ->
     startSignalR_begin tok w = (Returned c, w)) /\
  ((forall c, connection w = Some c -> in_state w c Connected = false) ->
     fst (startSignalR_begin tok w) = AwaitingStart (length (conns w)) /\
     connection (snd (startSignalR_begin tok w)) = Some (length (conns w)) /\
     conns (snd (startSignalR_begin tok w))
       = push (conns w) (mkConn Connecting (default "" tok) [] [])).
Proof.
  split.
  - intros c Hc Hst. unfold startSignalR_begin. now rewrite Hc, Hst.
  - intros Hnot. unfold startSignalR_begin.
    assert (Hnone : match connection w with
                    | Some c => if in_state w c Connected then Some c else None
                    | None => None
                    end = None).
    { destruct (connection w) as [c|] eqn:Hc; [|reflexivity]. now rewrite (Hnot c eq_refl). }
    rewrite Hnone. simpl. split; [reflexivity|]. split; [reflexivity|].
    exact (alter_push_new (set_state Connecting) (conns w)
             (mkConn Disconnected (default "" tok) [] [])).
Qed.

(** Once a first call has run to its end, a second call returns
    connection 0 and leaves the world as it is. *)
Lemma startSignalR_reuses_connected_witness :
  connection (snd (startSignalR token initial)) = Some 0%nat /\
  in_state (snd (startSignalR token initial)) 0 Connected = true /\
  startSignalR_begin token (snd (startSignalR token initial))
    = (Returned 0, snd (startSignalR token initial)).
Proof.
  split; [reflexivity|]. split; [reflexivity|].
  exact (proj1 (startSignalR_reuses_connected_only token (snd (startSignalR token initial)))
           0%nat eq_refl eq_refl).
Defined.

End SignalRFacts.

(** ** The two price formatters compared *)

Module PriceFacts.
Import JS JSFacts Price.

(** What [priceToText] does with the three amounts. *)
Definition render_price (p : float * float * float) : string :=
  let '(billion, million, thousand) := p in
  let parts : list string := [] in
  let parts := if (0 <? billion)%float then push parts (toLocaleString_fa billion ++ " میلیارد") else parts in
  let parts := if (0 <? million)%float then push parts (toLocaleString_fa million ++ " میلیون") else parts in
  let parts := if (0 <? thousand)%float then push parts (toLocaleString_fa thousand ++ " هزار") else parts in
  if (length parts =? 0)%nat then "—" else join " و " parts ++ " تومان".

Lemma priceToText_render v :
  Number_isFinite v = true -> (0 <? v)%float = true ->
  priceToText v = render_price (price_parts v).
Proof.
  intros Hfin Hpos. unfold priceToText, render_price, price_parts.
  rewrite Hfin, (float_pos_not_le v Hpos). reflexivity.
Qed.

Lemma priceToText_home_eq v : priceToText_home v = priceToText v.
Proof.
  unfold priceToText_home, priceToText.
  destruct (negb (Number_isFinite v) || (v <=? 0)%float); [reflexivity|].
  cbv zeta.
  destruct (0 <? Math_floor (v / 1000))%float,
           (0 <? Math_floor (v - Math_floor (v / 1000) * 1000))%float,
           (0 <? Math_round ((v - Math_floor (v / 1000) * 1000
                    - Math_floor (v - Math_floor (v / 1000) * 1000)) * 1000))%float;
    reflexivity.
Qed.

(** What [formatFromMillionInput] does with the three amounts of a positive
    input when neither of its two carries applies. *)
Definition render_format (p : float * float * float) : string :=
  let '(billionAdj, millionAdj, thousand) := p in
  let parts : list string := [] in
  let parts :=
    if (0 <? billionAdj)%float
    then push parts (toLocaleString_fa billionAdj ++ " میلیارد") else parts in
  let parts :=
    if (0 <? millionAdj)%float
    then push parts (toLocaleString_fa millionAdj ++ " میلیون") else parts in
  let parts :=
    if (0 <? thousand)%float
    then push parts (toLocaleString_fa thousand ++ " هزار تومان") else parts in
  if (length parts =? 0)%nat then "۰ تومان"
  else
    let last := List.last parts "" in
    let hasToman := includes last "تومان" in
    let joined := join " و " parts in
    if hasToman then joined else joined ++ " تومان".

Lemma formatFromMillionInput_render v b m t :
  Number_isFinite v = true -> (0 <? v)%float = true ->
  price_parts v = (b, m, t) ->
  (1000 <=? t)%float = false -> (1000 <=? m)%float = false ->
  formatFromMillionInput v = render_format (b, m, t).
Proof.
  intros Hfin Hpos Hparts Ht Hm.
  unfold price_parts in Hparts. injection Hparts as <- <- <-.
  unfold formatFromMillionInput.
  rewrite Hfin, (float_pos_not_lt v Hpos), (float_pos_abs v Hpos).
  cbv zeta. rewrite Ht, Hm. reflexivity.
Qed.

Lemma billion_part_no_toman x : includes (toLocaleString_fa x ++ " میلیارد") "تومان" = false.
Proof.
  apply no_byte170_not_toman.
  rewrite has_byte_app, toLocaleString_fa_no_byte170. reflexivity.
Qed.

Lemma million_part_no_toman x : includes (toLocaleString_fa x ++ " میلیون") "تومان" = false.
Proof.
  apply no_byte170_not_toman.
  rewrite has_byte_app, toLocaleString_fa_no_byte170. reflexivity.
Qed.

Lemma thousand_part_toman x : includes (toLocaleString_fa x ++ " هزار تومان") "تومان" = true.
Proof. apply includes_app_r. reflexivity. Qed.

Lemma thousand_toman_split (a : string) : (a ++ " هزار") ++ " تومان" = a ++ " هزار تومان".
Proof. rewrite append_assoc. reflexivity. Qed.

Lemma join_last_append sep (l : list string) a z :
  join sep (push l a) ++ z = join sep (push l (a ++ z)).
Proof.
  unfold join, push. induction l as [|x l IH]; [reflexivity|].
  destruct l as [|y l].
  - simpl. now rewrite !append_assoc.
  - change (String.concat sep ((x :: y :: l) ++ [a])%list)
      with (x ++ sep ++ String.concat sep ((y :: l) ++ [a])%list).
    change (String.concat sep ((x :: y :: l) ++ [(a ++ z)%string])%list)
      with (x ++ sep ++ String.concat sep ((y :: l) ++ [(a ++ z)%string])%list).
    rewrite <- IH. now rewrite !append_assoc.
Qed.

(** With at least one positive amount the two renderings are the same text. *)
Lemma render_agree b m t :
  ((0 <? b) || (0 <? m) || (0 <? t))%float = true ->
  render_price (b, m, t) = render_format (b, m, t).
Proof.
  unfold render_price, render_format.
  destruct (0 <? b)%float, (0 <? m)%float, (0 <? t)%float;
    cbn [orb]; intros H; try discriminate H;
    cbn [push app length Nat.eqb List.last];
    rewrite ?thousand_part_toman, ?million_part_no_toman, ?billion_part_no_toman;
    try reflexivity;
    rewrite <- thousand_toman_split.
  - apply (join_last_append _ [_; _]).
  - apply (join_last_append _ [_]).
  - apply (join_last_append _ [_]).
  - apply (join_last_append _ []).
Qed.

Lemma render_all_zero b m t :
  ((0 <? b) || (0 <? m) || (0 <? t))%float = false ->
  render_price (b, m, t) = "—" /\ render_format (b, m, t) = "۰ تومان".
Proof.
  unfold render_price, render_format.
  destruct (0 <? b)%float, (0 <? m)%float, (0 <? t)%float; simpl; intros H;
    try discriminate H. split; reflexivity.
Qed.

(** C10, the claim as stated fails: on 0.9996 million the thousand part
    rounds to 1000; [formatFromMillionInput] carries it into the million
    place, [priceToText] prints it as one thousand thousands. *)
Lemma price_formatters_differ_on_carry :
  priceToText 0.9996 = "۱٬۰۰۰ هزار تومان" /\
  priceToText_home 0.9996 = "۱٬۰۰۰ هزار تومان" /\
  formatFromMillionInput 0.9996 = "۱ میلیون تومان" /\
  priceToText 0.9996 <> formatFromMillionInput 0.9996.
Proof.
  assert (H1 : priceToText 0.9996 = "۱٬۰۰۰ هزار تومان") by (vm_compute; reflexivity).
  assert (H2 : formatFromMillionInput 0.9996 = "۱ میلیون تومان") by (vm_compute; reflexivity).
  split; [exact H1|]. split; [rewrite priceToText_home_eq; exact H1|].
  split; [exact H2|]. rewrite H1, H2. discriminate.
Qed.

(** C10, amended: on every positive finite price [v] (in millions) for which
    no carry is due, that is whose rounded thousand part and whose million
    part are both below 1000, the home page and the profile page formatter
    are the same function, and [priceToText] and [formatFromMillionInput]
    print the same billion / million / thousand text as soon as one of the
    three parts is positive; when all three are zero the first prints a dash
    and the second prints zero toman. *)
Theorem price_formatters_agree_without_carry (v b m t : float) :
  Number_isFinite v = true -> (0 <? v)%float = true ->
  price_parts v = (b, m, t) ->
  (1000 <=? t)%float = false -> (1000 <=? m)%float = false ->
  priceToText_home v = priceToText v /\
  if ((0 <? b) || (0 <? m) || (0 <? t))%float
  then priceToText v = formatFromMillionInput v
  else priceToText v = "—" /\ formatFromMillionInput v = "۰ تومان".
Proof.
  intros Hfin Hpos Hparts Ht Hm. split; [apply priceToText_home_eq|].
  rewrite (priceToText_render v Hfin Hpos), Hparts.
  rewrite (formatFromMillionInput_render v b m t Hfin Hpos Hparts Ht Hm).
  destruct ((0 <? b) || (0 <? m) || (0 <? t))%float eqn:E.
  - now apply render_agree.
  - now apply render_all_zero.
Qed.

(** 2500.75 million: both print 2 billion and 500 million and 750 thousand
    toman. *)
Lemma price_formatters_agree_witness :
  Number_isFinite 2500.75 = true /\ (0 <? 2500.75)%float = true /\
  price_parts 2500.75 = (2, 500, 750)%float /\
  priceToText 2500.75 = formatFromMillionInput 2500.75.
Proof.
  split; [vm_compute; reflexivity|]. split; [vm_compute; reflexivity|].
  split; [vm_compute; reflexivity|].
  exact (proj2 (price_formatters_agree_without_carry 2500.75 2 500 750
                  eq_refl eq_refl eq_refl eq_refl eq_refl)).
Defined.

End PriceFacts.

(** ** Facts about arrays, string order and [sort] *)

Module ArrayFacts.
Import JS Arrays.

(** *** The order of timestamps *)

Lemma compare_as_OT (a : string) : forall b, String.compare a b = String_as_OT.compare a b.
Proof.
  induction a as [|x a IH]; intros [|y b]; reflexivity.
Qed.

Lemma ltb_lt (a b : string) : String.ltb a b = true <-> String_as_OT.lt a b.
Proof.
  unfold String.ltb, String_as_OT.lt. rewrite compare_as_OT.
  destruct (String_as_OT.compare a b); split; congruence.
Qed.

Lemma ltb_irrefl (a : string) : String.ltb a a = false.
Proof.
  destruct (String.ltb a a) eqn:E; [|reflexivity].
  apply ltb_lt in E. now apply (StrictOrder_Irreflexive a) in E.
Qed.

Lemma ltb_trans (a b c : string) :
  String.ltb a b = true -> String.ltb b c = true -> String.ltb a c = true.
Proof. rewrite !ltb_lt. apply (StrictOrder_Transitive a b c). Qed.

Lemma ltb_asym (a b : string) : String.ltb a b = true -> String.ltb b a = false.
Proof.
  intros H. destruct (String.ltb b a) eqn:E; [|reflexivity].
  pose proof (ltb_trans a b a H E) as Haa. now rewrite ltb_irrefl in Haa.
Qed.

Lemma ltb_total (a b : string) : String.ltb a b = false -> String.ltb b a = false -> a = b.
Proof.
  intros Hab Hba.
  destruct (String_as_OT.compare_spec a b) as [Heq|Hlt|Hgt]; [exact Heq| |].
  - apply ltb_lt in Hlt. congruence.
  - apply ltb_lt in Hgt. congruence.
Qed.

(** [a >= b] and [b >= c] give [a >= c]. *)
Lemma not_ltb_trans (a b c : string) :
  String.ltb a b = false -> String.ltb b c = false -> String.ltb a c = false.
Proof.
  intros Hab Hbc. destruct (String.ltb a c) eqn:Hac; [|reflexivity].
  destruct (String.ltb b a) eqn:Hba.
  - now rewrite (ltb_trans b a c Hba Hac) in Hbc.
  - rewrite (ltb_total a b Hab Hba) in Hac. congruence.
Qed.

(** *** [sort] *)

Lemma sort_insert_Permutation {A : Type} (cmp : A -> A -> Z) (x : A) (l : list A) :
  Permutation (sort_insert cmp x l) (x :: l).
Proof.
  induction l as [|y l IH]; simpl; [reflexivity|].
  destruct (cmp x y <? 0)%Z; [reflexivity|].
  rewrite IH. apply perm_swap.
Qed.

Lemma sort_fold_Permutation {A : Type} (cmp : A -> A -> Z) (l : list A) : forall acc,
  Permutation (fold_left (fun sorted x => sort_insert cmp x sorted) l acc) (l ++ acc)%list.
Proof.
  induction l as [|x l IH]; intros acc; simpl; [reflexivity|].
  rewrite IH, sort_insert_Permutation. symmetry. apply Permutation_middle.
Qed.

Lemma sort_Permutation {A : Type} (cmp : A -> A -> Z) (l : list A) :
  Permutation (sort cmp l) l.
Proof. unfold sort. rewrite sort_fold_Permutation. now rewrite app_nil_r. Qed.

(** *** [findIndex], [find], [splice] and [unshift] *)

Lemma findIndex_from_middle {A : Type} (f : A -> bool) (before : list A) x after :
  Forall (fun y => f y = false) before -> f x = true ->
  forall i, findIndex_from f (before ++ x :: after)%list i = (i + Z.of_nat (length before))%Z.
Proof.
  intros Hb Hx. induction Hb as [|y before Hy Hb IH]; intros i; simpl.
  - rewrite Hx. lia.
  - rewrite Hy, IH. lia.
Qed.

Lemma splice_unshift_middle {A : Type} (before : list A) x after :
  splice_unshift (length before) (before ++ x :: after)%list = (x :: before ++ after)%list.
Proof.
  unfold splice_unshift. rewrite list_lookup_middle by reflexivity.
  now rewrite delete_middle.
Qed.

(** [findIndex] and [find] point at the same element. *)
Lemma findIndex_from_find {A : Type} (f : A -> bool) (l : list A) : forall i,
  match List.find f l with
  | Some x => exists n, findIndex_from f l i = (i + Z.of_nat n)%Z /\ l !! n = Some x /\ f x = true
  | None => findIndex_from f l i = (-1)%Z
  end.
Proof.
  induction l as [|y l IH]; intros i; simpl; [reflexivity|].
  destruct (f y) eqn:Hy.
  - exists 0%nat. split; [lia|]. split; [reflexivity | exact Hy].
  - specialize (IH (i + 1)%Z). destruct (List.find f l) as [x|]; [|exact IH].
    destruct IH as (n & Hn & Hl & Hx). exists (S n).
    split; [lia|]. split; [exact Hl | exact Hx].
Qed.

(** Moving the first element that satisfies [f] to the front does not
    change which element [find f] returns. *)
Lemma find_move_first {A : Type} (f : A -> bool) (l : list A) :
  List.find f (if (0 <? findIndex f l)%Z
               then splice_unshift (Z.to_nat (findIndex f l)) l else l)
  = List.find f l.
Proof.
  destruct (0 <? findIndex f l)%Z eqn:Hidx; [|reflexivity].
  unfold findIndex in *. pose proof (findIndex_from_find f l 0) as H.
  destruct (List.find f l) as [x|].
  - destruct H as (n & Hn & Hl & Hx). rewrite Hn.
    replace (Z.to_nat (0 + Z.of_nat n)) with n by lia.
    unfold splice_unshift. rewrite Hl. simpl. now rewrite Hx.
  - rewrite H in Hidx. discriminate.
Qed.

End ArrayFacts.

(** ** The public profile page: snapshot, order and highlight *)

Module ProfileFacts.
Import JS Value Arrays ArrayFacts Profile.

(** [a] is at least as new as [b]. *)
Definition newer_or_same (a b : Ad.t) : Prop :=
  String.ltb (Ad.createdAt a) (Ad.createdAt b) = false.

Lemma sort_insert_newest_first x l :
  StronglySorted newer_or_same l ->
  StronglySorted newer_or_same (sort_insert newest_first x l).
Proof.
  induction l as [|y l IH]; intros Hs; simpl.
  - repeat constructor.
  - inversion Hs as [|? ? Hl Hy]; subst. unfold newest_first at 1.
    destruct (String.ltb (Ad.createdAt y) (Ad.createdAt x)) eqn:Hyx; simpl.
    + constructor; [exact Hs|]. constructor.
      * now apply ltb_asym.
      * eapply Forall_impl; [|exact Hy]. intros z Hz.
        apply (not_ltb_trans _ (Ad.createdAt y)); [now apply ltb_asym | exact Hz].
    + constructor; [now apply IH|].
      rewrite (sort_insert_Permutation newest_first x l). now constructor.
Qed.

Lemma sort_newest_first l : StronglySorted newer_or_same (sort newest_first l).
Proof.
  unfold sort. assert (H : StronglySorted newer_or_same []) by constructor.
  revert H. generalize (@nil Ad.t). induction l as [|x l IH]; intros acc Hacc; simpl.
  - exact Hacc.
  - apply IH. now apply sort_insert_newest_first.
Qed.

(** The ads of a profile in the response of [/api/ads]. *)
Definition only_this (profileId : Z) (ads : list Ad.t) : list Ad.t :=
  List.filter (fun x => (Ad.userId x =? profileId)%Z) ads.

Lemma loadAll_allAds profileId h u b ads s :
  allAds (loadAll_settle profileId h (Fulfilled (u, b, Some ads)) s)
  = arrange h (only_this profileId ads).
Proof. reflexivity. Qed.

Lemma loadAll_bio profileId h u b ads s :
  bio (loadAll_settle profileId h (Fulfilled (u, b, Some ads)) s)
  = sort bio_cmp (default [] b).
Proof. reflexivity. Qed.

Lemma arrange_highlight h before x after :
  h <> 0%Z -> Ad.id x = h -> Forall (fun y => Ad.id y <> h) before ->
  arrange (Some h) (before ++ x :: after)%list = (x :: before ++ after)%list.
Proof.
  intros Hh Hx Hb. unfold arrange, highlight_given.
  destruct (Z.eqb_spec h 0) as [|_]; [contradiction|]. simpl.
  unfold findIndex. rewrite findIndex_from_middle.
  - destruct before as [|y before]; [reflexivity|].
    replace (0 <? 0 + Z.of_nat (length (y :: before)))%Z with true
      by (symmetry; apply Z.ltb_lt; simpl; lia).
    replace (Z.to_nat (0 + Z.of_nat (length (y :: before)))) with (length (y :: before)) by lia.
    apply splice_unshift_middle.
  - eapply Forall_impl; [|exact Hb]. intros y Hy. now apply Z.eqb_neq.
  - simpl. now apply Z.eqb_eq.
Qed.

Lemma findIndex_from_absent {A : Type} (f : A -> bool) (l : list A) :
  Forall (fun y => f y = false) l -> forall i, findIndex_from f l i = (-1)%Z.
Proof.
  induction 1 as [|y l Hy Hl IH]; intros i; simpl; [reflexivity|].
  rewrite Hy. apply IH.
Qed.

Lemma arrange_absent h l :
  h <> 0%Z -> Forall (fun y => Ad.id y <> h) l -> arrange (Some h) l = l.
Proof.
  intros Hh Hl. unfold arrange, highlight_given.
  destruct (Z.eqb_spec h 0) as [|_]; [contradiction|]. simpl.
  unfold findIndex. rewrite findIndex_from_absent; [reflexivity|].
  eapply Forall_impl; [|exact Hl]. intros y Hy. now apply Z.eqb_neq.
Qed.

Lemma arrange_sorts h l :
  h = None \/ h = Some 0%Z -> arrange h l = sort newest_first l.
Proof. intros [->| ->]; reflexivity. Qed.

(** C7: what [loadAll] installs as the ads of the profile. With no
    highlight id (none given, or 0) it is a rearrangement of the profile's
    ads of the response in which every ad is at least as new ([createdAt])
    as all the ads after it. With a highlight id nothing is sorted: when
    one of the profile's ads carries the id, the first such ad stands first
    and all the others follow in the order of the response, whatever that
    order is; when none carries it, the list is the profile's ads in the
    order of the response. *)
Theorem loadAll_display_order
    (profileId : Z) (highlightAdId : option Z)
    (u : PublicUser) (b : option (list BioItem.t)) (ads : list Ad.t) (s : State) :
  let mine := only_this profileId ads in
  let shown := allAds (loadAll_settle profileId highlightAdId (Fulfilled (u, b, Some ads)) s) in
  (highlightAdId = None \/ highlightAdId = Some 0%Z ->
     Permutation shown mine /\ StronglySorted newer_or_same shown) /\
  (forall h, highlightAdId = Some h -> h <> 0%Z ->
     (forall before x after,
        mine = (before ++ x :: after)%list ->
        Ad.id x = h -> Forall (fun y => Ad.id y <> h) before ->
        shown = (x :: before ++ after)%list) /\
     (Forall (fun y => Ad.id y <> h) mine -> shown = mine)).
Proof.
  cbv zeta. rewrite loadAll_allAds. split.
  - intros Hno. rewrite (arrange_sorts _ _ Hno). split.
    + apply sort_Permutation.
    + apply sort_newest_first.
  - intros h -> Hh. split.
    + intros before x after Hmine Hx Hb. rewrite Hmine. now apply arrange_highlight.
    + now apply arrange_absent.
Qed.

(** Four ads of user 7, newest first. *)
Definition sample_ad (i : Z) (created : string) (views : Z) : Ad.t :=
  Ad.mk i 7 1 "Peugeot 206" 1401 "white" 85000 450 2 created views None None None None.

Definition adA : Ad.t := sample_ad 1 "2024-01-04T10:00:00Z" 5.
Definition adB : Ad.t := sample_ad 2 "2024-01-03T10:00:00Z" 0.
Definition adC : Ad.t := sample_ad 3 "2024-01-02T10:00:00Z" 0.
Definition adD : Ad.t := sample_ad 4 "2024-01-01T10:00:00Z" 0.

Definition owner : PublicUser :=
  mkPublicUser 7 "Ali" "Rezaei" "ali" User "2023-05-01T08:00:00Z".

(** The list shown for a response of [/api/ads]. *)
Definition shown_for (highlightAdId : option Z) (ads : list Ad.t) : list Ad.t :=
  allAds (loadAll_settle 7 highlightAdId (Fulfilled (owner, None, Some ads)) initial).

(** Without a highlight the shuffled response comes out sorted; highlighting
    B in the recency-ordered [A; B; C; D] gives [B; A; C; D]; an id no ad
    carries leaves the response as it came. *)
Lemma loadAll_display_order_witness :
  (Permutation (shown_for None [adC; adA; adD; adB]) [adC; adA; adD; adB] /\
   StronglySorted newer_or_same (shown_for None [adC; adA; adD; adB])) /\
  shown_for (Some 2%Z) [adA; adB; adC; adD] = [adB; adA; adC; adD] /\
  shown_for (Some 9%Z) [adD; adA] = [adD; adA].
Proof.
  split; [|split].
  - apply (proj1 (loadAll_display_order 7 None owner None [adC; adA; adD; adB] initial)).
    left. reflexivity.
  - apply (proj1 (proj2 (loadAll_display_order 7 (Some 2%Z) owner None [adA; adB; adC; adD]
                           initial) 2%Z eq_refl ltac:(lia))
             [adA] adB [adC; adD]).
    + reflexivity.
    + reflexivity.
    + repeat constructor. simpl. lia.
  - apply (proj2 (proj2 (loadAll_display_order 7 (Some 9%Z) owner None [adD; adA] initial)
                    9%Z eq_refl ltac:(lia))).
    repeat constructor; simpl; lia.
Defined.

(** Without a highlight the response order does not matter. *)
Example loadAll_sorts_newest_first :
  shown_for None [adC; adA; adD; adB] = [adA; adB; adC; adD].
Proof. reflexivity. Qed.

(** The highlight branch does not sort. The response lists D, the oldest
    ad, first: without a highlight the page shows the recency order
    [A; B; C; D]; with B highlighted it does not show that order with B
    moved to the front, but [B; D; A; C], where D stands before the newer
    A and C. *)
Lemma highlight_skips_the_sort :
  shown_for None [adD; adA; adB; adC] = [adA; adB; adC; adD] /\
  shown_for (Some 2%Z) [adD; adA; adB; adC] = [adB; adD; adA; adC] /\
  shown_for (Some 2%Z) [adD; adA; adB; adC] <> [adB; adA; adC; adD] /\
  ~ StronglySorted newer_or_same (tl (shown_for (Some 2%Z) [adD; adA; adB; adC])).
Proof.
  split; [reflexivity|]. split; [reflexivity|]. split; [discriminate|].
  intros H. inversion H as [|? ? _ Hall]; subst.
  inversion Hall as [|? ? Hda _]; subst. discriminate Hda.
Qed.

(** *** Events that arrive before the snapshot *)

(** Two states hold the same collections. *)
Definition same_collections (s1 s2 : State) : Prop :=
  allAds s1 = allAds s2 /\ bio s1 = bio s2.

Lemma handle_same_collections profileId h e s1 s2 :
  same_collections s1 s2 ->
  same_collections (handle profileId h s1 e) (handle profileId h s2 e).
Proof.
  intros [Ha Hb]. unfold same_collections.
  destruct e as [p|p|pu pi|p|p|pu pa|a v|r]; simpl;
    unfold onBioAdded, onBioUpdated, onBioDeleted, onAdCreated, onAdUpdated,
           onAdDeleted, onAdView, loadAll_settle;
    repeat match goal with
           | |- context [if ?c then _ else _] => destruct c
           | |- context [match ?r with Fulfilled _ => _ | Rejected _ => _ end] => destruct r
           | |- context [let '(_, _) := ?x in _] => destruct x
           | |- context [match ?o with Some _ => _ | None => _ end] => destruct o
           end;
    simpl; rewrite ?Ha, ?Hb; auto.
Qed.

Lemma run_same_collections profileId h events : forall s1 s2,
  same_collections s1 s2 ->
  same_collections (run profileId h events s1) (run profileId h events s2).
Proof.
  induction events as [|e events IH]; intros s1 s2 H; simpl; [exact H|].
  apply IH. now apply handle_same_collections.
Qed.

Lemma snapshot_same_collections profileId h u b ads s1 s2 :
  same_collections (loadAll_settle profileId h (Fulfilled (u, b, Some ads)) s1)
                   (loadAll_settle profileId h (Fulfilled (u, b, Some ads)) s2).
Proof. split; reflexivity. Qed.

(** C2, the claim as stated fails: the page has no buffer. With the
    handlers registered and the fetch in flight, the create of C reaches
    the still empty collection; when the snapshot [A; B] is installed it
    replaces the collection, and C is gone. *)
Lemma event_before_snapshot_is_lost :
  allAds (run 7 None [CarAdCreated adC] initial) = [adC] /\
  allAds (run 7 None [CarAdCreated adC;
                      LoadSettled (Fulfilled (owner, None, Some [adA; adB]))] initial)
  = [adA; adB].
Proof. split; reflexivity. Qed.

(** C2, amended: installing the snapshot replaces the ad and the
    biography collection wholesale. Whatever events [before] were handled
    before [loadAll] resolved, the collections right after it are the
    arranged ads of the profile and the sorted biography of the response,
    and after any further events [after] they are what the same events give
    on the snapshot alone: an event received during the initial fetch
    leaves no trace, an event received afterwards is applied on top of the
    snapshot, in arrival order. *)
Theorem snapshot_replaces_collections
    (profileId : Z) (highlightAdId : option Z) (before after : list event)
    (u : PublicUser) (b : option (list BioItem.t)) (ads : list Ad.t) (s s' : State) :
  let snapshot := LoadSettled (Fulfilled (u, b, Some ads)) in
  allAds (run profileId highlightAdId (before ++ [snapshot]) s)
    = arrange highlightAdId (only_this profileId ads) /\
  bio (run profileId highlightAdId (before ++ [snapshot]) s)
    = sort bio_cmp (default [] b) /\
  same_collections (run profileId highlightAdId (before ++ snapshot :: after) s)
                   (run profileId highlightAdId (snapshot :: after) s').
Proof.
  cbv zeta. unfold run. rewrite !fold_left_app. simpl.
  split; [reflexivity|]. split; [reflexivity|].
  apply run_same_collections, snapshot_same_collections.
Qed.

(** An event that arrives after the snapshot is kept. *)
Example event_after_snapshot_is_kept :
  allAds (run 7 None [LoadSettled (Fulfilled (owner, None, Some [adA; adB]));
                      CarAdCreated adC] initial)
  = [adC; adA; adB].
Proof. reflexivity. Qed.

End ProfileFacts.

(** ** Counters, creates, failed refreshes and the view click *)

Module SyncFacts.
Import JS Value Arrays ArrayFacts.
Import ProfileFacts.

(** The view count stored for the ad [i]: that of the first entry with
    this id. *)
Definition stored_viewCount (i : Z) (ads : list Ad.t) : option Z :=
  Ad.viewCount <$> List.find (fun x => (Ad.id x =? i)%Z) ads.

(** How many entries of a collection carry the id [i]. *)
Definition entries_with_id (i : Z) (ads : list Ad.t) : nat :=
  length (List.filter (fun x => (Ad.id x =? i)%Z) ads).

(** *** Counter updates *)

Lemma stored_viewCount_set i v (l : list Ad.t) :
  stored_viewCount i
    (map (fun x => if (Ad.id x =? i)%Z then Ad.with_viewCount x v else x) l)
  = (fun _ => v) <$> stored_viewCount i l.
Proof.
  unfold stored_viewCount. induction l as [|x l IH]; simpl; [reflexivity|].
  destruct (Ad.id x =? i)%Z eqn:Hx; simpl; rewrite Hx; [reflexivity | exact IH].
Qed.

Lemma onAdView_stored i v s :
  stored_viewCount i (Profile.allAds (Profile.onAdView i v s))
  = (fun _ => v) <$> stored_viewCount i (Profile.allAds s).
Proof. apply stored_viewCount_set. Qed.

Lemma view_updated_stored i v (l : list Ad.t) :
  stored_viewCount i (Dashboard.view_updated i v l)
  = (fun _ => v) <$> stored_viewCount i l.
Proof.
  unfold Dashboard.view_updated. cbv zeta.
  rewrite <- stored_viewCount_set. unfold stored_viewCount. f_equal.
  apply (find_move_first (fun x => (Ad.id x =? i)%Z)).
Qed.

Lemma onAdViewUpdated_stored i v s :
  stored_viewCount i (Dashboard.ads (Dashboard.onAdViewUpdated i v s))
  = (fun _ => v) <$> stored_viewCount i (Dashboard.ads s).
Proof. apply view_updated_stored. Qed.

Lemma const_fmap_twice {A : Type} (v v' : Z) (o : option A) :
  (fun _ => v) <$> ((fun _ => v') <$> o) = (fun _ => v) <$> o.
Proof. now destruct o. Qed.

(** A run of counter updates for one ad ends with the last value. *)
Lemma counter_updates_last {S : Type} (cell : S -> list Ad.t) (upd : Z -> Z -> S -> S) i :
  (forall v s, stored_viewCount i (cell (upd i v s)) = (fun _ => v) <$> stored_viewCount i (cell s)) ->
  forall vs v s,
    stored_viewCount i (cell (fold_left (fun s v => upd i v s) (vs ++ [v]) s))
    = (fun _ => v) <$> stored_viewCount i (cell s).
Proof.
  intros Hupd vs. induction vs as [|v' vs IH]; intros v s; simpl.
  - apply Hupd.
  - rewrite IH, Hupd. apply (const_fmap_twice (A := Z)).
Qed.

(** C3, the claim as stated fails: the handlers store whatever value
    arrives. A stale 3 delivered after the stored 5 overwrites it, on the
    profile page and on the dashboard, where the maximum would stay 5. *)
Lemma stale_counter_overwrites :
  stored_viewCount 1 (Profile.allAds (Profile.setAllAds (fun _ => [adA]) Profile.initial)) = Some 5%Z /\
  stored_viewCount 1
    (Profile.allAds (Profile.onAdView 1 3 (Profile.setAllAds (fun _ => [adA]) Profile.initial)))
  = Some 3%Z /\
  stored_viewCount 1
    (Dashboard.ads (Dashboard.onAdViewUpdated 1 3 (Dashboard.setAds (fun _ => [adA]) Dashboard.initial)))
  = Some 3%Z /\
  Z.max 5 3 = 5%Z.
Proof. repeat split; reflexivity. Qed.

(** C3, amended: counter updates are last-write-wins. Both
    [AdViewUpdated] handlers store every incoming value unconditionally, so
    after the updates [v1, ..., vn, v] for an ad the stored [viewCount] of
    that ad is [v], the value delivered last, whatever the earlier values
    and the initial one were; an ad that is not in the collection stays
    absent. *)
Theorem counter_update_last_write_wins (i : Z) (vs : list Z) (v : Z)
    (sp : Profile.State) (sd : Dashboard.State) :
  stored_viewCount i
    (Profile.allAds (fold_left (fun s v => Profile.onAdView i v s) (vs ++ [v]) sp))
  = (fun _ => v) <$> stored_viewCount i (Profile.allAds sp) /\
  stored_viewCount i
    (Dashboard.ads (fold_left (fun s v => Dashboard.onAdViewUpdated i v s) (vs ++ [v]) sd))
  = (fun _ => v) <$> stored_viewCount i (Dashboard.ads sd).
Proof.
  split.
  - apply (counter_updates_last Profile.allAds (fun i v s => Profile.onAdView i v s)).
    intros. apply onAdView_stored.
  - apply (counter_updates_last Dashboard.ads (fun i v s => Dashboard.onAdViewUpdated i v s)).
    intros. apply onAdViewUpdated_stored.
Qed.

(** *** Create events delivered twice *)

Lemma onAdCreated_twice profileId p s :
  Profile.onAdCreated profileId p (Profile.onAdCreated profileId p s)
  = Profile.onAdCreated profileId p s.
Proof.
  unfold Profile.onAdCreated.
  destruct (negb (Ad.userId p =? profileId)%Z); [reflexivity|].
  unfold Profile.setAllAds. simpl. f_equal.
  destruct (some (fun x => (Ad.id x =? Ad.id p)%Z) (Profile.allAds s)) eqn:E.
  - now rewrite E.
  - unfold some. simpl. now rewrite Z.eqb_refl.
Qed.

Lemma onAdCreated_one_entry profileId p s :
  Ad.userId p = profileId ->
  (entries_with_id (Ad.id p) (Profile.allAds s) <= 1)%nat ->
  entries_with_id (Ad.id p) (Profile.allAds (Profile.onAdCreated profileId p s)) = 1%nat.
Proof.
  intros Hu Hle. unfold Profile.onAdCreated. rewrite Hu, Z.eqb_refl. simpl.
  destruct (some (fun x => (Ad.id x =? Ad.id p)%Z) (Profile.allAds s)) eqn:E.
  - unfold some in E. apply existsb_exists in E as (x & Hin & Hx).
    unfold entries_with_id in *.
    assert (Hin' : In x (List.filter (fun x => (Ad.id x =? Ad.id p)%Z) (Profile.allAds s)))
      by now apply filter_In.
    destruct (List.filter _ (Profile.allAds s)) as [|y l]; [contradiction|].
    simpl in *. lia.
  - unfold entries_with_id. simpl. rewrite Z.eqb_refl. simpl. f_equal.
    apply length_zero_iff_nil.
    destruct (List.filter _ (Profile.allAds s)) as [|y l] eqn:F; [reflexivity|].
    assert (Hy : In y (List.filter (fun x => (Ad.id x =? Ad.id p)%Z) (Profile.allAds s)))
      by (rewrite F; now left).
    apply filter_In in Hy as [Hin Hy].
    assert (some (fun x => (Ad.id x =? Ad.id p)%Z) (Profile.allAds s) = true)
      by (apply existsb_exists; eauto).
    congruence.
Qed.

Lemma onTelegramMsg_twice msg s :
  Home.onTelegramMsg msg (Home.onTelegramMsg msg s) = Home.onTelegramMsg msg s.
Proof.
  unfold Home.onTelegramMsg, Home.setNewTelegramIds, Home.setTelegramMsgs. simpl.
  f_equal.
  - destruct (some (fun m => (TelegramMsg.id m =? TelegramMsg.id msg)%Z) (Home.telegramMsgs s)) eqn:E.
    + now rewrite E.
    + unfold some. simpl. now rewrite Z.eqb_refl.
  - rewrite <- (assoc_L (∪)). f_equal. apply (idemp_L (∪)).
Qed.

(** C4, what the three create handlers do with a second delivery of the
    same item: on the public profile page and on the home page the second
    application changes nothing, and an ad of the profile that was absent
    is present exactly once; on the dashboard every delivery prepends, so
    two deliveries leave two entries with the same id. *)
Theorem create_delivered_twice (profileId : Z) (p : Ad.t) (msg : TelegramMsg.t)
    (sp : Profile.State) (sh : Home.State) (sd : Dashboard.State) :
  Profile.onAdCreated profileId p (Profile.onAdCreated profileId p sp)
    = Profile.onAdCreated profileId p sp /\
  Home.onTelegramMsg msg (Home.onTelegramMsg msg sh) = Home.onTelegramMsg msg sh /\
  Dashboard.ads (Dashboard.onCarAdCreatedForUser p (Dashboard.onCarAdCreatedForUser p sd))
    = p :: p :: Dashboard.ads sd /\
  entries_with_id (Ad.id p)
    (Dashboard.ads (Dashboard.onCarAdCreatedForUser p (Dashboard.onCarAdCreatedForUser p sd)))
    = S (S (entries_with_id (Ad.id p) (Dashboard.ads sd))).
Proof.
  split; [apply onAdCreated_twice|]. split; [apply onTelegramMsg_twice|].
  split; [reflexivity|].
  unfold entries_with_id. simpl. now rewrite Z.eqb_refl.
Qed.

(** On an empty dashboard, [CarAdCreatedForUser] delivered twice for ad A
    shows A twice. *)
Example dashboard_duplicate_row :
  Dashboard.ads (Dashboard.onCarAdCreatedForUser adA
                   (Dashboard.onCarAdCreatedForUser adA Dashboard.initial))
  = [adA; adA].
Proof. reflexivity. Qed.

(** *** Failed refreshes *)

Definition network_error : value := VObj [("message", VStr "Network Error")].

Definition bioA : BioManager.BioItem :=
  BioManager.mkBioItem 11 7 "g1" false "" "Showroom on Azadi street" None
    (Some "2024-01-01T10:00:00Z") None.

(** C6, the claim as stated fails for the biography manager: a rejected
    [/api/bio/mine] empties the item list that was loaded before. *)
Lemma failed_bio_refresh_clears_items :
  BioManager.items (BioManager.setItems [bioA] BioManager.initial) = [bioA] /\
  (forall normalize,
     BioManager.items
       (BioManager.load_settle normalize (Rejected network_error)
          (BioManager.load_begin (BioManager.setItems [bioA] BioManager.initial)))
     = []).
Proof. split; reflexivity. Qed.

(** C6, amended: a rejected bulk fetch leaves every ad collection as it
    was. [loadAll] of the profile page keeps user, biography and ads and
    stores the error text; [loadAds] of the dashboard keeps its ads and
    stores the error text; [loadAds] of the home page changes nothing, its
    caller on mount only logs; [loadTelegramToday] keeps the messages and
    logs. [BioManager.load] is the exception: it empties its item list and
    raises an error toast. *)
Theorem failed_refresh_keeps_ads (profileId : Z) (highlightAdId : option Z) (e : value)
    (sp : Profile.State) (sd : Dashboard.State) (sh : Home.State)
    (normalizeBioItem : value -> BioManager.BioItem) (sb : BioManager.State) :
  (let sp' := Profile.loadAll_settle profileId highlightAdId (Rejected e)
                (Profile.loadAll_begin sp) in
   Profile.allAds sp' = Profile.allAds sp /\ Profile.bio sp' = Profile.bio sp /\
   Profile.user sp' = Profile.user sp /\
   Profile.err sp' = Profile.nullish_else (ErrorText.response_data e) (VStr Profile.load_failed)) /\
  (let sd' := Dashboard.loadAds_settle (Rejected e) (Dashboard.loadAds_begin sd) in
   Dashboard.ads sd' = Dashboard.ads sd /\
   Dashboard.err sd' = Profile.nullish_else (ErrorText.response_data e) (VStr Dashboard.load_failed)) /\
  Home.loadAds_settle (Rejected e) sh = sh /\
  Home.ads (Home.loadAds_on_mount (Rejected e) sh) = Home.ads sh /\
  Home.telegramMsgs (Home.loadTelegramToday_settle (Rejected e) sh) = Home.telegramMsgs sh /\
  (let sb' := BioManager.load_settle normalizeBioItem (Rejected e) (BioManager.load_begin sb) in
   BioManager.items sb' = [] /\
   length (BioManager.toasts sb') = S (length (BioManager.toasts sb))).
Proof.
  cbv zeta. repeat apply conj; try reflexivity.
  simpl. unfold push. rewrite length_app. simpl. lia.
Qed.

(** *** The view click *)

(** C8, the claim as stated fails: right after the click, with the POST
    still in flight, the row of ad A still shows 5 views and nothing was
    pushed to the router; only the flash counter moved. The pause cannot
    end, and so the navigation cannot start, before the POST has settled. *)
Lemma view_click_not_optimistic :
  let s := Home.setAds (fun _ => [adA]) Home.initial in
  Home.displayed_viewCount 1 s = Some 5%Z /\
  Home.displayed_viewCount 1 (Home.handleViewClick_begin adA s) = Some 5%Z /\
  Home.route (Home.handleViewClick_begin adA s) = None /\
  Home.flashCounts (Home.handleViewClick_begin adA s) !! 1%Z = Some 1%Z /\
  Home.click_step adA Home.AwaitingPost Home.PauseOver (Home.handleViewClick_begin adA s) = None.
Proof. cbv zeta. repeat split; reflexivity. Qed.

Lemma lookup_bump k (m : gmap Z Z) :
  Dashboard.bump k m !! k = Some (default 0 (m !! k) + 1)%Z.
Proof. unfold Dashboard.bump. apply lookup_insert_eq. Qed.

(** C8, amended: the click at once bumps only the flash counter of the
    ad; the displayed [viewCount] and the route are untouched while the
    POST is in flight. When the POST resolves, the ad's [viewCount] becomes
    the count of the response, or [ad.viewCount + 1] if the response has
    none; when it rejects, the ads stay as they were and the error is
    logged. In both cases the handler then pauses, and after the pause it
    navigates to [/u/{userId}?ad={id}]: the navigation does not depend on
    the outcome of the increment call, but it waits for it. *)
Theorem view_click_sequence (ad : Ad.t) (s : Home.State) (r : response (option Z)) :
  let s1 := Home.handleViewClick_begin ad s in
  Home.ads s1 = Home.ads s /\ Home.route s1 = Home.route s /\
  Home.flashCounts s1 !! Ad.id ad = Some (default 0 (Home.flashCounts s !! Ad.id ad) + 1)%Z /\
  Home.click_step ad Home.AwaitingPost Home.PauseOver s1 = None /\
  exists s2 s3,
    Home.click_step ad Home.AwaitingPost (Home.PostSettled r) s1 = Some (Home.Pausing, s2) /\
    Home.route s2 = Home.route s /\
    Home.ads s2 =
      match r with
      | Fulfilled viewCount =>
          map (fun x => if (Ad.id x =? Ad.id ad)%Z
                        then Ad.with_viewCount x (default (Ad.viewCount ad + 1)%Z viewCount)
                        else x) (Home.ads s)
      | Rejected _ => Home.ads s
      end /\
    Home.click_step ad Home.Pausing Home.PauseOver s2 = Some (Home.Finished, s3) /\
    Home.ads s3 = Home.ads s2 /\
    Home.route s3 = Some ("/u/" ++ pretty (Ad.userId ad) ++ "?ad=" ++ pretty (Ad.id ad)).
Proof.
  cbv zeta. split; [reflexivity|]. split; [reflexivity|].
  split; [apply lookup_bump|]. split; [reflexivity|].
  eexists _, _. split; [reflexivity|]. split; [now destruct r|].
  split; [now destruct r|]. split; [reflexivity|]. split; reflexivity.
Qed.

(** Clicking ad A when the server answers 6: the row shows 6 once the POST
    has resolved, and the page then goes to the profile of user 7. *)
Example view_click_resolved :
  let s := Home.setAds (fun _ => [adA]) Home.initial in
  let s2 := Home.handleViewClick_posted adA (Fulfilled (Some 6%Z)) (Home.handleViewClick_begin adA s) in
  Home.displayed_viewCount 1 s2 = Some 6%Z /\
  Home.route (Home.handleViewClick_navigate adA s2) = Some "/u/7?ad=1".
Proof. cbv zeta. split; reflexivity. Qed.

End SyncFacts.
(** ** The push handlers as operations on collections keyed by id *)

Module EventFacts.
Import JS Value Arrays ArrayFacts.

(** No two entries of the collection carry the same id. *)
Definition unique_ids (l : list Ad.t) : Prop := NoDup (map Ad.id l).

(** No entry of the collection carries the id [i]. *)
Definition absent (i : Z) (l : list Ad.t) : Prop := Forall (fun x => Ad.id x <> i) l.

Lemma map_id_view i v l :
  map Ad.id (map (fun x => if (Ad.id x =? i)%Z then Ad.with_viewCount x v else x) l)
  = map Ad.id l.
Proof.
  induction l as [|x l IH]; simpl; [reflexivity|].
  rewrite IH. now destruct (Ad.id x =? i)%Z.
Qed.

Lemma merge_id x p : strict_eq (Ad.id x) (Ad.p_id p) = true -> Ad.id (Ad.merge x p) = Ad.id x.
Proof.
  unfold strict_eq. simpl. destruct (Ad.p_id p) as [j|]; [|discriminate].
  intros H. apply Z.eqb_eq in H. now simpl.
Qed.

Lemma map_id_merge p l :
  map Ad.id (map (fun x => if strict_eq (Ad.id x) (Ad.p_id p) then Ad.merge x p else x) l)
  = map Ad.id l.
Proof.
  induction l as [|x l IH]; simpl; [reflexivity|].
  rewrite IH. destruct (strict_eq (Ad.id x) (Ad.p_id p)) eqn:E; [|reflexivity].
  now rewrite merge_id.
Qed.

Lemma In_map_filter {A B : Type} (f : A -> B) (g : A -> bool) (l : list A) (b : B) :
  In b (map f (List.filter g l)) -> In b (map f l).
Proof.
  rewrite !in_map_iff. intros (x & Hx & Hin). apply filter_In in Hin.
  exists x. now split.
Qed.

Lemma NoDup_map_filter {A B : Type} (f : A -> B) (g : A -> bool) (l : list A) :
  NoDup (map f l) -> NoDup (map f (List.filter g l)).
Proof.
  induction l as [|x l IH]; simpl; intros H; [exact H|].
  inversion H as [|? ? Hx Hl]; subst. destruct (g x); simpl.
  - constructor; [|now apply IH]. intros Hin. apply Hx. now apply In_map_filter in Hin.
  - now apply IH.
Qed.

Lemma splice_unshift_Permutation {A : Type} (idx : nat) (l : list A) :
  Permutation (splice_unshift idx l) l.
Proof.
  unfold splice_unshift. destruct (l !! idx) as [x|] eqn:E; [|reflexivity].
  symmetry. now apply delete_Permutation.
Qed.

Lemma some_id_false i l :
  some (fun x => (Ad.id x =? i)%Z) l = false -> ~ In i (map Ad.id l).
Proof.
  unfold some. induction l as [|x l IH]; simpl; intros H; [tauto|].
  apply orb_false_iff in H as [Hx Hl]. apply Z.eqb_neq in Hx.
  intros [Heq|Hin]; [contradiction | now apply IH].
Qed.

Lemma arrange_Permutation h l : Permutation (Profile.arrange h l) l.
Proof.
  unfold Profile.arrange. destruct (Profile.highlight_given h).
  - destruct (0 <? _)%Z; [apply splice_unshift_Permutation | reflexivity].
  - apply sort_Permutation.
Qed.

Lemma filter_absent (i : option Z) l :
  (forall j, i = Some j -> absent j l) ->
  List.filter (fun x => negb (strict_eq (Ad.id x) i)) l = l.
Proof.
  intros H. destruct i as [j|]; simpl.
  - specialize (H j eq_refl). induction H as [|x l Hx Hl IH]; simpl; [reflexivity|].
    apply Z.eqb_neq in Hx. rewrite Hx. simpl. now rewrite IH.
  - clear H. induction l as [|x l IH]; simpl; [reflexivity|]. now rewrite IH.
Qed.

Lemma map_merge_absent p i l :
  Ad.p_id p = Some i -> absent i l ->
  map (fun x => if strict_eq (Ad.id x) (Ad.p_id p) then Ad.merge x p else x) l = l.
Proof.
  intros Hp H. rewrite Hp. induction H as [|x l Hx Hl IH]; simpl; [reflexivity|].
  apply Z.eqb_neq in Hx. rewrite Hx. f_equal. exact IH.
Qed.

Lemma map_view_absent i v l :
  absent i l ->
  map (fun x => if (Ad.id x =? i)%Z then Ad.with_viewCount x v else x) l = l.
Proof.
  intros H. induction H as [|x l Hx Hl IH]; simpl; [reflexivity|].
  apply Z.eqb_neq in Hx. rewrite Hx. now rewrite IH.
Qed.

Lemma filter_removes (i : Z) l :
  absent i (List.filter (fun x => negb (strict_eq (Ad.id x) (Some i))) l).
Proof.
  unfold absent. apply Forall_forall. intros x Hx. apply filter_In in Hx as [_ Hx].
  simpl in Hx. apply negb_true_iff, Z.eqb_neq in Hx. exact Hx.
Qed.

(** *** The public profile page *)

Section ProfilePage.
Import Profile.

Variable profileId : Z.
Variable highlightAdId : option Z.

(** The response of a bulk fetch lists no ad twice. *)
Definition snapshot_unique (e : event) : Prop :=
  match e with
  | LoadSettled (Fulfilled (_, _, Some ads)) => unique_ids ads
  | _ => True
  end.

Lemma handle_unique_ids s e :
  snapshot_unique e -> unique_ids (allAds s) ->
  unique_ids (allAds (handle profileId highlightAdId s e)).
Proof.
  unfold unique_ids. intros He Hs. destruct e as [p|p|u i|p|p|u a|a v|r]; simpl.
  - unfold onBioAdded. now destruct (negb _).
  - unfold onBioUpdated. now destruct (negb _).
  - unfold onBioDeleted. now destruct (negb _).
  - unfold onAdCreated. destruct (negb _); [exact Hs|]. simpl.
    destruct (some _ (allAds s)) eqn:E; [exact Hs|].
    simpl. constructor; [now apply some_id_false | exact Hs].
  - unfold onAdUpdated. destruct (negb _); [exact Hs|]. simpl.
    now rewrite map_id_merge.
  - unfold onAdDeleted. destruct (negb _); [exact Hs|]. simpl.
    now apply NoDup_map_filter.
  - unfold onAdView. simpl. now rewrite map_id_view.
  - destruct r as [[[u b] [ads|]]|e]; simpl; [|exact Hs|exact Hs].
    simpl in He. eapply Permutation_NoDup.
    + apply Permutation_map. symmetry. apply arrange_Permutation.
    + now apply NoDup_map_filter.
Qed.

(** On the public profile page the ad list never holds two entries with the
    same id: if every bulk response lists each ad once, then whatever push
    events and settled fetches arrive, in whatever order and however often
    repeated, the list that started without duplicates stays without. *)
Theorem profile_ads_ids_stay_unique (events : list event) (s : State) :
  Forall snapshot_unique events ->
  unique_ids (allAds s) ->
  unique_ids (allAds (run profileId highlightAdId events s)).
Proof.
  intros He. revert s. induction He as [|e events He Hes IH]; intros s Hs; simpl.
  - exact Hs.
  - apply IH. now apply handle_unique_ids.
Qed.

(** An event about an ad the page does not hold changes nothing: an update,
    a deletion or a view count for an id that is not in the list leaves the
    whole page state as it was; an update never inserts the ad it names. *)
Theorem profile_events_for_absent_ad_ignored (i : Z) (s : State) :
  absent i (allAds s) ->
  (forall p, Ad.p_id p = Some i -> onAdUpdated profileId p s = s) /\
  (forall u, onAdDeleted profileId u (Some i) s = s) /\
  (forall v, onAdView i v s = s).
Proof.
  intros H. destruct s as [u0 b0 a0 e0 l0]. simpl in H.
  split; [|split].
  - intros p Hp. unfold onAdUpdated. destruct (negb _); [reflexivity|].
    unfold setAllAds. cbn [user bio allAds err loading]. f_equal.
    now apply (map_merge_absent p i).
  - intros u. unfold onAdDeleted. destruct (negb _); [reflexivity|].
    unfold setAllAds. cbn [user bio allAds err loading]. f_equal.
    apply filter_absent. intros j Hj. now injection Hj as <-.
  - intros v. unfold onAdView, setAllAds. cbn [user bio allAds err loading]. f_equal.
    now apply map_view_absent.
Qed.

(** A deletion addressed to this profile takes every entry with the id out
    of the list and keeps all others in their order; a biography deletion
    does the same to the biography. Delivered a second time, either changes
    nothing. *)
Theorem profile_delete_removes_and_is_idempotent (i : Z) (s : State) :
  let s1 := onAdDeleted profileId (Some profileId) (Some i) s in
  let s2 := onBioDeleted profileId (Some profileId) (Some i) s in
  absent i (allAds s1) /\
  allAds s1 = List.filter (fun x => negb (Ad.id x =? i)%Z) (allAds s) /\
  onAdDeleted profileId (Some profileId) (Some i) s1 = s1 /\
  Forall (fun x => BioItem.id x <> i) (bio s2) /\
  bio s2 = List.filter (fun x => negb (BioItem.id x =? i)%Z) (bio s) /\
  onBioDeleted profileId (Some profileId) (Some i) s2 = s2.
Proof.
  unfold onAdDeleted, onBioDeleted. simpl. rewrite Z.eqb_refl. simpl.
  split; [apply filter_removes|]. split; [reflexivity|].
  split; [|split; [|split; [reflexivity|]]].
  - unfold setAllAds. cbn [user bio allAds err loading]. f_equal.
    apply (filter_absent (Some i)). intros j Hj. injection Hj as <-. apply filter_removes.
  - apply Forall_forall. intros x Hx. apply filter_In in Hx as [_ Hx].
    simpl in Hx. now apply negb_true_iff, Z.eqb_neq in Hx.
  - unfold setBio. simpl. f_equal.
    induction (bio s) as [|x l IH]; simpl; [reflexivity|].
    destruct (BioItem.id x =? i)%Z eqn:E; simpl; [exact IH|].
    rewrite E. simpl. now rewrite IH.
Qed.

End ProfilePage.

(** An update or a view count never adds, removes or reorders entries: on
    the public profile page and on the dashboard the ids of the list, in
    order, are the same before and after. *)
Theorem update_events_keep_ids_in_place
    (profileId : Z) (p : Ad.patch) (adId viewCount : Z)
    (s : Profile.State) (d : Dashboard.State) :
  map Ad.id (Profile.allAds (Profile.onAdUpdated profileId p s)) = map Ad.id (Profile.allAds s) /\
  map Ad.id (Profile.allAds (Profile.onAdView adId viewCount s)) = map Ad.id (Profile.allAds s) /\
  map Ad.id (Dashboard.ads (Dashboard.onMyCarAdUpdated p d)) = map Ad.id (Dashboard.ads d).
Proof.
  split; [|split].
  - unfold Profile.onAdUpdated. destruct (negb _); [reflexivity|]. apply map_id_merge.
  - apply map_id_view.
  - apply map_id_merge.
Qed.

(** Events of user 7's page, with the ads of [ProfileFacts]. *)
Lemma profile_ads_ids_stay_unique_witness :
  unique_ids
    (Profile.allAds
       (Profile.run 7 None
          [Profile.CarAdCreated ProfileFacts.adC;
           Profile.LoadSettled
             (Fulfilled (ProfileFacts.owner, None, Some [ProfileFacts.adA; ProfileFacts.adB]));
           Profile.CarAdCreated ProfileFacts.adC;
           Profile.CarAdCreated ProfileFacts.adC;
           Profile.AdViewUpdated 1 9;
           Profile.CarAdDeleted (Some 7%Z) (Some 2%Z)]
          Profile.initial)).
Proof.
  apply profile_ads_ids_stay_unique.
  - repeat constructor; simpl; intuition discriminate.
  - constructor.
Defined.

Lemma profile_events_for_absent_ad_ignored_witness :
  let s := Profile.setAllAds (fun _ => [ProfileFacts.adA; ProfileFacts.adB]) Profile.initial in
  (forall p, Ad.p_id p = Some 3%Z -> Profile.onAdUpdated 7 p s = s) /\
  (forall u, Profile.onAdDeleted 7 u (Some 3%Z) s = s) /\
  (forall v, Profile.onAdView 3 v s = s).
Proof.
  apply (profile_events_for_absent_ad_ignored 7 3).
  repeat constructor; simpl; lia.
Defined.

(** *** The dashboard's view-count handler *)

Lemma view_updated_present i v before x after :
  absent i before -> Ad.id x = i ->
  Dashboard.view_updated i v (before ++ x :: after)%list
  = (Ad.with_viewCount x v :: before
       ++ map (fun y => if (Ad.id y =? i)%Z then Ad.with_viewCount y v else y) after)%list.
Proof.
  intros Hb Hx. unfold Dashboard.view_updated.
  rewrite map_app. simpl. rewrite (map_view_absent i v before Hb).
  rewrite (proj2 (Z.eqb_eq _ _) Hx).
  unfold findIndex. rewrite findIndex_from_middle.
  - destruct before as [|y before]; [reflexivity|].
    replace (0 <? 0 + Z.of_nat (length (y :: before)))%Z with true
      by (symmetry; apply Z.ltb_lt; simpl; lia).
    replace (Z.to_nat (0 + Z.of_nat (length (y :: before)))) with (length (y :: before)) by lia.
    apply splice_unshift_middle.
  - eapply Forall_impl; [|exact Hb]. intros y Hy. now apply Z.eqb_neq.
  - simpl. now apply Z.eqb_eq.
Qed.

(** [AdViewUpdated] on the dashboard: when no ad has the id the list is
    untouched; otherwise the first ad with the id gets the new count and
    moves to the front, the ads before it keep their places behind it and
    the ads after it stay where they are. The ids in the list are the same
    as before, each as often as before. *)
Theorem dashboard_view_update_moves_to_front (i v : Z) (l : list Ad.t) :
  let upd := fun x => if (Ad.id x =? i)%Z then Ad.with_viewCount x v else x in
  (absent i l -> Dashboard.view_updated i v l = l) /\
  (forall before x after,
     l = (before ++ x :: after)%list -> absent i before -> Ad.id x = i ->
     Dashboard.view_updated i v l
     = (Ad.with_viewCount x v :: before ++ map upd after)%list) /\
  Permutation (map Ad.id (Dashboard.view_updated i v l)) (map Ad.id l).
Proof.
  cbv zeta. split; [|split].
  - intros H. unfold Dashboard.view_updated. rewrite (map_view_absent i v l H).
    unfold findIndex. pose proof (findIndex_from_find (fun x => (Ad.id x =? i)%Z) l 0) as F.
    destruct (List.find _ l) as [x|] eqn:E.
    + apply find_some in E as [Hin Hx]. apply Z.eqb_eq in Hx.
      unfold absent in H. rewrite Forall_forall in H. now apply H in Hin.
    + now rewrite F.
  - intros before x after -> Hb Hx. now apply view_updated_present.
  - unfold Dashboard.view_updated.
    etransitivity; [|rewrite <- (map_id_view i v l); reflexivity].
    apply Permutation_map.
    destruct (0 <? _)%Z; [apply splice_unshift_Permutation | reflexivity].
Qed.

Example dashboard_view_update_on_third_row :
  Dashboard.view_updated 3 8 [ProfileFacts.adA; ProfileFacts.adB; ProfileFacts.adC; ProfileFacts.adD]
  = [Ad.with_viewCount ProfileFacts.adC 8; ProfileFacts.adA; ProfileFacts.adB; ProfileFacts.adD].
Proof. reflexivity. Qed.

(** *** The ids of the dashboard *)

Section DashboardIds.
Import DashboardEvents.

(** The event cannot bring a second entry for an id: a create names an ad
    the list does not hold, and the response of a load lists no ad
    twice. *)
Definition brings_no_duplicate (s : Dashboard.State) (e : event) : Prop :=
  match e with
  | CarAdCreatedForUser ad => ~ In (Ad.id ad) (map Ad.id (Dashboard.ads s))
  | LoadSettled (Fulfilled (Some l)) => unique_ids l
  | _ => True
  end.

Fixpoint no_duplicate_brought (events : list event) (s : Dashboard.State) : Prop :=
  match events with
  | [] => True
  | e :: rest => brings_no_duplicate s e /\ no_duplicate_brought rest (handle s e)
  end.

Lemma dashboard_handle_unique s e :
  unique_ids (Dashboard.ads s) -> brings_no_duplicate s e ->
  unique_ids (Dashboard.ads (handle s e)).
Proof.
  unfold unique_ids. intros Hs He. destruct e as [ad|p|i|i v|r]; simpl.
  - constructor; [exact He | exact Hs].
  - now rewrite map_id_merge.
  - now apply NoDup_map_filter.
  - eapply Permutation_NoDup; [|exact Hs]. symmetry.
    etransitivity; [|rewrite <- (map_id_view i v (Dashboard.ads s)); reflexivity].
    apply Permutation_map. unfold Dashboard.view_updated.
    destruct (0 <? _)%Z; [apply splice_unshift_Permutation | reflexivity].
  - destruct r as [[l|]|e]; simpl; [|constructor|exact Hs].
    simpl in He. eapply Permutation_NoDup; [|exact He].
    apply Permutation_map. symmetry. apply sort_Permutation.
Qed.

(** On the dashboard two rows can get the same id only through a create
    event for an ad the list already holds, or a response that lists an ad
    twice: updates, deletions, view counts and failed loads never
    duplicate an id, and in a run where every create names an ad not yet
    listed and every response lists each ad once, the ids stay pairwise
    distinct. *)
Theorem dashboard_ids_unique_unless_created_twice
    (events : list event) (s : Dashboard.State) :
  unique_ids (Dashboard.ads s) -> no_duplicate_brought events s ->
  unique_ids (Dashboard.ads (run events s)).
Proof.
  revert s. induction events as [|e events IH]; intros s Hs He; simpl; [exact Hs|].
  destruct He as [He Hrest]. apply IH; [|exact Hrest].
  now apply dashboard_handle_unique.
Qed.

Lemma dashboard_ids_unique_unless_created_twice_witness :
  unique_ids
    (Dashboard.ads
       (run [LoadSettled (Fulfilled (Some [ProfileFacts.adB; ProfileFacts.adA]));
             CarAdCreatedForUser ProfileFacts.adC;
             AdViewUpdated 1 9;
             MyCarAdDeleted (Some 2%Z);
             LoadSettled (Rejected Value.VNull)]
            Dashboard.initial)).
Proof.
  apply dashboard_ids_unique_unless_created_twice.
  - constructor.
  - simpl. repeat split.
    + repeat constructor; simpl; intuition discriminate.
    + intuition discriminate.
Defined.

End DashboardIds.

(** *** The Telegram messages of the home page *)

Definition receive_all (msgs : list TelegramMsg.t) (s : Home.State) : Home.State :=
  fold_left (fun s m => Home.onTelegramMsg m s) msgs s.

Lemma some_msg_false i l :
  some (fun m => (TelegramMsg.id m =? i)%Z) l = false -> ~ In i (map TelegramMsg.id l).
Proof.
  unfold some. induction l as [|x l IH]; simpl; intros H; [tauto|].
  apply orb_false_iff in H as [Hx Hl]. apply Z.eqb_neq in Hx.
  intros [Heq|Hin]; [contradiction | now apply IH].
Qed.

Lemma some_msg_true i l :
  some (fun m => (TelegramMsg.id m =? i)%Z) l = true -> In i (map TelegramMsg.id l).
Proof.
  unfold some. intros H. apply existsb_exists in H as (x & Hin & Hx).
  apply Z.eqb_eq in Hx. subst i. now apply in_map.
Qed.

Lemma onTelegramMsg_ids m s :
  NoDup (map TelegramMsg.id (Home.telegramMsgs s)) ->
  NoDup (map TelegramMsg.id (Home.telegramMsgs (Home.onTelegramMsg m s))) /\
  In (TelegramMsg.id m) (map TelegramMsg.id (Home.telegramMsgs (Home.onTelegramMsg m s))) /\
  (forall i, In i (map TelegramMsg.id (Home.telegramMsgs s)) ->
             In i (map TelegramMsg.id (Home.telegramMsgs (Home.onTelegramMsg m s)))).
Proof.
  intros H. unfold Home.onTelegramMsg. simpl.
  destruct (some _ (Home.telegramMsgs s)) eqn:E.
  - split; [exact H|]. split; [now apply some_msg_true | auto].
  - simpl. split; [constructor; [now apply some_msg_false | exact H]|].
    split; [now left | auto].
Qed.

(** Whatever Telegram messages the hub delivers, in whatever order and
    however often repeated, the list of the home page holds every delivered
    message id, keeps every id it held, and holds none twice. *)
Theorem telegram_messages_once_each (msgs : list TelegramMsg.t) (s : Home.State) :
  NoDup (map TelegramMsg.id (Home.telegramMsgs s)) ->
  let ids := map TelegramMsg.id (Home.telegramMsgs (receive_all msgs s)) in
  NoDup ids /\
  (forall m, In m msgs -> In (TelegramMsg.id m) ids) /\
  (forall i, In i (map TelegramMsg.id (Home.telegramMsgs s)) -> In i ids).
Proof.
  cbv zeta. revert s. induction msgs as [|m msgs IH]; intros s H; simpl.
  - split; [exact H|]. split; [tauto | auto].
  - destruct (onTelegramMsg_ids m s H) as (Hn & Hm & Hkeep).
    destruct (IH _ Hn) as (IH1 & IH2 & IH3).
    split; [exact IH1|]. split.
    + intros m' [<-|Hin]; [now apply IH3 | now apply IH2].
    + intros i Hi. now apply IH3, Hkeep.
Qed.

Definition sample_msg (i : Z) : TelegramMsg.t :=
  TelegramMsg.mk i (100 + i) "Pride 131 for sale" (Some "seller") None
                 "2024-01-05T09:00:00Z" "https://t.me/c/1/1".

Lemma telegram_messages_once_each_witness :
  let msgs := [sample_msg 1; sample_msg 2; sample_msg 1] in
  let ids := map TelegramMsg.id (Home.telegramMsgs (receive_all msgs Home.initial)) in
  NoDup ids /\
  (forall m, In m msgs -> In (TelegramMsg.id m) ids) /\
  (forall i, In i (map TelegramMsg.id (Home.telegramMsgs Home.initial)) -> In i ids).
Proof.
  apply (telegram_messages_once_each [sample_msg 1; sample_msg 2; sample_msg 1] Home.initial).
  constructor.
Defined.

End EventFacts.
(** ** The display order kept by the loaders and the biography handlers *)

Module OrderFacts.
Import JS Value Arrays ArrayFacts.

(** *** The biography of the public profile page *)

(** [a] may stand before [b]: an advanced item before a simple one, and of
    two items of one kind the one whose [createdAt] is not older. *)
Definition bio_before (a b : BioItem.t) : Prop :=
  (BioItem.isAdvanced a = true /\ BioItem.isAdvanced b = false) \/
  (BioItem.isAdvanced a = BioItem.isAdvanced b /\
   String.ltb (BioItem.createdAt a) (BioItem.createdAt b) = false).

Lemma bio_cmp_neg a b : (Profile.bio_cmp a b <? 0)%Z = true -> bio_before a b.
Proof.
  unfold Profile.bio_cmp, bio_before.
  destruct (BioItem.isAdvanced a), (BioItem.isAdvanced b); simpl;
    try discriminate; try (left; split; reflexivity);
    destruct (String.ltb _ _); try discriminate; right; split; reflexivity.
Qed.

Lemma bio_cmp_pos a b : (Profile.bio_cmp a b <? 0)%Z = false -> bio_before b a.
Proof.
  unfold Profile.bio_cmp, bio_before.
  destruct (BioItem.isAdvanced a), (BioItem.isAdvanced b); simpl;
    try discriminate; try (left; split; reflexivity);
    destruct (String.ltb _ _) eqn:E; try discriminate; right;
    (split; [reflexivity | now apply ltb_asym]).
Qed.

Lemma bio_before_trans a b c : bio_before a b -> bio_before b c -> bio_before a c.
Proof.
  unfold bio_before. intros [[Ha Hb]|[Hab Lab]] [[Hb' Hc]|[Hbc Lbc]].
  - congruence.
  - left. split; congruence.
  - left. split; congruence.
  - right. split; [congruence|]. now apply (not_ltb_trans _ (BioItem.createdAt b)).
Qed.

Lemma sort_insert_bio x l :
  StronglySorted bio_before l -> StronglySorted bio_before (sort_insert Profile.bio_cmp x l).
Proof.
  induction l as [|y l IH]; intros Hs; simpl.
  - repeat constructor.
  - inversion Hs as [|? ? Hl Hy]; subst.
    destruct (Profile.bio_cmp x y <? 0)%Z eqn:E.
    + apply bio_cmp_neg in E. constructor; [exact Hs|]. constructor; [exact E|].
      eapply Forall_impl; [|exact Hy]. intros z Hz. now apply (bio_before_trans x y z).
    + apply bio_cmp_pos in E. constructor; [now apply IH|].
      rewrite (sort_insert_Permutation Profile.bio_cmp x l). now constructor.
Qed.

Lemma sort_bio l : StronglySorted bio_before (sort Profile.bio_cmp l).
Proof.
  unfold sort. assert (H : StronglySorted bio_before []) by constructor.
  revert H. generalize (@nil BioItem.t). induction l as [|x l IH]; intros acc Hacc; simpl.
  - exact Hacc.
  - apply IH. now apply sort_insert_bio.
Qed.

Lemma filter_StronglySorted {A : Type} (R : A -> A -> Prop) (f : A -> bool) (l : list A) :
  StronglySorted R l -> StronglySorted R (List.filter f l).
Proof.
  induction 1 as [|x l Hl IH Hx]; simpl; [constructor|].
  destruct (f x); [|exact IH]. constructor; [exact IH|].
  apply Forall_forall. intros y Hy. apply filter_In in Hy as [Hy _].
  rewrite Forall_forall in Hx. now apply Hx.
Qed.

(** The biography of the public profile page is always in display order:
    advanced items first, and within each kind no item stands before a
    newer one. Every handler and the loader keep it so, whatever events
    arrive. *)
Theorem profile_bio_stays_ordered
    (profileId : Z) (highlightAdId : option Z) (events : list Profile.event) (s : Profile.State) :
  StronglySorted bio_before (Profile.bio s) ->
  StronglySorted bio_before (Profile.bio (Profile.run profileId highlightAdId events s)).
Proof.
  revert s. induction events as [|e events IH]; intros s Hs; simpl; [exact Hs|].
  apply IH. destruct e as [p|p|u i|p|p|u a|a v|r]; simpl.
  - unfold Profile.onBioAdded. destruct (negb _); [exact Hs|]. apply sort_bio.
  - unfold Profile.onBioUpdated. destruct (negb _); [exact Hs|]. apply sort_bio.
  - unfold Profile.onBioDeleted. destruct (negb _); [exact Hs|].
    now apply filter_StronglySorted.
  - unfold Profile.onAdCreated. now destruct (negb _).
  - unfold Profile.onAdUpdated. now destruct (negb _).
  - unfold Profile.onAdDeleted. now destruct (negb _).
  - exact Hs.
  - destruct r as [[[u b] [ads|]]|e]; simpl; [apply sort_bio | apply sort_bio | exact Hs].
Qed.

Definition sample_bio (i : Z) (advanced : bool) (created : string) : BioItem.t :=
  BioItem.mk i 7 advanced "Showroom" "Cars bought and sold" None created created.

Lemma profile_bio_stays_ordered_witness :
  StronglySorted bio_before
    (Profile.bio
       (Profile.run 7 None
          [Profile.BioItemAdded (sample_bio 1 false "2024-01-02T10:00:00Z");
           Profile.BioItemAdded (sample_bio 2 true "2024-01-01T10:00:00Z");
           Profile.BioItemAdded (sample_bio 3 false "2024-01-03T10:00:00Z")]
          Profile.initial)).
Proof.
  apply profile_bio_stays_ordered. constructor.
Defined.

Example profile_bio_order :
  map BioItem.id
    (Profile.bio
       (Profile.run 7 None
          [Profile.BioItemAdded (sample_bio 1 false "2024-01-02T10:00:00Z");
           Profile.BioItemAdded (sample_bio 2 true "2024-01-01T10:00:00Z");
           Profile.BioItemAdded (sample_bio 3 false "2024-01-03T10:00:00Z")]
          Profile.initial))
  = [2%Z; 3%Z; 1%Z].
Proof. reflexivity. Qed.

(** [BioItemAdded] is not deduplicated: an item of this profile is always
    put into the biography, also when an item with its id is already
    there, so the biography grows by one entry at every delivery. The
    handler of [CarAdCreated] next to it skips an id it already holds. *)
Theorem profile_bio_added_twice_is_kept_twice
    (profileId : Z) (p : BioItem.t) (s : Profile.State) :
  BioItem.userId p = profileId ->
  Permutation (Profile.bio (Profile.onBioAdded profileId p s)) (p :: Profile.bio s) /\
  Permutation (Profile.bio (Profile.onBioAdded profileId p (Profile.onBioAdded profileId p s)))
              (p :: p :: Profile.bio s).
Proof.
  intros Hp. unfold Profile.onBioAdded. rewrite Hp, Z.eqb_refl. simpl.
  split.
  - apply sort_Permutation.
  - rewrite sort_Permutation. constructor. apply sort_Permutation.
Qed.

Lemma profile_bio_added_twice_is_kept_twice_witness :
  let p := sample_bio 1 false "2024-01-02T10:00:00Z" in
  Permutation (Profile.bio (Profile.onBioAdded 7 p Profile.initial)) [p] /\
  Permutation (Profile.bio (Profile.onBioAdded 7 p (Profile.onBioAdded 7 p Profile.initial)))
              [p; p].
Proof.
  apply (profile_bio_added_twice_is_kept_twice 7 (sample_bio 1 false "2024-01-02T10:00:00Z")
           Profile.initial).
  reflexivity.
Defined.

(** *** The dashboard's loader *)

Lemma sort_insert_dashboard x l :
  StronglySorted ProfileFacts.newer_or_same l ->
  StronglySorted ProfileFacts.newer_or_same (sort_insert Dashboard.newest_first x l).
Proof.
  unfold ProfileFacts.newer_or_same.
  induction l as [|y l IH]; intros Hs; simpl.
  - repeat constructor.
  - inversion Hs as [|? ? Hl Hy]; subst. unfold Dashboard.newest_first at 1.
    destruct (String.ltb (Ad.createdAt x) (Ad.createdAt y)) eqn:Hxy; simpl.
    + constructor; [now apply IH|].
      rewrite (sort_insert_Permutation Dashboard.newest_first x l).
      constructor; [now apply ltb_asym | exact Hy].
    + constructor; [exact Hs|]. constructor; [exact Hxy|].
      eapply Forall_impl; [|exact Hy]. intros z Hz.
      now apply (not_ltb_trans _ (Ad.createdAt y)).
Qed.

Lemma sort_dashboard l :
  StronglySorted ProfileFacts.newer_or_same (sort Dashboard.newest_first l).
Proof.
  unfold sort. assert (H : StronglySorted ProfileFacts.newer_or_same []) by constructor.
  revert H. generalize (@nil Ad.t). induction l as [|x l IH]; intros acc Hacc; simpl.
  - exact Hacc.
  - apply IH. now apply sort_insert_dashboard.
Qed.

(** A successful [loadAds] of the dashboard shows exactly the ads of the
    response (none when the body is missing), rearranged so that no ad
    stands before a newer one, whatever the list held before; the loading
    flag is down and the error cell is the one [loadAds] cleared when it
    began. *)
Theorem dashboard_load_shows_response_newest_first
    (data : option (list Ad.t)) (s : Dashboard.State) :
  let s' := Dashboard.loadAds_settle (Fulfilled data) (Dashboard.loadAds_begin s) in
  Permutation (Dashboard.ads s') (default [] data) /\
  StronglySorted ProfileFacts.newer_or_same (Dashboard.ads s') /\
  Dashboard.adsLoading s' = false /\
  Dashboard.err s' = VNull.
Proof.
  cbv zeta. simpl. split; [apply sort_Permutation|]. split; [apply sort_dashboard|].
  split; reflexivity.
Qed.

Example dashboard_load_sorts :
  Dashboard.ads (Dashboard.loadAds_settle
                   (Fulfilled (Some [ProfileFacts.adC; ProfileFacts.adA; ProfileFacts.adD;
                                     ProfileFacts.adB]))
                   Dashboard.initial)
  = [ProfileFacts.adA; ProfileFacts.adB; ProfileFacts.adC; ProfileFacts.adD].
Proof. reflexivity. Qed.

End OrderFacts.
(** ** The connection manager: which connection a call uses *)

Module ManagerFacts.
Import JS SignalR SignalRFacts.

(** [connection] is unset, or set and not [Connected]. *)
Definition none_connected (w : World) : Prop :=
  forall c, connection w = Some c -> in_state w c Connected = false.

Lemma in_state_lookup w c h st :
  conns w !! c = Some h -> in_state w c st = state_eqb (state h) st.
Proof. intros H. unfold in_state, state_of. now rewrite H. Qed.

Lemma startSignalR_returns_connected tok w c :
  connection w = Some c -> in_state w c Connected = true ->
  startSignalR tok w = (Some c, w).
Proof. intros Hc Hst. unfold startSignalR, startSignalR_begin. now rewrite Hc, Hst. Qed.

(** The world a call of [startSignalR] that builds a connection ends in. *)
Definition built (tok : option string) (w : World) : World :=
  mkWorld (Some (length (conns w)))
          (push (conns w) (mkConn Connected (default "" tok) [] []))
          (push (push (console w) "HUB URL =>") "SignalR connected. state =").

Lemma startSignalR_builds tok w :
  none_connected w -> startSignalR tok w = (Some (length (conns w)), built tok w).
Proof.
  intros Hnot. unfold startSignalR, startSignalR_begin.
  assert (Hnone : match connection w with
                  | Some c => if in_state w c Connected then Some c else None
                  | None => None
                  end = None).
  { destruct (connection w) as [c|] eqn:Hc; [|reflexivity]. now rewrite (Hnot c Hc). }
  rewrite Hnone. unfold startSignalR_resume, start_succeeded, update, log, built. simpl.
  rewrite (alter_push_new (set_state Connecting) (conns w)
             (mkConn Disconnected (default "" tok) [] [])).
  now rewrite (alter_push_new (set_state Connected) (conns w)
                 (set_state Connecting (mkConn Disconnected (default "" tok) [] []))).
Qed.

Lemma built_connected tok w : in_state (built tok w) (length (conns w)) Connected = true.
Proof.
  rewrite (in_state_lookup _ _ (mkConn Connected (default "" tok) [] [])); [reflexivity|].
  apply lookup_push_new.
Qed.

Lemma invoke_after_start_builds tok method userId w :
  none_connected w ->
  connection (invoke_after_start tok method userId w) = Some (length (conns w)) /\
  conns (invoke_after_start tok method userId w)
  = push (conns w)
         (mkConn Connected (default "" tok) [(method, pretty userId)]
                 (hub_receive method (pretty userId) [])).
Proof.
  intros Hnot. unfold invoke_after_start. rewrite (startSignalR_builds tok w Hnot).
  unfold invoke. rewrite built_connected. simpl. split; [reflexivity|].
  exact (alter_push_new _ (conns w) (mkConn Connected (default "" tok) [] [])).
Qed.

(** [joinProfile] and [leaveProfile] send their invocation over a
    connected connection, and build one to have it. With [connection] set
    and [Connected], the call appends its one invocation to that connection
    and touches no other; nothing is built. With [connection] unset or in
    any other state, a reconnect under way included, the call first builds
    and starts a new connection with the current token, makes it the
    module's connection, and the invocation is the first and only one sent
    over it: a [leaveProfile] issued after the connection dropped opens a
    connection just to leave. *)
Theorem invoke_uses_or_builds_a_connection
    (tok : option string) (method : string) (userId : Z) (w : World) :
  let w' := invoke_after_start tok method userId w in
  (forall c h,
     connection w = Some c -> conns w !! c = Some h -> state h = Connected ->
     connection w' = Some c /\
     length (conns w') = length (conns w) /\
     invocations <$> conns w' !! c = Some (push (invocations h) (method, pretty userId)) /\
     (forall c', c' <> c -> conns w' !! c' = conns w !! c')) /\
  (none_connected w ->
     connection w' = Some (length (conns w)) /\
     conns w'
     = push (conns w)
            (mkConn Connected (default "" tok) [(method, pretty userId)]
                    (hub_receive method (pretty userId) []))).
Proof.
  cbv zeta. split.
  - intros c h Hc Hl Hst.
    assert (Hin : in_state w c Connected = true)
      by (rewrite (in_state_lookup w c h) by exact Hl; now rewrite Hst).
    unfold invoke_after_start. rewrite (startSignalR_returns_connected tok w c Hc Hin).
    unfold invoke. rewrite Hin. simpl. split; [exact Hc|].
    split; [apply length_alter|]. split.
    + rewrite list_lookup_alter_eq, Hl. reflexivity.
    + intros c' Hne. apply list_lookup_alter_ne. congruence.
  - apply invoke_after_start_builds.
Qed.

(** A page joins profile 7, the transport drops, and the page leaves while
    the reconnect is under way: the leave goes out on a second connection. *)
Lemma invoke_uses_or_builds_a_connection_witness :
  let w := run token [CallJoinProfile 7; TransportLost] initial in
  let w' := leaveProfile token 7 w in
  connection w' = Some 1%nat /\
  conns w' = [mkConn Reconnecting "jwt" [("JoinProfile", "7")] ["7"];
              mkConn Connected "jwt" [("LeaveProfile", "7")] []].
Proof.
  apply (proj2 (invoke_uses_or_builds_a_connection token "LeaveProfile" 7
                  (run token [CallJoinProfile 7; TransportLost] initial))).
  intros c Hc. injection Hc as <-. reflexivity.
Defined.

(** A connection keeps the access token it was built with. Once a call of
    [startSignalR] has built and started a connection, a later call returns
    that same connection and leaves the world untouched, whatever the token
    of the store is by then: a connection opened before the login answers
    the calls made after it, with the empty token of the anonymous visit. *)
Theorem connected_connection_keeps_its_token (tok1 tok2 : option string) (w : World) :
  none_connected w ->
  let w1 := snd (startSignalR tok1 w) in
  startSignalR tok2 w1 = (Some (length (conns w)), w1) /\
  accessToken <$> conns w1 !! length (conns w) = Some (default "" tok1).
Proof.
  intros Hnot. cbv zeta. rewrite (startSignalR_builds tok1 w Hnot). simpl. split.
  - apply (startSignalR_returns_connected tok2 (built tok1 w)); [reflexivity|].
    apply built_connected.
  - unfold built. simpl. now rewrite lookup_push_new.
Qed.

Lemma connected_connection_keeps_its_token_witness :
  let w1 := snd (startSignalR None initial) in
  startSignalR (Some "jwt") w1 = (Some 0%nat, w1) /\
  accessToken <$> conns w1 !! 0%nat = Some "".
Proof.
  apply (connected_connection_keeps_its_token None (Some "jwt") initial).
  intros c Hc. discriminate Hc.
Defined.

(** [stopSignalR] forgets the connection: [getConnection] answers [null],
    stopping again changes nothing, and the next [joinProfile] builds a
    fresh connection whose only invocation is that join, while the stopped
    connection stays behind, disconnected and in no group of the hub, with
    what was sent over it. *)
Theorem stop_then_join_starts_afresh (tok : option string) (userId : Z) (w : World) :
  let stopped := stopSignalR w in
  let w' := joinProfile tok userId stopped in
  getConnection stopped = None /\
  stopSignalR stopped = stopped /\
  sent stopped = sent w /\
  connection w' = Some (length (conns w)) /\
  conns w'
  = push (conns stopped)
         (mkConn Connected (default "" tok) [("JoinProfile", pretty userId)] [pretty userId]) /\
  (forall c h, connection w = Some c -> conns w !! c = Some h ->
     conns w' !! c = Some (mkConn Disconnected (accessToken h) (invocations h) [])).
Proof.
  cbv zeta.
  assert (Hnone : connection (stopSignalR w) = None).
  { unfold stopSignalR. destruct (connection w) eqn:E; [reflexivity | exact E]. }
  assert (Hlen : length (conns (stopSignalR w)) = length (conns w)).
  { unfold stopSignalR. destruct (connection w); [|reflexivity]. simpl. apply length_alter. }
  assert (Hnot : none_connected (stopSignalR w)).
  { intros c Hc. rewrite Hnone in Hc. discriminate. }
  destruct (invoke_after_start_builds tok "JoinProfile" userId (stopSignalR w) Hnot)
    as [Hconn Hconns].
  split; [exact Hnone|]. split.
  { unfold stopSignalR at 1. now rewrite Hnone. }
  split.
  { unfold stopSignalR. destruct (connection w); [|reflexivity].
    unfold sent, update. simpl. now apply map_alter_same. }
  split; [unfold joinProfile; now rewrite Hconn, Hlen|].
  split; [exact Hconns|].
  intros c h Hc Hl. unfold joinProfile. rewrite Hconns.
  unfold stopSignalR. rewrite Hc. unfold update, push. simpl.
  rewrite lookup_app_l by (rewrite length_alter; now apply lookup_lt_Some in Hl).
  rewrite list_lookup_alter_eq, Hl. reflexivity.
Qed.

Example stop_then_join :
  conns (joinProfile token 8 (stopSignalR (run token [CallJoinProfile 7] initial)))
  = [mkConn Disconnected "jwt" [("JoinProfile", "7")] [];
     mkConn Connected "jwt" [("JoinProfile", "8")] ["8"]].
Proof. reflexivity. Qed.

(** Stopping a connected connection runs its [onclose] callback. *)
Example stop_logs_the_close :
  console (stopSignalR (run token [CallStartSignalR] initial))
  = ["HUB URL =>"; "SignalR connected. state ="; "SignalR closed:"].
Proof. reflexivity. Qed.

End ManagerFacts.
(** ** The dashboard: codes of the edit form, and the view total *)

Module FormFacts.
Import JS Arrays ArrayFacts EventFacts DashboardForm.

Lemma typeKeyToNum_typeNumToKey n :
  typeKeyToNum (typeNumToKey n) = if (1 <=? n)%Z && (n <=? 4)%Z then n else 1%Z.
Proof.
  unfold typeNumToKey.
  destruct (Z.eqb_spec n 2) as [->|H2]; [reflexivity|].
  destruct (Z.eqb_spec n 3) as [->|H3]; [reflexivity|].
  destruct (Z.eqb_spec n 4) as [->|H4]; [reflexivity|].
  simpl. destruct (Z.leb_spec 1 n), (Z.leb_spec n 4); simpl; try reflexivity. lia.
Qed.

Lemma gearboxKeyToNum_gearboxNumToKey n :
  gearboxKeyToNum (gearboxNumToKey n) = if (n =? 1)%Z || (n =? 2)%Z then n else 0%Z.
Proof.
  unfold gearboxNumToKey.
  destruct (Z.eqb_spec n 1) as [->|H1]; [reflexivity|].
  destruct (Z.eqb_spec n 2) as [->|H2]; reflexivity.
Qed.

(** The dashboard's conversions between the numeric codes of the backend
    and the keys of the dialog: from a key to its code and back is the
    identity; from a code to its key and back keeps the type codes 1 to 4
    and the gearbox codes 1 and 2, and sends every other type code to 1
    (used sale) and every other gearbox code to 0 (none). So an ad opened
    for editing and saved untouched goes back with its type and gearbox
    only if they were among those codes, and with its title, year, colour,
    mileage, insurance months and price as they were. *)
Theorem dashboard_codes_round_trip :
  (forall k, typeNumToKey (typeKeyToNum k) = k) /\
  (forall k, gearboxNumToKey (gearboxKeyToNum k) = k) /\
  (forall n, typeKeyToNum (typeNumToKey n)
             = if (1 <=? n)%Z && (n <=? 4)%Z then n else 1%Z) /\
  (forall n, gearboxKeyToNum (gearboxNumToKey n)
             = if (n =? 1)%Z || (n =? 2)%Z then n else 0%Z) /\
  (forall ad,
     let b := request_body (openEdit ad) in
     b_type b = (if (1 <=? Ad.type ad)%Z && (Ad.type ad <=? 4)%Z then Ad.type ad else 1%Z) /\
     b_gearbox b
       = (if (Ad.gearbox ad =? 1)%Z || (Ad.gearbox ad =? 2)%Z then Ad.gearbox ad else 0%Z) /\
     (b_title b, b_year b, b_color b, b_mileageKm b, b_insuranceMonths b, b_price b)
       = (Ad.title ad, Ad.year ad, Ad.color ad, Ad.mileageKm ad, Ad.insuranceMonths ad,
          Ad.price ad)).
Proof.
  split; [|split; [|split; [|split]]].
  - intros []; reflexivity.
  - intros [[]|]; reflexivity.
  - apply typeKeyToNum_typeNumToKey.
  - apply gearboxKeyToNum_gearboxNumToKey.
  - intros ad. cbv zeta. simpl.
    split; [apply typeKeyToNum_typeNumToKey|].
    split; [apply gearboxKeyToNum_gearboxNumToKey | reflexivity].
Qed.

(** *** The total of the view counters *)

Lemma totalViews_from (l : list Ad.t) : forall acc,
  fold_left (fun s a => (s + Ad.viewCount a)%Z) l acc = (acc + totalViews l)%Z.
Proof.
  unfold totalViews. induction l as [|x l IH]; intros acc; simpl; [lia|].
  rewrite (IH (acc + Ad.viewCount x)%Z), (IH (0 + Ad.viewCount x)%Z). lia.
Qed.

Lemma totalViews_cons x l : totalViews (x :: l) = (Ad.viewCount x + totalViews l)%Z.
Proof. unfold totalViews at 1. simpl. now rewrite totalViews_from. Qed.

Lemma totalViews_app l1 l2 : totalViews (l1 ++ l2)%list = (totalViews l1 + totalViews l2)%Z.
Proof.
  induction l1 as [|x l1 IH]; simpl; [reflexivity|].
  rewrite !totalViews_cons, IH. lia.
Qed.

(** The total of the dashboard follows a view event: when the ads have
    distinct ids and [x] is the ad the event names, the total after the
    event is the total before it with the old count of [x] replaced by the
    count of the event; the reordering of the list does not touch it. *)
Theorem dashboard_total_follows_view_event
    (i v : Z) (before after : list Ad.t) (x : Ad.t) :
  unique_ids (before ++ x :: after)%list -> Ad.id x = i ->
  totalViews (Dashboard.view_updated i v (before ++ x :: after)%list)
  = (totalViews (before ++ x :: after)%list - Ad.viewCount x + v)%Z.
Proof.
  unfold unique_ids. intros Hu Hx.
  rewrite map_app in Hu. simpl in Hu.
  assert (Hb : absent i before).
  { apply Forall_forall. intros y Hy Heq.
    apply NoDup_remove_2 in Hu. apply Hu. apply in_or_app. left.
    rewrite Hx, <- Heq. now apply in_map. }
  assert (Ha : absent i after).
  { apply Forall_forall. intros y Hy Heq.
    apply NoDup_remove_2 in Hu. apply Hu. apply in_or_app. right.
    rewrite Hx, <- Heq. now apply in_map. }
  rewrite (view_updated_present i v before x after Hb Hx).
  rewrite (map_view_absent i v after Ha).
  rewrite totalViews_cons, !totalViews_app, totalViews_cons. simpl. lia.
Qed.

Lemma dashboard_total_follows_view_event_witness :
  totalViews (Dashboard.view_updated 1 9 [ProfileFacts.adB; ProfileFacts.adA; ProfileFacts.adC])
  = (totalViews [ProfileFacts.adB; ProfileFacts.adA; ProfileFacts.adC] - 5 + 9)%Z.
Proof.
  apply (dashboard_total_follows_view_event 1 9 [ProfileFacts.adB] [ProfileFacts.adC]
           ProfileFacts.adA).
  - repeat constructor; simpl; intuition discriminate.
  - reflexivity.
Defined.

End FormFacts.
(** ** [errorToText]: errors without a response body, and PascalCase problems *)

Module FallbackFacts.
Import JS Value ErrorText ErrorTextFacts.

(** The response data is none of the three shapes [errorToText] reads: it
    is missing, [null], a boolean or a number. *)
Definition no_body (data : value) : bool :=
  match data with
  | VUndefined | VNull | VBool _ | VNum _ => true
  | VStr _ | VArr _ | VObj _ => false
  end.

Section WithNumberToString.

Variable Number_toString : float -> string.

#[local] Abbreviation errorToText := (errorToText Number_toString).

Lemma fallback_branch err :
  no_body (thrown_response_data err) = true ->
  errorToText_try Number_toString err
  = (msg ← (if truthy (thrown_get err "message") then Normal (thrown_get err "message")
            else s ← thrown_toString Number_toString err;
                 Normal (or_else s (VStr unknown_error)));
     text ← ToString Number_toString msg;
     Normal (Some text)).
Proof.
  intros H. unfold ErrorText.errorToText_try.
  destruct (thrown_response_data err) as [| |b|n|s|xs|props]; try discriminate H;
    simpl; rewrite ?andb_false_r; reflexivity.
Qed.

(** When the error carries no usable response body (a request that never
    reached the server, an exception of the page's own code, a body that is
    a bare number or boolean), [errorToText] falls back on the error
    itself. It returns the error's [message] when that is a non-empty
    string, its own or an inherited one. Without such a message the
    error's [toString] decides: an instance of [Error] whose message is
    empty and whose name is not overridden shows the name of its class
    ("Error" for [new Error("")]); an object literal without a [toString]
    of its own shows "[object Object]"; a thrown string shows itself. For
    no error at all ([undefined], [null]) and for the empty string the
    fixed text is shown. *)
Theorem errorToText_without_response_body (err : thrown) :
  no_body (thrown_response_data err) = true ->
  (forall m, thrown_get err "message" = VStr m -> m <> "" -> errorToText err = Some m) /\
  (forall class own,
     err = ErrorInstance class own -> class <> "" ->
     has_own "name" own = false -> has_own "toString" own = false ->
     (has_own "message" own = false \/ lookup_prop "message" own = VStr "") ->
     errorToText err = Some class) /\
  (forall props,
     err = Plain (VObj props) -> truthy (lookup_prop "message" props) = false ->
     has_own "toString" props = false ->
     errorToText err = Some "[object Object]") /\
  (forall s, err = Plain (VStr s) ->
     errorToText err = Some (if String.eqb s "" then unknown_error else s)) /\
  (err = Plain VUndefined \/ err = Plain VNull -> errorToText err = Some unknown_error).
Proof.
  intros H. unfold ErrorText.errorToText. rewrite (fallback_branch err H).
  repeat apply conj.
  - intros m Hm Hne. rewrite Hm. simpl.
    destruct (String.eqb_spec m "") as [->|_]; [contradiction | reflexivity].
  - intros class own -> Hclass Hname Hts Hmsg.
    assert (Hm : thrown_get (ErrorInstance class own) "message" = VStr "").
    { unfold thrown_get. destruct Hmsg as [Hm|Hm].
      - now rewrite Hm.
      - destruct (has_own "message" own); [exact Hm | reflexivity]. }
    assert (Hn : thrown_get (ErrorInstance class own) "name" = VStr class).
    { unfold thrown_get. now rewrite Hname. }
    unfold thrown_toString, Error_prototype_toString. rewrite Hm, Hn, Hts. simpl.
    destruct (String.eqb_spec class "") as [->|_]; [contradiction|].
    unfold or_else. simpl.
    destruct (String.eqb_spec class "") as [->|_]; [contradiction | reflexivity].
  - intros props -> Hmsg Hown.
    change (thrown_get (Plain (VObj props)) "message") with (lookup_prop "message" props).
    rewrite Hmsg. simpl. now rewrite Hown.
  - intros s ->. simpl. unfold or_else. simpl.
    destruct (String.eqb s ""); reflexivity.
  - intros [->| ->]; reflexivity.
Qed.

(** A problem object spelled in PascalCase ([Title], [Detail], [Errors])
    is flattened exactly like the camelCase one, whatever other members the
    body carries ([Status], [TraceId], ...): the non-empty ones among the
    title, the detail and the lines "field: message | message", joined by
    line breaks. *)
Theorem errorToText_reads_PascalCase
    (props : list (string * value)) (title detail : option string)
    (errs : list (string * list string)) (err : thrown) :
  thrown_response_data err = VObj props ->
  has_own "title" props = false -> text_member props "Title" title ->
  has_own "detail" props = false -> text_member props "Detail" detail ->
  has_own "errors" props = false -> lookup_prop "Errors" props = problem_errors errs ->
  NoDup (map fst errs) ->
  errorToText err =
    Some (join newline (List.filter nonempty
            [default "" title; default "" detail; join newline (map field_line errs)])).
Proof.
  intros Hdata Ht HT Hd HD He HE Hnd.
  apply (errorToText_members Number_toString err props _ _ errs Hdata Hnd).
  - now apply shows_second_member.
  - now apply shows_second_member.
  - rewrite (lookup_prop_absent "errors" props He). exact HE.
Qed.

End WithNumberToString.

(** A request that never reached the server. *)
Definition network_error : thrown :=
  ErrorInstance "Error"
    [("message", VStr "Network Error"); ("name", VStr "AxiosError");
     ("code", VStr "ERR_NETWORK")].

Lemma errorToText_without_response_body_witness :
  ErrorText.errorToText integral_toString network_error = Some "Network Error" /\
  ErrorText.errorToText integral_toString (ErrorInstance "Error" [("message", VStr "")])
  = Some "Error" /\
  ErrorText.errorToText integral_toString (ErrorInstance "TypeError" []) = Some "TypeError" /\
  ErrorText.errorToText integral_toString (Plain (VObj [("code", VNum 5)]))
  = Some "[object Object]".
Proof.
  repeat apply conj.
  - apply (proj1 (errorToText_without_response_body integral_toString network_error eq_refl)
             "Network Error"); [reflexivity | discriminate].
  - apply (proj1 (proj2 (errorToText_without_response_body integral_toString
                           (ErrorInstance "Error" [("message", VStr "")]) eq_refl))
             "Error" [("message", VStr "")]);
      [reflexivity | discriminate | reflexivity | reflexivity | right; reflexivity].
  - apply (proj1 (proj2 (errorToText_without_response_body integral_toString
                           (ErrorInstance "TypeError" []) eq_refl))
             "TypeError" []);
      [reflexivity | discriminate | reflexivity | reflexivity | left; reflexivity].
  - apply (proj1 (proj2 (proj2 (errorToText_without_response_body integral_toString
                                  (Plain (VObj [("code", VNum 5)])) eq_refl)))
             [("code", VNum 5)]); reflexivity.
Defined.

(** An instance with an empty message shows through
    [Error.prototype.toString], which reads the instance's own name and
    message first. *)
Example errorToText_error_instances :
  ErrorText.errorToText integral_toString
    (ErrorInstance "Error" [("message", VStr ""); ("name", VStr "AxiosError")])
  = Some "AxiosError" /\
  ErrorText.errorToText integral_toString
    (ErrorInstance "Error" [("message", VNum 0); ("name", VStr "Oops")])
  = Some "Oops: 0" /\
  ErrorText.errorToText integral_toString
    (ErrorInstance "Error" [("message", VStr ""); ("name", VStr "")])
  = Some unknown_error.
Proof. repeat split; reflexivity. Qed.

(** The members of a PascalCase problem with a trace id and without a
    status. *)
Definition pascal_problem : list (string * value) :=
  [("Title", VStr "Validation failed");
   ("Errors", problem_errors [("Year", ["invalid"])]);
   ("TraceId", VStr "00-84c1fd4063c38d9f3900d06e56542d48-85d1d4-00")].

Lemma errorToText_reads_PascalCase_witness :
  ErrorText.errorToText integral_toString (axios_error (VObj pascal_problem))
  = Some ("Validation failed" ++ newline ++ "Year: invalid").
Proof.
  apply (errorToText_reads_PascalCase integral_toString pascal_problem
           (Some "Validation failed") None [("Year", ["invalid"])]); try reflexivity.
  repeat constructor; simpl; intuition discriminate.
Defined.

End FallbackFacts.
(** ** The biography manager: what its rows show *)

Module BioGroupFacts.
Import JS JSString Arrays ArrayFacts BioManager BioGroups.

(** *** The [Map] of groups *)

Lemma Map_get_key k m g : Map_get k m = Some g -> key g = k.
Proof.
  induction m as [|x m IH]; simpl; [discriminate|].
  destruct (String.eqb_spec (key x) k) as [E|_]; [|exact IH].
  intros H. injection H as <-. exact E.
Qed.

Lemma Map_get_In k m g : Map_get k m = Some g -> In g m.
Proof.
  induction m as [|x m IH]; simpl; [discriminate|].
  destruct (String.eqb (key x) k); [|auto].
  intros H. injection H as <-. now left.
Qed.

Lemma Map_get_None k m : Map_get k m = None -> ~ In k (map key m).
Proof.
  induction m as [|x m IH]; simpl; [tauto|].
  destruct (String.eqb_spec (key x) k) as [E|Hne]; [discriminate|].
  intros H [Hx|Hin]; [contradiction | now apply IH].
Qed.

Lemma Map_get_of_In m g : NoDup (map key m) -> In g m -> Map_get (key g) m = Some g.
Proof.
  induction m as [|x m IH]; simpl; intros Hnd Hin; [contradiction|].
  inversion Hnd as [|? ? Hx Hm]; subst. destruct Hin as [->|Hin].
  - now rewrite String.eqb_refl.
  - destruct (String.eqb_spec (key x) (key g)) as [E|_]; [|now apply IH].
    exfalso. apply Hx. rewrite E. now apply in_map.
Qed.

Lemma Map_mutate_keys k g' m : key g' = k -> map key (Map_mutate k g' m) = map key m.
Proof.
  intros Hk. induction m as [|x m IH]; simpl; [reflexivity|].
  destruct (String.eqb_spec (key x) k) as [E|_]; simpl; [congruence | now rewrite IH].
Qed.

Lemma Map_get_mutate k k' g' m g :
  Map_get k m = Some g -> key g' = k ->
  Map_get k' (Map_mutate k g' m) = if String.eqb k k' then Some g' else Map_get k' m.
Proof.
  intros Hg Hk. induction m as [|x m IH]; simpl in *; [discriminate|].
  destruct (String.eqb_spec (key x) k) as [E|Hne]; simpl.
  - rewrite Hk, E. now destruct (String.eqb k k').
  - destruct (String.eqb_spec (key x) k') as [E'|_]; [|now apply IH].
    destruct (String.eqb_spec k k') as [->|_]; [contradiction | reflexivity].
Qed.

Lemma Map_get_push k k' g' m :
  Map_get k m = None -> key g' = k ->
  Map_get k' (push m g') = if String.eqb k k' then Some g' else Map_get k' m.
Proof.
  intros Hg Hk. unfold push. induction m as [|x m IH]; simpl in *.
  - now rewrite Hk.
  - destruct (String.eqb_spec (key x) k) as [E|Hne]; [discriminate|].
    destruct (String.eqb_spec (key x) k') as [E'|_]; [|now apply IH].
    destruct (String.eqb_spec k k') as [->|_]; [contradiction | reflexivity].
Qed.

Lemma find_ext {A : Type} (f g : A -> bool) (l : list A) :
  (forall x, f x = g x) -> List.find f l = List.find g l.
Proof.
  intros H. induction l as [|x l IH]; simpl; [reflexivity|].
  rewrite H, IH. reflexivity.
Qed.

(** *** Sorting by a time, latest first *)

Section ByTime.

Context {A : Type} (time : A -> Z).

Definition latest_first (a b : A) : Prop := (time b <= time a)%Z.

Lemma sort_insert_latest_first x l :
  StronglySorted latest_first l ->
  StronglySorted latest_first (sort_insert (fun a b => (time b - time a)%Z) x l).
Proof.
  unfold latest_first. induction l as [|y l IH]; intros Hs; simpl.
  - repeat constructor.
  - inversion Hs as [|? ? Hl Hy]; subst.
    destruct (Z.ltb_spec (time y - time x) 0) as [Hlt|Hge].
    + constructor; [exact Hs|]. constructor; [lia|].
      eapply Forall_impl; [|exact Hy]. simpl. intros z Hz. lia.
    + constructor; [now apply IH|].
      rewrite (sort_insert_Permutation _ x l). constructor; [lia | exact Hy].
Qed.

Lemma sort_latest_first l :
  StronglySorted latest_first (sort (fun a b => (time b - time a)%Z) l).
Proof.
  unfold sort. assert (H : StronglySorted latest_first []) by constructor.
  revert H. generalize (@nil A). induction l as [|x l IH]; intros acc Hacc; simpl.
  - exact Hacc.
  - apply IH. now apply sort_insert_latest_first.
Qed.

End ByTime.

Section Dates.

Variable Date_getTime : string -> option Z.

#[local] Abbreviation dateVal := (dateVal Date_getTime).
#[local] Abbreviation item_time := (item_time Date_getTime).
#[local] Abbreviation absorb := (absorb Date_getTime).
#[local] Abbreviation add_item := (add_item Date_getTime).
#[local] Abbreviation groups := (groups Date_getTime).
#[local] Abbreviation rows_of_group := (rows_of_group Date_getTime).
#[local] Abbreviation rows := (rows Date_getTime).

(** The loop over the items, before the sort. *)
Definition collected (items : list BioItem) : list BioGroup :=
  fold_left add_item items [].

Lemma add_item_keys m it :
  map key (add_item m it)
  = match Map_get (group_key it) m with
    | Some _ => map key m
    | None => (map key m ++ [group_key it])%list
    end.
Proof.
  unfold BioGroups.add_item. destruct (Map_get (group_key it) m) as [g|] eqn:E.
  - apply Map_mutate_keys. simpl. now apply Map_get_key in E.
  - unfold push. now rewrite map_app.
Qed.

Lemma add_item_NoDup m it : NoDup (map key m) -> NoDup (map key (add_item m it)).
Proof.
  intros H. rewrite add_item_keys.
  destruct (Map_get (group_key it) m) as [g|] eqn:E; [exact H|].
  apply Map_get_None in E.
  apply NoDup_rev in H. rewrite <- rev_involutive. apply NoDup_rev.
  rewrite rev_app_distr. simpl. constructor; [|exact H].
  now rewrite <- in_rev.
Qed.

Lemma fold_add_item_NoDup items : forall m,
  NoDup (map key m) -> NoDup (map key (fold_left add_item items m)).
Proof.
  induction items as [|it items IH]; intros m H; simpl; [exact H|].
  apply IH. now apply add_item_NoDup.
Qed.

(** The item belongs to the group with key [k]. *)
Definition in_group (k : string) (it : BioItem) : bool := String.eqb (group_key it) k.

(** What one item does to the group stored under [k]. *)
Definition step (k : string) (r : option BioGroup) (it : BioItem) : option BioGroup :=
  if in_group k it then Some (absorb it (default (mkGroup k None None 0) r)) else r.

Lemma Map_get_add_item k m it : Map_get k (add_item m it) = step k (Map_get k m) it.
Proof.
  unfold BioGroups.add_item, step, in_group.
  destruct (Map_get (group_key it) m) as [g|] eqn:E.
  - rewrite (Map_get_mutate (group_key it) k _ m g E)
      by (simpl; now apply Map_get_key in E).
    destruct (String.eqb_spec (group_key it) k) as [<-|_]; [|reflexivity].
    now rewrite E.
  - rewrite (Map_get_push (group_key it) k _ m E) by reflexivity.
    destruct (String.eqb_spec (group_key it) k) as [<-|_]; [|reflexivity].
    now rewrite E.
Qed.

Lemma Map_get_fold k items : forall m,
  Map_get k (fold_left add_item items m) = fold_left (step k) items (Map_get k m).
Proof.
  induction items as [|it items IH]; intros m; simpl; [reflexivity|].
  now rewrite IH, Map_get_add_item.
Qed.

Lemma find_snoc {A : Type} (f : A -> bool) (l : list A) (x : A) :
  List.find f (l ++ [x])%list
  = match List.find f l with Some y => Some y | None => if f x then Some x else None end.
Proof.
  induction l as [|y l IH]; simpl; [reflexivity|].
  destruct (f y); [reflexivity | exact IH].
Qed.

(** The last item of [items] that satisfies [f]. *)
Definition last_such (f : BioItem -> bool) (items : list BioItem) : option BioItem :=
  List.find f (rev items).

Lemma last_such_cons f x items :
  last_such f (x :: items)
  = match last_such f items with Some y => Some y | None => if f x then Some x else None end.
Proof. unfold last_such. simpl. apply find_snoc. Qed.

Lemma last_such_In f items it : last_such f items = Some it -> In it items /\ f it = true.
Proof.
  unfold last_such. intros H. apply find_some in H as [Hin Hf].
  split; [now apply in_rev | exact Hf].
Qed.

Lemma fold_step_advanced k items : forall r,
  fold_left (step k) items r ≫= advanced
  = match last_such (fun it => in_group k it && isAdvanced it) items with
    | Some it => Some it
    | None => r ≫= advanced
    end.
Proof.
  induction items as [|x items IH]; intros r; [reflexivity|].
  simpl fold_left. rewrite IH, last_such_cons.
  destruct (last_such _ items); [reflexivity|].
  unfold step. destruct (in_group k x); simpl; [|reflexivity].
  destruct (isAdvanced x); [reflexivity|]. now destruct r.
Qed.

Lemma fold_step_simple k items : forall r,
  fold_left (step k) items r ≫= simple
  = match last_such (fun it => in_group k it && negb (isAdvanced it)) items with
    | Some it => Some it
    | None => r ≫= simple
    end.
Proof.
  induction items as [|x items IH]; intros r; [reflexivity|].
  simpl fold_left. rewrite IH, last_such_cons.
  destruct (last_such _ items); [reflexivity|].
  unfold step. destruct (in_group k x); simpl; [|reflexivity].
  destruct (isAdvanced x); [|reflexivity]. now destruct r.
Qed.

Lemma fold_step_None k items : forall r,
  fold_left (step k) items r = None ->
  r = None /\ Forall (fun it => in_group k it = false) items.
Proof.
  induction items as [|x items IH]; intros r H; simpl in H; [now split|].
  apply IH in H as [Hr Hall]. unfold step in Hr.
  destruct (in_group k x) eqn:E; [discriminate|]. split; [exact Hr|].
  constructor; [exact E | exact Hall].
Qed.

(** The time of a group that may not exist yet. *)
Definition time_of (r : option BioGroup) : Z := default 0%Z (sortTime <$> r).

Lemma fold_step_time k items : forall r,
  time_of (fold_left (step k) items r)
  = fold_left Z.max (map item_time (List.filter (in_group k) items)) (time_of r).
Proof.
  induction items as [|x items IH]; intros r; [reflexivity|].
  cbn [fold_left List.filter]. rewrite IH. unfold step.
  destruct (in_group k x); [|reflexivity]. simpl. now destruct r.
Qed.

Lemma fold_step_skip k items : forall r,
  Forall (fun it => in_group k it = false) items -> fold_left (step k) items r = r.
Proof.
  induction items as [|x items IH]; intros r H; [reflexivity|].
  inversion H as [|? ? Hx Hall]; subst. cbn [fold_left]. unfold step at 2. rewrite Hx.
  now apply IH.
Qed.

Lemma fold_step_Some k items g :
  fold_left (step k) items None = Some g -> exists it, In it items /\ group_key it = k.
Proof.
  intros H. destruct (existsb (in_group k) items) eqn:E.
  - apply existsb_exists in E as (it & Hin & Hk). exists it. split; [exact Hin|].
    now apply String.eqb_eq in Hk.
  - rewrite fold_step_skip in H; [discriminate|].
    apply Forall_forall. intros it Hin.
    destruct (in_group k it) eqn:Hk; [|reflexivity].
    rewrite <- E. symmetry. apply existsb_exists. now exists it.
Qed.

Lemma fold_max_bounds (ts : list Z) : forall t0,
  let t := fold_left Z.max ts t0 in
  (t0 <= t)%Z /\ Forall (fun x => (x <= t)%Z) ts /\ (t = t0 \/ In t ts).
Proof.
  induction ts as [|x ts IH]; intros t0; simpl.
  - split; [lia|]. split; [constructor | now left].
  - destruct (IH (Z.max t0 x)) as (H0 & Hall & Hin). split; [lia|]. split.
    + constructor; [lia | exact Hall].
    + destruct Hin as [Heq|Hin]; [|right; now right].
      rewrite Heq. destruct (Z.max_spec t0 x) as [[_ E]|[_ E]]; rewrite E.
      * right. now left.
      * now left.
Qed.

Lemma collected_group items g :
  In g (collected items) -> fold_left (step (key g)) items None = Some g.
Proof.
  intros Hin. unfold collected in Hin.
  rewrite <- (Map_get_of_In _ g (fold_add_item_NoDup items [] (NoDup_nil _)) Hin).
  now rewrite Map_get_fold.
Qed.

Lemma groups_Permutation items : Permutation (groups items) (collected items).
Proof. apply sort_Permutation. Qed.

Lemma groups_In items g : In g (groups items) <-> In g (collected items).
Proof.
  split; apply Permutation_in; [|symmetry]; apply groups_Permutation.
Qed.

Lemma group_slots items g :
  In g (groups items) ->
  advanced g = last_such (fun it => in_group (key g) it && isAdvanced it) items /\
  simple g = last_such (fun it => in_group (key g) it && negb (isAdvanced it)) items.
Proof.
  intros Hin. apply groups_In, collected_group in Hin.
  pose proof (fold_step_advanced (key g) items None) as Ha.
  pose proof (fold_step_simple (key g) items None) as Hs.
  rewrite Hin in Ha, Hs. simpl in Ha, Hs. split.
  - rewrite Ha. clear. now destruct (last_such _ items).
  - rewrite Hs. clear. now destruct (last_such _ items).
Qed.

Lemma group_of_item items it :
  In it items -> exists g, In g (groups items) /\ key g = group_key it.
Proof.
  intros Hin.
  destruct (Map_get (group_key it) (collected items)) as [g|] eqn:E.
  - exists g. split; [apply groups_In; now apply Map_get_In in E | now apply Map_get_key in E].
  - unfold collected in E. rewrite Map_get_fold in E.
    apply fold_step_None in E as [_ Hall]. rewrite Forall_forall in Hall.
    specialize (Hall it Hin). unfold in_group in Hall.
    now rewrite String.eqb_refl in Hall.
Qed.

(** The groups of the biography manager partition the items by group key
    (the trimmed [groupKey], or ["fallback:" + id] when that is empty): no
    two groups share a key, every item's key has its group, every group
    holds an item, and the advanced (simple) slot of a group holds the last
    advanced (simple) item of its key in the list, so that of several items
    of one kind under one key only the last is shown. *)
Theorem groups_partition_items (items : list BioItem) :
  NoDup (map key (groups items)) /\
  (forall it, In it items -> In (group_key it) (map key (groups items))) /\
  (forall g, In g (groups items) ->
     (exists it, In it items /\ group_key it = key g) /\
     advanced g = last_such (fun it => in_group (key g) it && isAdvanced it) items /\
     simple g = last_such (fun it => in_group (key g) it && negb (isAdvanced it)) items).
Proof.
  split; [|split].
  - eapply Permutation_NoDup.
    + apply Permutation_map. symmetry. apply groups_Permutation.
    + apply fold_add_item_NoDup. constructor.
  - intros it Hin. destruct (group_of_item items it Hin) as (g & Hg & Hk).
    rewrite <- Hk. now apply in_map.
  - intros g Hin. split; [|now apply group_slots].
    apply groups_In, collected_group in Hin.
    now apply (fold_step_Some (key g) items g).
Qed.

(** The groups are listed latest first: no group stands before one with a
    greater [sortTime], and the [sortTime] of a group is the greatest of 0
    and the times of its items, the time of an item being the later of its
    [createdAt] and [updatedAt] (0 for a missing or unreadable date). *)
Theorem groups_latest_first (items : list BioItem) :
  StronglySorted (latest_first sortTime) (groups items) /\
  (forall g, In g (groups items) ->
     (0 <= sortTime g)%Z /\
     (forall it, In it items -> group_key it = key g -> (item_time it <= sortTime g)%Z) /\
     (sortTime g = 0%Z \/
      exists it, In it items /\ group_key it = key g /\ item_time it = sortTime g)).
Proof.
  split; [apply (sort_latest_first sortTime)|].
  intros g Hin. apply groups_In, collected_group in Hin.
  pose proof (fold_step_time (key g) items None) as Ht. rewrite Hin in Ht.
  change (time_of (Some g)) with (sortTime g) in Ht. change (time_of None) with 0%Z in Ht.
  destruct (fold_max_bounds (map item_time (List.filter (in_group (key g)) items)) 0)
    as (H0 & Hall & Hex).
  rewrite <- Ht in H0, Hall, Hex. split; [exact H0|]. split.
  - intros it Hit Hk. rewrite Forall_forall in Hall. apply Hall.
    apply in_map. apply filter_In. split; [exact Hit|]. now apply String.eqb_eq.
  - destruct Hex as [Hz|Hex]; [now left|]. right.
    apply in_map_iff in Hex as (it & Hti & Hit). apply filter_In in Hit as [Hit Hk].
    exists it. split; [exact Hit|]. split; [now apply String.eqb_eq | exact Hti].
Qed.

(** *** The rows *)

Lemma rows_Permutation items :
  Permutation (rows items) (flat_map rows_of_group (groups items)).
Proof. apply sort_Permutation. Qed.

Lemma rows_of_group_In g r :
  In r (rows_of_group g) ->
  row_group r = g /\ row_sortTime r = item_time (row_item r) /\
  (row_mode r = ModeAdvanced /\ advanced g = Some (row_item r) \/
   row_mode r = ModeSimple /\ simple g = Some (row_item r)).
Proof.
  unfold BioGroups.rows_of_group. intros H. apply in_app_or in H as [H|H].
  - destruct (advanced g) as [a|]; [|contradiction]. destruct H as [<-|[]].
    simpl. split; [reflexivity|]. split; [reflexivity|]. now left.
  - destruct (simple g) as [b|]; [|contradiction]. destruct H as [<-|[]].
    simpl. split; [reflexivity|]. split; [reflexivity|]. now right.
Qed.

Definition slots (m : list BioGroup) : nat := length (flat_map rows_of_group m).

Lemma slots_absorb it g :
  (length (rows_of_group (absorb it g)) <= S (length (rows_of_group g)))%nat.
Proof.
  unfold BioGroups.rows_of_group, BioGroups.absorb. simpl.
  destruct (isAdvanced it), (advanced g), (simple g); simpl; lia.
Qed.

Lemma slots_mutate k g g' m :
  Map_get k m = Some g ->
  (length (rows_of_group g') <= S (length (rows_of_group g)))%nat ->
  (slots (Map_mutate k g' m) <= S (slots m))%nat.
Proof.
  unfold slots. intros Hg Hle. induction m as [|x m IH]; simpl in *; [discriminate|].
  destruct (String.eqb (key x) k).
  - injection Hg as ->. simpl. rewrite !length_app. lia.
  - simpl. rewrite !length_app. specialize (IH Hg). lia.
Qed.

Lemma slots_add_item m it : (slots (add_item m it) <= S (slots m))%nat.
Proof.
  unfold BioGroups.add_item. destruct (Map_get (group_key it) m) as [g|] eqn:E.
  - apply (slots_mutate _ g _ m E). apply slots_absorb.
  - unfold slots, push. rewrite flat_map_app, length_app. simpl. rewrite app_nil_r.
    pose proof (slots_absorb it (mkGroup (group_key it) None None 0)) as H.
    simpl in H. lia.
Qed.

Lemma slots_fold items : forall m,
  (slots (fold_left add_item items m) <= length items + slots m)%nat.
Proof.
  induction items as [|it items IH]; intros m; simpl; [lia|].
  specialize (IH (add_item m it)). pose proof (slots_add_item m it). lia.
Qed.

(** The rows of the biography manager show, for every group key and each
    of the two kinds, the last item of that key and kind in the list, and
    nothing else: every row carries such an item together with its group
    and the item's time, every such item has its row, there are never more
    rows than items, and the rows are listed latest first. *)
Theorem rows_show_last_item_of_each_kind (items : list BioItem) :
  StronglySorted (latest_first row_sortTime) (rows items) /\
  (forall r, In r (rows items) ->
     In (row_group r) (groups items) /\
     row_sortTime r = item_time (row_item r) /\
     last_such (fun it => in_group (key (row_group r)) it &&
                          Bool.eqb (isAdvanced it)
                                   (match row_mode r with ModeAdvanced => true | ModeSimple => false end))
               items = Some (row_item r)) /\
  (forall k adv it,
     last_such (fun it => in_group k it && Bool.eqb (isAdvanced it) adv) items = Some it ->
     exists r, In r (rows items) /\ row_item r = it /\ key (row_group r) = k /\
               row_mode r = if adv then ModeAdvanced else ModeSimple) /\
  (length (rows items) <= length items)%nat.
Proof.
  assert (Heqb_t : forall k l, last_such (fun it => in_group k it && Bool.eqb (isAdvanced it) true) l
                               = last_such (fun it => in_group k it && isAdvanced it) l).
  { intros k l. unfold last_such. apply find_ext. intros it. now destruct (isAdvanced it). }
  assert (Heqb_f : forall k l, last_such (fun it => in_group k it && Bool.eqb (isAdvanced it) false) l
                               = last_such (fun it => in_group k it && negb (isAdvanced it)) l).
  { intros k l. unfold last_such. apply find_ext. intros it. now destruct (isAdvanced it). }
  split; [apply (sort_latest_first row_sortTime)|]. split; [|split].
  - intros r Hr. apply (Permutation_in _ (rows_Permutation items)) in Hr.
    apply in_flat_map in Hr as (g & Hg & Hr).
    apply rows_of_group_In in Hr as (-> & Ht & Hslot).
    split; [exact Hg|]. split; [exact Ht|].
    destruct (group_slots items g Hg) as [Ha Hs].
    destruct Hslot as [[-> Hslot]|[-> Hslot]].
    + now rewrite Heqb_t, <- Ha.
    + now rewrite Heqb_f, <- Hs.
  - intros k adv it Hlast.
    assert (Hit : In it items /\ group_key it = k).
    { apply last_such_In in Hlast as [Hin Hf]. split; [exact Hin|].
      apply andb_true_iff in Hf as [Hf _]. now apply String.eqb_eq in Hf. }
    destruct Hit as [Hin Hk]. destruct (group_of_item items it Hin) as (g & Hg & Hgk).
    subst k. rewrite <- Hgk in Hlast |- *. destruct (group_slots items g Hg) as [Ha Hs].
    destruct adv.
    + rewrite Heqb_t, <- Ha in Hlast.
      exists (mkRow (key g ++ "-adv-" ++ pretty (id it)) g it ModeAdvanced (item_time it)).
      split; [|repeat split].
      apply (Permutation_in _ (Permutation_sym (rows_Permutation items))).
      apply in_flat_map. exists g. split; [exact Hg|].
      unfold BioGroups.rows_of_group. rewrite Hlast. now left.
    + rewrite Heqb_f, <- Hs in Hlast.
      exists (mkRow (key g ++ "-sim-" ++ pretty (id it)) g it ModeSimple (item_time it)).
      split; [|repeat split].
      apply (Permutation_in _ (Permutation_sym (rows_Permutation items))).
      apply in_flat_map. exists g. split; [exact Hg|].
      unfold BioGroups.rows_of_group. rewrite Hlast. apply in_or_app. right. now left.
  - rewrite (Permutation_length (rows_Permutation items)).
    rewrite (Permutation_length
               (Permutation_flat_map rows_of_group (groups_Permutation items))).
    pose proof (slots_fold items []) as H. unfold slots in H. simpl in H.
    unfold collected. lia.
Qed.

End Dates.

(** Three records of one user: two advanced ones under the key "g1" (with
    spaces around it in the second) and a simple one without a key. *)
Definition sample_clock (iso : string) : option Z :=
  if String.eqb iso "2024-01-01" then Some 1%Z
  else if String.eqb iso "2024-01-02" then Some 2%Z
  else if String.eqb iso "2024-01-03" then Some 3%Z
  else None.

Definition sample_item (i : Z) (k : string) (adv : bool) (created : string) : BioItem :=
  mkBioItem i 7 k adv "Showroom" "Cars" None (Some created) None.

(** Only the second of the two advanced records under "g1" gets a row, and
    the simple record, filed under "fallback:3", comes first as the
    latest. *)
Example rows_hide_earlier_item_of_a_kind :
  map (fun r => (row_key r, id (row_item r)))
      (rows sample_clock [sample_item 1 "g1" true "2024-01-01";
                          sample_item 2 " g1 " true "2024-01-02";
                          sample_item 3 "" false "2024-01-03"])
  = [("fallback:3-sim-3", 3%Z); ("g1-adv-2", 2%Z)].
Proof. vm_compute. reflexivity. Qed.

End BioGroupFacts.
(** ** [formatFromMillionInput] on negative amounts *)

Module SignFacts.
Import JS JSFacts Price.

Lemma abs_opp v : Math_abs (- v)%float = Math_abs v.
Proof.
  apply Prim2SF_inj. unfold Math_abs. rewrite !abs_spec, opp_spec.
  now destruct (Prim2SF v).
Qed.

Lemma is_nan_opp v : PrimFloat.is_nan (- v)%float = PrimFloat.is_nan v.
Proof.
  unfold PrimFloat.is_nan. rewrite !FloatAxioms.eqb_spec, opp_spec.
  destruct (Prim2SF v) as [s|s| |s m e]; try reflexivity; try (destruct s; reflexivity).
  unfold SFeqb, SFopp, SFcompare.
  destruct s; simpl; rewrite Z.compare_refl, Pos.compare_cont_refl; reflexivity.
Qed.

Lemma isFinite_opp v : Number_isFinite (- v)%float = Number_isFinite v.
Proof.
  unfold Number_isFinite, PrimFloat.is_finite, PrimFloat.is_infinity.
  rewrite is_nan_opp. change (PrimFloat.abs (- v)) with (Math_abs (- v)).
  now rewrite abs_opp.
Qed.

Lemma float_pos_opp_neg v : (0 <? v)%float = true -> (- v <? 0)%float = true.
Proof.
  rewrite !ltb_spec, opp_spec.
  change (Prim2SF 0) with (S754_zero false).
  destruct (Prim2SF v) as [s| s | |s m e]; try destruct s;
    unfold SFltb, SFopp, SFcompare; simpl; congruence.
Qed.

(** A negative amount is written as the positive one with a minus sign in
    front; when the amount rounds to nothing, both are written as zero
    toman, without a sign. *)
Theorem formatFromMillionInput_negative (v : float) :
  Number_isFinite v = true -> (0 <? v)%float = true ->
  (formatFromMillionInput v = "۰ تومان" /\ formatFromMillionInput (- v) = "۰ تومان") \/
  formatFromMillionInput (- v) = "-" ++ formatFromMillionInput v.
Proof.
  intros Hfin Hpos. unfold formatFromMillionInput.
  rewrite isFinite_opp, Hfin, abs_opp, (float_pos_opp_neg v Hpos), (float_pos_not_lt v Hpos).
  cbv zeta. cbn [negb].
  repeat match goal with
         | |- context [if ?c then _ else _] => destruct c
         end;
    first [ right; reflexivity | left; split; reflexivity ].
Qed.

Lemma formatFromMillionInput_negative_witness :
  formatFromMillionInput (- 2500.75)%float = "-" ++ formatFromMillionInput 2500.75%float.
Proof.
  destruct (formatFromMillionInput_negative 2500.75%float eq_refl eq_refl) as [[H _]|H].
  - vm_compute in H. discriminate H.
  - exact H.
Defined.

End SignFacts.
(** ** Raw flags, owner lookups and the lifetime of the profile handlers *)

Module LifecycleFacts.
Import JS JSString Value.

(** *** [toBool] *)

(** [toBool] reads a number as [true] exactly when it is 11: the literal
    the function compares with is 11, not 1, so the number 1 falls through
    to the text comparison and comes out [false] (the string "1" is read as
    [true]). This holds for every number whose text, trimmed and in lower
    case, is neither "true" nor "yes", as the text of a number never is. *)
Theorem toBool_reads_number_as_true_only_for_11
    (Number_toString : float -> string) (String_toLowerCase : string -> string) (n : float) :
  String_toLowerCase (trim (Number_toString n)) <> "true" ->
  String_toLowerCase (trim (Number_toString n)) <> "yes" ->
  BioNormalize.toBool Number_toString String_toLowerCase (VNum n) = Normal (n =? 11)%float /\
  BioNormalize.toBool Number_toString String_toLowerCase (VStr "1") = Normal true.
Proof.
  intros Ht Hy. split; [|reflexivity].
  unfold BioNormalize.toBool. simpl.
  destruct (n =? 11)%float; [reflexivity|]. simpl.
  destruct (n =? 0)%float; [reflexivity|]. simpl.
  apply String.eqb_neq in Ht, Hy. now rewrite Ht, Hy.
Qed.

Lemma toBool_reads_number_as_true_only_for_11_witness :
  BioNormalize.toBool integral_toString (fun s => s) (VNum 1) = Normal false /\
  BioNormalize.toBool integral_toString (fun s => s) (VStr "1") = Normal true.
Proof.
  apply (toBool_reads_number_as_true_only_for_11 integral_toString (fun s => s) 1%float).
  - vm_compute. discriminate.
  - vm_compute. discriminate.
Defined.

(** *** [fetchUser] *)

Section Users.
Import HomeUsers.

(** How often the lookup of [u] was rejected in a run. *)
Definition rejections (u : Z) (events : list event) : nat :=
  length (List.filter (fun e => match e with UserRejected v => (v =? u)%Z | _ => false end)
                      events).

(** How often [u] was requested. *)
Definition requested (u : Z) (s : State) : nat := count_occ Z.eq_dec (requests s) u.

(** [u] was requested at most [n + 1] times, and at most [n] times when its
    id is not in [fetchedUserIds]. *)
Definition within (u : Z) (n : nat) (s : State) : Prop :=
  (requested u s <= S n)%nat /\ (u ∉ fetchedUserIds s -> (requested u s <= n)%nat).

Lemma count_occ_push (l : list Z) (x u : Z) :
  count_occ Z.eq_dec (push l x) u
  = (count_occ Z.eq_dec l u + if (x =? u)%Z then 1 else 0)%nat.
Proof.
  unfold push. rewrite count_occ_app. simpl.
  destruct (Z.eq_dec x u) as [->|Hne].
  - now rewrite Z.eqb_refl.
  - apply Z.eqb_neq in Hne. now rewrite Hne.
Qed.

Lemma fetchUser_within u n v s : within u n s -> within u n (fetchUser v s).
Proof.
  unfold within, requested, fetchUser. intros [H1 H2].
  destruct (bool_decide (v ∈ fetchedUserIds s)) eqn:E; [now split|].
  apply bool_decide_eq_false in E. simpl. rewrite count_occ_push.
  destruct (Z.eqb_spec v u) as [->|Hne].
  - specialize (H2 E). split; [lia|]. intros Hnot. exfalso. apply Hnot. set_solver.
  - split; [lia|]. intros Hnot. rewrite Nat.add_0_r. apply H2. set_solver.
Qed.

Lemma loadAds_within u n list s : within u n s -> within u n (loadAds_fetchUsers list s).
Proof.
  unfold loadAds_fetchUsers. generalize (Set_from (map Ad.userId list) []). intros us.
  revert s. induction us as [|v us IH]; intros s H; simpl; [exact H|].
  apply IH. now apply fetchUser_within.
Qed.

Lemma run_within u events : forall s n,
  within u n s -> within u (n + rejections u events) (run events s).
Proof.
  induction events as [|e events IH]; intros s n H; simpl.
  - unfold rejections. simpl. now rewrite Nat.add_0_r.
  - destruct e as [list|v data|v].
    + apply (IH _ n). now apply loadAds_within.
    + apply (IH _ n). exact H.
    + unfold rejections. simpl. destruct (Z.eqb_spec v u) as [->|Hne]; simpl.
      * replace (n + S (length (List.filter _ events)))%nat
          with (S n + rejections u events)%nat by (unfold rejections; lia).
        apply IH. destruct H as [H1 H2]. split; [simpl; unfold requested in *; simpl; lia|].
        intros _. exact H1.
      * apply (IH _ n). destruct H as [H1 H2]. split; [exact H1|].
        intros Hnot. apply H2. simpl in Hnot. set_solver.
Qed.

(** The home page looks every ad owner up at most once, however often the
    ads are reloaded, plus once more for each time the lookup of that
    owner failed: in a run of loads, answers and failures that starts on
    the fresh page, the number of requests for a user never exceeds one plus
    the number of its rejected lookups. *)
Theorem owner_requested_once_per_failure (u : Z) (events : list event) :
  (requested u (run events initial) <= 1 + rejections u events)%nat.
Proof.
  assert (H : within u 0 initial).
  { split; [unfold requested; simpl; lia|]. intros _. unfold requested. simpl. lia. }
  apply (run_within u events initial 0) in H. destruct H as [H _]. simpl in H. lia.
Qed.

End Users.

(** Two loads of the same two ads of user 7 issue one request; when it
    fails, the next load issues a second one. *)
Example owner_lookup_retried_after_failure :
  HomeUsers.requests
    (HomeUsers.run [HomeUsers.AdsLoaded [ProfileFacts.adA; ProfileFacts.adB];
                    HomeUsers.AdsLoaded [ProfileFacts.adA; ProfileFacts.adB]]
                   HomeUsers.initial) = [7%Z] /\
  HomeUsers.requests
    (HomeUsers.run [HomeUsers.AdsLoaded [ProfileFacts.adA; ProfileFacts.adB];
                    HomeUsers.UserRejected 7;
                    HomeUsers.AdsLoaded [ProfileFacts.adA; ProfileFacts.adB]]
                   HomeUsers.initial) = [7%Z; 7%Z].
Proof. split; reflexivity. Qed.

(** *** The handlers of the profile page outliving the page *)

Section Effect.
Import ProfileEffect.

Lemma over_is_final s e :
  at_phase s = Over -> cleaned s = true -> step s e = s.
Proof.
  intros Hp Hc. destruct s as [p a u r j l c]. simpl in *. subst.
  destruct e as [[]|[]|]; reflexivity.
Qed.

Lemma run_over_is_final events : forall s,
  at_phase s = Over -> cleaned s = true -> run events s = s.
Proof.
  induction events as [|e events IH]; intros s Hp Hc; simpl; [reflexivity|].
  rewrite (over_is_final s e Hp Hc). now apply IH.
Qed.

Lemma left_early_stays_unregistered events : forall s,
  at_phase s <> AwaitingJoin -> alive s = false -> cleaned s = true ->
  registered (run events s) = registered s /\ joins (run events s) = joins s /\
  leaves (run events s) = leaves s.
Proof.
  induction events as [|e events IH]; intros s Hp Ha Hc; simpl; [auto|].
  destruct s as [p a u r j l c]. simpl in *. subst.
  destruct e as [[]|[]|], p; try contradiction; simpl; apply IH; simpl; congruence.
Qed.

(** The handlers of the profile page can outlive it. When the page is left
    (or its effect re-run) while [joinProfile] is in flight, the cleanup
    finds no [unsub] yet and removes nothing; the join then completes, the
    seven handlers are registered, and nothing ever removes them. Left
    before the connection is up, the page registers nothing and never
    calls [joinProfile], yet still calls [leaveProfile]; left after the
    registration, it removes its handlers. *)
Theorem profile_handlers_leak_when_left_during_join (later : list event) :
  registered (run (StartSettled true :: Cleanup :: JoinSettled true :: later) mounted) = true /\
  (let s := run (Cleanup :: later) mounted in
   registered s = false /\ joins s = 0%nat /\ leaves s = 1%nat) /\
  registered (run (StartSettled true :: JoinSettled true :: Cleanup :: later) mounted) = false.
Proof.
  split; [|split].
  - simpl. now rewrite run_over_is_final.
  - cbv zeta. simpl.
    apply (left_early_stays_unregistered later
             (mkState AwaitingStart false false false 0 1 true)); simpl; congruence.
  - simpl. now rewrite run_over_is_final.
Qed.

End Effect.

End LifecycleFacts.
(** ** The three pages label the same codes *)

Module LabelFacts.
Import JS JSString Labels.

(** *** The text of an integer *)

(** A decimal digit or the minus sign. *)
Definition numeric_char (a : ascii) : bool :=
  let n := nat_of_ascii a in ((48 <=? n) && (n <=? 57) || (n =? 45))%nat.

Fixpoint numeric (s : string) : bool :=
  match s with
  | EmptyString => true
  | String a rest => numeric_char a && numeric rest
  end.

Lemma pretty_N_char_numeric x : numeric_char (pretty_N_char x) = true.
Proof.
  unfold pretty_N_char.
  repeat match goal with
         | |- context [match ?p with _ => _ end] => destruct p
         end; reflexivity.
Qed.

Lemma pretty_N_go_numeric x : forall s, numeric s = true -> numeric (pretty_N_go x s) = true.
Proof.
  induction (N.lt_wf_0 x) as [x _ IH]. intros s Hs.
  destruct (N.eq_dec x 0) as [->|Hne].
  - now rewrite pretty_N_go_0.
  - rewrite pretty_N_go_step by lia. apply IH.
    + apply N.div_lt; lia.
    + simpl. now rewrite pretty_N_char_numeric.
Qed.

Lemma pretty_N_numeric (x : N) : numeric (pretty x) = true.
Proof.
  unfold pretty, pretty_N. destruct (decide (x = 0%N)); [reflexivity|].
  now apply pretty_N_go_numeric.
Qed.

Lemma pretty_Z_numeric (z : Z) : numeric (pretty z) = true.
Proof.
  destruct z as [|p|p].
  - reflexivity.
  - apply (pretty_N_numeric (Npos p)).
  - change (pretty (Zneg p)) with (String "-" (pretty (Npos p))).
    simpl. apply (pretty_N_numeric (Npos p)).
Qed.

(** *** White space *)

Lemma numeric_char_plain a :
  numeric_char a = true ->
  is_ws1 (nat_of_ascii a) = false /\
  (forall b, is_ws2 (nat_of_ascii a) b = false) /\
  (forall b c, is_ws3 (nat_of_ascii a) b c = false).
Proof.
  unfold numeric_char, is_ws1, is_ws2, is_ws3. generalize (nat_of_ascii a). intros n H.
  assert (Hn : (48 <= n <= 57 \/ n = 45)%nat).
  { apply orb_true_iff in H as [H|H].
    - apply andb_true_iff in H as [H1 H2]. apply Nat.leb_le in H1, H2. lia.
    - apply Nat.eqb_eq in H. lia. }
  assert (E : forall k, (k < 45 \/ 57 < k)%nat -> (n =? k)%nat = false).
  { intros k Hk. apply Nat.eqb_neq. lia. }
  split; [|split].
  - rewrite (E 32%nat) by lia. rewrite orb_false_r.
    destruct (Nat.leb_spec 9 n), (Nat.leb_spec n 13); simpl; try reflexivity. lia.
  - intros b. now rewrite (E 194%nat) by lia.
  - intros b c. now rewrite (E 225%nat), (E 226%nat), (E 227%nat), (E 239%nat) by lia.
Qed.

Lemma remove_whitespace_cons a rest :
  numeric_char a = true ->
  remove_whitespace (String a rest) = String a (remove_whitespace rest).
Proof.
  intros H. destruct (numeric_char_plain a H) as (H1 & H2 & H3).
  destruct rest as [|b [|c rest]]; cbn [remove_whitespace]; rewrite H1, ?H2, ?H3; reflexivity.
Qed.

Lemma remove_whitespace_numeric s : numeric s = true -> remove_whitespace s = s.
Proof.
  induction s as [|a s IH]; intros H; [reflexivity|].
  simpl in H. apply andb_true_iff in H as [Ha Hs].
  rewrite (remove_whitespace_cons a s Ha). now rewrite IH.
Qed.

(** *** Looking a number up *)

Lemma eqb_pretty (k z : Z) : String.eqb (pretty k) (pretty z) = (k =? z)%Z.
Proof.
  destruct (Z.eqb_spec k z) as [->|Hne]; [apply String.eqb_refl|].
  apply String.eqb_neq. intros H. apply Hne. now apply (inj pretty).
Qed.

Lemma eqb_not_numeric k s : numeric k = false -> numeric s = true -> String.eqb k s = false.
Proof.
  intros Hk Hs. apply String.eqb_neq. intros ->. congruence.
Qed.

Section Builtins.

Variable String_toLowerCase : string -> string.

(** The home page and the public profile page give every type code and
    every gearbox code the same label, as long as lower-casing leaves the
    text of the number as it is (it holds digits and a sign only). The
    dashboard agrees with them on the gearbox codes 1 and 2 and on no
    other: where they show a dash, it shows the empty text. *)
Theorem pages_label_codes_alike (n : Z) :
  String_toLowerCase (pretty n) = pretty n ->
  typeLabel_home String_toLowerCase n = typeLabel_profile n /\
  gearboxLabel_home String_toLowerCase n = gearboxLabel_profile n /\
  (gearboxLabel_dashboard n = gearboxLabel_profile n <-> n = 1%Z \/ n = 2%Z).
Proof.
  intros Hlow.
  assert (Hs : remove_whitespace (String_toLowerCase (pretty n)) = pretty n).
  { rewrite Hlow. apply remove_whitespace_numeric, pretty_Z_numeric. }
  pose proof (pretty_Z_numeric n) as Hnum.
  split; [|split].
  - unfold typeLabel_home, typeLabel_profile. rewrite Hs. cbv zeta.
    change TYPE_NUM with TYPE_LABELS.
    destruct (table_get (pretty n) TYPE_LABELS) as [l|]; [reflexivity|].
    unfold TYPE_STR, table_get.
    rewrite (eqb_not_numeric "usedsale" _ eq_refl Hnum),
            (eqb_not_numeric "coopsale" _ eq_refl Hnum),
            (eqb_not_numeric "buyrequest" _ eq_refl Hnum),
            (eqb_not_numeric "zerosale" _ eq_refl Hnum). reflexivity.
  - unfold gearboxLabel_home, gearboxLabel_profile. rewrite Hs. cbv zeta.
    change GEAR_NUM with GEARBOX_LABELS.
    destruct (table_get (pretty n) GEARBOX_LABELS) as [l|]; [reflexivity|].
    unfold GEAR_STR, table_get.
    rewrite (eqb_not_numeric "none" _ eq_refl Hnum),
            (eqb_not_numeric "automatic" _ eq_refl Hnum),
            (eqb_not_numeric "manual" _ eq_refl Hnum). reflexivity.
  - unfold gearboxLabel_dashboard, gearboxLabel_profile, GEARBOX_LABELS, table_get.
    change "0" with (pretty 0%Z). change "1" with (pretty 1%Z). change "2" with (pretty 2%Z).
    rewrite !eqb_pretty, !(Z.eqb_sym _ n).
    destruct (Z.eqb_spec n 0) as [->|H0]; [split; [discriminate | lia]|].
    destruct (Z.eqb_spec n 1) as [->|H1]; [split; [now left | reflexivity]|].
    destruct (Z.eqb_spec n 2) as [->|H2]; [split; [now right | reflexivity]|].
    simpl. split; [discriminate | lia].
Qed.

End Builtins.

Lemma pages_label_codes_alike_witness :
  typeLabel_home (fun s => s) 3 = typeLabel_profile 3 /\
  gearboxLabel_home (fun s => s) 0 = gearboxLabel_profile 0 /\
  gearboxLabel_dashboard 0 <> gearboxLabel_profile 0.
Proof.
  destruct (pages_label_codes_alike (fun s => s) 3 eq_refl) as (Ht & _ & _).
  destruct (pages_label_codes_alike (fun s => s) 0 eq_refl) as (_ & Hg & Hd).
  split; [exact Ht|]. split; [exact Hg|].
  intros H. apply Hd in H. lia.
Defined.

End LabelFacts.
(** ** The combined list of the home page *)

Module TimelineFacts.
Import JS JSString Arrays ArrayFacts BioGroupFacts HomeTimeline.




Section Builtins.

Variable String_toLowerCase : string -> string.
Variable Date_getTime : string -> option Z.

#[local] Abbreviation getTime := (getTime Date_getTime).
#[local] Abbreviation by_time := (by_time Date_getTime).
#[local] Abbreviation filteredAds := (filteredAds String_toLowerCase).
#[local] Abbreviation combinedItems := (combinedItems String_toLowerCase Date_getTime).

(** The time of an item whose date can be read. *)
Definition time (item : ListItem) : Z := default 0%Z (getTime item).



End Builtins.

(** The hours of two sample timestamps. *)
Definition sample_clock (iso : string) : option Z :=
  if String.eqb iso "2024-01-04T10:00:00Z" then Some 10%Z
  else if String.eqb iso "2024-01-05T09:00:00Z" then Some 33%Z
  else None.


(** A search that matches no ad leaves the message; a blank search lists
    both, the later one first. *)
Example home_timeline_search :
  combinedItems (fun s => s) sample_clock "zzz" [ProfileFacts.adA] [EventFacts.sample_msg 1]
  = [TelegramItem (EventFacts.sample_msg 1)] /\
  combinedItems (fun s => s) sample_clock "  " [ProfileFacts.adA] [EventFacts.sample_msg 1]
  = [TelegramItem (EventFacts.sample_msg 1); AdItem ProfileFacts.adA].
Proof. split; vm_compute; reflexivity. Qed.

End TimelineFacts.
(** ** The date menus of the dashboard offer the dates of its ads *)

Module DateFacts.
Import JS Arrays ArrayFacts DashboardDates.

(** *** Maps *)

Section Maps.

Context {V : Type}.

Lemma Map_get_after_mutate (k k' : string) (f : V -> V) (m : list (string * V)) :
  Map_get k' (Map_mutate k f m)
  = if String.eqb k k' then f <$> Map_get k m else Map_get k' m.
Proof.
  induction m as [|[k0 v] m IH]; simpl.
  - now destruct (String.eqb k k').
  - destruct (String.eqb_spec k0 k) as [->|Hne]; simpl.
    + now destruct (String.eqb k k').
    + destruct (String.eqb_spec k0 k') as [->|Hne']; [|exact IH].
      destruct (String.eqb_spec k k') as [->|_]; [contradiction | reflexivity].
Qed.

Lemma Map_get_after_push (k k' : string) (v : V) (m : list (string * V)) :
  Map_get k' (push m (k, v))
  = match Map_get k' m with
    | Some x => Some x
    | None => if String.eqb k k' then Some v else None
    end.
Proof.
  unfold push. induction m as [|[k0 v0] m IH]; simpl; [reflexivity|].
  destruct (String.eqb k0 k'); [reflexivity | exact IH].
Qed.

(** [Map_ensure] then [Map_mutate]: the value under [k] becomes [f] of
    what was there, or of [init]. *)
Lemma Map_get_upsert (k k' : string) (init : V) (f : V -> V) (m : list (string * V)) :
  Map_get k' (Map_mutate k f (Map_ensure k init m))
  = if String.eqb k k' then Some (f (default init (Map_get k m))) else Map_get k' m.
Proof.
  rewrite Map_get_after_mutate. unfold Map_ensure, Map_has.
  destruct (Map_get k m) as [v|] eqn:E.
  - rewrite E. reflexivity.
  - rewrite !Map_get_after_push, E, String.eqb_refl. simpl.
    destruct (String.eqb_spec k k') as [->|Hne]; [reflexivity|].
    now destruct (Map_get k' m).
Qed.

Lemma Map_keys_get (k : string) (m : list (string * V)) :
  In k (Map_keys m) <-> Map_get k m <> None.
Proof.
  unfold Map_keys. induction m as [|[k0 v] m IH]; simpl; [tauto|].
  destruct (String.eqb_spec k0 k) as [->|Hne].
  - split; [discriminate | now left].
  - rewrite <- IH. tauto.
Qed.

End Maps.

Lemma Set_add_In x d set : In d (Set_add x set) <-> d = x \/ In d set.
Proof.
  unfold Set_add, push. destruct (existsb (String.eqb x) set) eqn:E.
  - split; [now right|]. intros [->|H]; [|exact H].
    apply existsb_exists in E as (y & Hy & Hxy). now apply String.eqb_eq in Hxy as ->.
  - rewrite in_app_iff. simpl. intuition congruence.
Qed.

Lemma sort_In {A : Type} (cmp : A -> A -> Z) (l : list A) (x : A) :
  In x (sort cmp l) <-> In x l.
Proof. split; apply Permutation_in; [|symmetry]; apply sort_Permutation. Qed.

Section Calendar.

Variable toJalaliDay : string -> string.

#[local] Abbreviation day_parts := (day_parts toJalaliDay).
#[local] Abbreviation index_ad := (index_ad toJalaliDay).
#[local] Abbreviation dateIndex_map := (dateIndex_map toJalaliDay).
#[local] Abbreviation years := (years toJalaliDay).
#[local] Abbreviation monthOptions := (monthOptions toJalaliDay).
#[local] Abbreviation dayOptions := (dayOptions toJalaliDay).
#[local] Abbreviation filteredAds := (filteredAds toJalaliDay).

(** The Jalali date of the ad has the three parts [y], [m] and [d], none
    of them empty. *)
Definition dated (ad : Ad.t) (y m d : string) : Prop :=
  day_parts ad = (Some y, Some m, Some d) /\ y <> "" /\ m <> "" /\ d <> "".

(** The days indexed under a year and a month. *)
Definition days_of (y m : string) (M : Years) : option Days := Map_get y M ≫= Map_get m.

Lemma index_ad_undated M ad :
  (forall y m d, ~ dated ad y m d) -> index_ad M ad = M.
Proof.
  intros H. unfold DashboardDates.index_ad.
  destruct (day_parts ad) as [[y m] d] eqn:E.
  destruct (given y) eqn:Gy; [|reflexivity].
  destruct (given m) eqn:Gm; [|reflexivity].
  destruct (given d) eqn:Gd; [|reflexivity].
  destruct y as [y|], m as [m|], d as [d|]; try discriminate.
  simpl in Gy, Gm, Gd. apply negb_true_iff, String.eqb_neq in Gy, Gm, Gd.
  exfalso. apply (H y m d). unfold dated. now rewrite E.
Qed.

Lemma index_ad_dated M ad y m d :
  dated ad y m d ->
  index_ad M ad
  = Map_mutate y (fun mm => Map_mutate m (Set_add d) (Map_ensure m [] mm)) (Map_ensure y [] M).
Proof.
  intros (E & Hy & Hm & Hd). unfold DashboardDates.index_ad. rewrite E. simpl.
  apply String.eqb_neq in Hy, Hm, Hd. now rewrite Hy, Hm, Hd.
Qed.

Lemma dated_dec ad : (exists y m d, dated ad y m d) \/ (forall y m d, ~ dated ad y m d).
Proof.
  unfold dated. destruct (day_parts ad) as [[[y|] [m|]] [d|]];
    try (right; intros y' m' d' [H _]; discriminate H).
  destruct (String.eqb_spec y "") as [->|Hy];
    [right; intros y' m' d' (H & Hy' & _); injection H as <- <- <-; contradiction|].
  destruct (String.eqb_spec m "") as [->|Hm];
    [right; intros y' m' d' (H & _ & Hm' & _); injection H as <- <- <-; contradiction|].
  destruct (String.eqb_spec d "") as [->|Hd];
    [right; intros y' m' d' (H & _ & _ & Hd'); injection H as <- <- <-; contradiction|].
  left. exists y, m, d. auto.
Qed.

(** What indexing a dated ad does to the year [y'] and to the days under
    [y'] and [m']. *)
Lemma year_index_ad M ad y m d y' :
  dated ad y m d ->
  Map_get y' (index_ad M ad)
  = if String.eqb y y'
    then Some (Map_mutate m (Set_add d) (Map_ensure m [] (default [] (Map_get y M))))
    else Map_get y' M.
Proof.
  intros H. rewrite (index_ad_dated M ad y m d H), Map_get_upsert. reflexivity.
Qed.

Lemma days_index_ad M ad y m d y' m' :
  dated ad y m d ->
  days_of y' m' (index_ad M ad)
  = if String.eqb y y' && String.eqb m m'
    then Some (Set_add d (default [] (days_of y' m' M)))
    else days_of y' m' M.
Proof.
  intros H. unfold days_of. rewrite (year_index_ad M ad y m d y' H).
  destruct (String.eqb_spec y y') as [->|Hy]; simpl; [|reflexivity].
  rewrite Map_get_upsert.
  destruct (String.eqb_spec m m') as [->|Hm]; now destruct (Map_get y' M).
Qed.

(** Every indexed day comes from an ad of [all], no indexed set of days is
    empty, and every indexed year has a month. *)
Definition sound (all : list Ad.t) (M : Years) : Prop :=
  (forall y m set, days_of y m M = Some set ->
     set <> [] /\ forall d, In d set -> exists ad, In ad all /\ dated ad y m d) /\
  (forall y mm, Map_get y M = Some mm -> exists m set, Map_get m mm = Some set).

Lemma index_ad_sound all M ad : In ad all -> sound all M -> sound all (index_ad M ad).
Proof.
  intros Hin [Hdays Hyear].
  destruct (dated_dec ad) as [(y & m & d & Hd)|Hno];
    [|rewrite (index_ad_undated M ad Hno); now split].
  split.
  - intros y' m' set. rewrite (days_index_ad M ad y m d y' m' Hd).
    destruct (String.eqb_spec y y') as [<-|Hy]; simpl; [|apply Hdays].
    destruct (String.eqb_spec m m') as [<-|Hm]; simpl; [|apply Hdays].
    intros H. injection H as <-. split.
    + intros E. assert (Hi : In d (Set_add d (default [] (days_of y m M))))
        by (apply Set_add_In; now left).
      now rewrite E in Hi.
    + intros d' Hd'. apply Set_add_In in Hd' as [->|Hd']; [now exists ad|].
      destruct (days_of y m M) as [set|] eqn:E; [|contradiction].
      now apply (proj2 (Hdays y m set E)).
  - intros y' mm. rewrite (year_index_ad M ad y m d y' Hd).
    destruct (String.eqb_spec y y') as [<-|Hy]; [|apply Hyear].
    intros H. injection H as <-. exists m. rewrite Map_get_upsert, String.eqb_refl. eauto.
Qed.

Lemma fold_index_sound all ads : forall M,
  (forall ad, In ad ads -> In ad all) -> sound all M ->
  sound all (fold_left index_ad ads M).
Proof.
  induction ads as [|ad ads IH]; intros M Hsub HM; simpl; [exact HM|].
  apply IH; [intros a Ha; apply Hsub; now right|].
  apply index_ad_sound; [apply Hsub; now left | exact HM].
Qed.

Lemma dateIndex_sound ads : sound ads (dateIndex_map ads).
Proof.
  apply fold_index_sound; [auto|]. split.
  - intros y m set H. discriminate H.
  - intros y mm H. discriminate H.
Qed.

(** A day that is indexed stays indexed. *)
Definition holds (y m d : string) (M : Years) : Prop :=
  exists set, days_of y m M = Some set /\ In d set.

Lemma index_ad_keeps M ad y m d : holds y m d M -> holds y m d (index_ad M ad).
Proof.
  intros (set & Hset & Hin).
  destruct (dated_dec ad) as [(y0 & m0 & d0 & Hd)|Hno];
    [|rewrite (index_ad_undated M ad Hno); now exists set].
  unfold holds. rewrite (days_index_ad M ad y0 m0 d0 y m Hd), Hset.
  destruct (String.eqb y0 y && String.eqb m0 m); [|now exists set].
  eexists. split; [reflexivity|]. apply Set_add_In. now right.
Qed.

Lemma index_ad_adds M ad y m d : dated ad y m d -> holds y m d (index_ad M ad).
Proof.
  intros Hd. unfold holds. rewrite (days_index_ad M ad y m d y m Hd), !String.eqb_refl.
  eexists. split; [reflexivity|]. apply Set_add_In. now left.
Qed.

Lemma fold_index_keeps ads y m d : forall M,
  holds y m d M -> holds y m d (fold_left index_ad ads M).
Proof.
  induction ads as [|ad ads IH]; intros M H; simpl; [exact H|].
  apply IH. now apply index_ad_keeps.
Qed.

Lemma fold_index_complete ads ad y m d : forall M,
  In ad ads -> dated ad y m d -> holds y m d (fold_left index_ad ads M).
Proof.
  induction ads as [|a ads IH]; intros M Hin Hd; simpl; [contradiction|].
  destruct Hin as [->|Hin]; [|now apply IH].
  apply fold_index_keeps. now apply index_ad_adds.
Qed.

(** *** The filter *)

Lemma dated_passes ads ad y m d selYear selMonth selDay :
  In ad ads -> dated ad y m d ->
  (selYear = "" \/ selYear = y) -> (selMonth = "" \/ selMonth = m) ->
  (selDay = "" \/ selDay = d) ->
  In ad (filteredAds ads selYear selMonth selDay).
Proof.
  intros Hin (E & _) Hy Hm Hd. unfold DashboardDates.filteredAds.
  destruct (String.eqb selYear "" && String.eqb selMonth "" && String.eqb selDay "");
    [exact Hin|].
  apply filter_In. split; [exact Hin|]. rewrite E. unfold differs.
  assert (Ty : negb (String.eqb selYear "") && negb (String.eqb y selYear) = false).
  { destruct Hy as [->| ->]; [reflexivity|]. rewrite String.eqb_refl. apply andb_false_r. }
  assert (Tm : negb (String.eqb selMonth "") && negb (String.eqb m selMonth) = false).
  { destruct Hm as [->| ->]; [reflexivity|]. rewrite String.eqb_refl. apply andb_false_r. }
  assert (Td : negb (String.eqb selDay "") && negb (String.eqb d selDay) = false).
  { destruct Hd as [->| ->]; [reflexivity|]. rewrite String.eqb_refl. apply andb_false_r. }
  now rewrite Ty, Tm, Td.
Qed.

(** The three date menus of the dashboard offer exactly the dates of its
    ads. Choosing an offered year, an offered month of a chosen year, or an
    offered day of a chosen year and month always leaves at least one ad
    in the filtered list; and an ad whose Jalali date has its three parts
    finds its year, its month and its day in the menus. The filtered list
    holds ads of the list only, and all of them when nothing is chosen. *)
Theorem date_menus_offer_dates_of_ads (ads : list Ad.t) :
  (forall y, In y (years ads) -> filteredAds ads y "" "" <> []) /\
  (forall y m, In m (monthOptions ads y) -> filteredAds ads y m "" <> []) /\
  (forall y m d, In d (dayOptions ads y m) -> filteredAds ads y m d <> []) /\
  (forall ad y m d, In ad ads -> dated ad y m d ->
     In y (years ads) /\ In m (monthOptions ads y) /\ In d (dayOptions ads y m)) /\
  (forall y m d ad, In ad (filteredAds ads y m d) -> In ad ads) /\
  filteredAds ads "" "" "" = ads.
Proof.
  destruct (dateIndex_sound ads) as [Hdays Hyear].
  assert (Hne : forall ad sy sm sd, In ad (filteredAds ads sy sm sd) ->
                                    filteredAds ads sy sm sd <> []).
  { intros ad sy sm sd Hin E. now rewrite E in Hin. }
  assert (Hpick : forall y m set, days_of y m (dateIndex_map ads) = Some set ->
                    exists ad d, In ad ads /\ dated ad y m d).
  { intros y m set Hset. destruct (Hdays y m set Hset) as [Hnonempty Hfrom].
    destruct set as [|d set]; [contradiction|].
    destruct (Hfrom d (or_introl eq_refl)) as (ad & Hin & Hd). now exists ad, d. }
  split; [|split; [|split; [|split; [|split]]]].
  - intros y Hy. unfold DashboardDates.years in Hy.
    apply sort_In, Map_keys_get in Hy.
    destruct (Map_get y (dateIndex_map ads)) as [mm|] eqn:Emm; [|contradiction].
    destruct (Hyear y mm Emm) as (m & set & Hset).
    destruct (Hpick y m set) as (ad & d & Hin & Hd).
    { unfold days_of. now rewrite Emm. }
    apply (Hne ad). apply (dated_passes ads ad y m d); auto.
  - intros y m Hm. unfold DashboardDates.monthOptions in Hm.
    destruct (String.eqb y ""); [contradiction|].
    destruct (Map_get y (dateIndex_map ads)) as [mm|] eqn:Emm; [|contradiction].
    apply sort_In, Map_keys_get in Hm.
    destruct (Map_get m mm) as [set|] eqn:Eset; [|contradiction].
    destruct (Hpick y m set) as (ad & d & Hin & Hd).
    { unfold days_of. rewrite Emm. exact Eset. }
    apply (Hne ad). apply (dated_passes ads ad y m d); auto.
  - intros y m d Hd. unfold DashboardDates.dayOptions in Hd.
    destruct (String.eqb y "" || String.eqb m ""); [contradiction|].
    match type of Hd with
    | context [match ?t with _ => _ end] => destruct t as [set|] eqn:Eset; [|contradiction]
    end.
    apply sort_In in Hd.
    destruct (proj2 (Hdays y m set Eset) d Hd) as (ad & Hin & Hdated).
    apply (Hne ad). apply (dated_passes ads ad y m d); auto.
  - intros ad y m d Hin Hd.
    destruct (fold_index_complete ads ad y m d [] Hin Hd) as (set & Hset & Hinset).
    destruct Hd as (_ & Hy & Hm & _). apply String.eqb_neq in Hy, Hm.
    unfold days_of in Hset.
    destruct (Map_get y (fold_left index_ad ads [])) as [mm|] eqn:Emm; [|discriminate].
    simpl in Hset. split; [|split].
    + unfold DashboardDates.years. apply sort_In, Map_keys_get.
      unfold DashboardDates.dateIndex_map. now rewrite Emm.
    + unfold DashboardDates.monthOptions, DashboardDates.dateIndex_map. rewrite Hy, Emm.
      apply sort_In, Map_keys_get. now rewrite Hset.
    + unfold DashboardDates.dayOptions, DashboardDates.dateIndex_map. rewrite Hy, Hm, Emm.
      simpl. rewrite Hset. now apply sort_In.
  - intros y m d ad. unfold DashboardDates.filteredAds.
    destruct (String.eqb y "" && String.eqb m "" && String.eqb d ""); [auto|].
    intros H. now apply filter_In in H.
  - reflexivity.
Qed.

End Calendar.

(** The first ten characters of the sample timestamps with "-" turned into
    "/", standing in for the Jalali date. *)
Definition sample_day (iso : string) : string :=
  if String.eqb iso "2024-01-04T10:00:00Z" then "1402/10/14"
  else if String.eqb iso "2024-01-03T10:00:00Z" then "1402/10/13"
  else "Invalid Date".

Example date_menus_of_three_ads :
  let ads := [ProfileFacts.adA; ProfileFacts.adB; ProfileFacts.adC] in
  years sample_day ads = ["1402"] /\
  monthOptions sample_day ads "1402" = ["10"] /\
  dayOptions sample_day ads "1402" "10" = ["14"; "13"] /\
  filteredAds sample_day ads "1402" "10" "13" = [ProfileFacts.adB].
Proof. repeat split; reflexivity. Qed.

End DateFacts.
